(** * Lume core: the source tree builder ([src/core/source.ts])

    A shallow embedding of the build engine of the static-site generator:
    the date prefix parser, the cascade merge of data records and of
    component registries, the component proxy, URL resolution and the
    tree walk that sorts entries into pages and static files.

    [source.ts] holds two revisions of the module.  The class [Source] with
    [#build], [toProxy] and the variadic [mergeComponents] is embedded from
    the current one (the first part of the file).  It imports [mergeData],
    the date parser and the URL resolver from modules that are not among the
    sources; the earlier revision (the second part) still defines them in
    place, and [mergeData], [parseDate], [getUrl] and [normalizeUrl] are
    embedded from there, as is its [mergeComponents] for comparison.

    Conventions of the embedding
    - a JavaScript string is a [string]; every character is one code unit
      (the model covers code units below 256);
    - a JavaScript number is an integer [Z] (the numbers met here are
      calendar fields and epoch milliseconds);
    - a [Map] and a plain object are insertion-ordered association lists
      with the [Map.set] discipline (a key is updated in place, a new key is
      appended) that hold the own properties; what an object inherits from
      [Object.prototype] is given by the host ([Host]) and is consulted
      where the program looks up a name that the data chooses; the flat
      configuration tables ([staticPaths], [scopedData], [ignored]) that
      are only looked up are [gmap]s and a [gset];
    - a thrown exception and a rejected promise are the [Err] branch of
      [Result]; awaiting is sequencing;
    - object identity, where a property depends on it, is an allocation
      index handed out by an explicit store;
    - the collaborators (loaders, format registry) and the helpers defined
      in modules outside the sources are parameters of the walk. *)

From Stdlib Require Import ZArith Ascii String List Bool Lia.
From stdpp Require Import gmap strings list.

#[local] Set Warnings "-register-all".

Local Open Scope Z_scope.

(** ** Strings of the platform *)

Module Str.

(** [s.startsWith(p)] *)
Fixpoint startsWith (s p : string) {struct p} : bool :=
  match p, s with
  | EmptyString, _ => true
  | String a p', String b s' => if Ascii.eqb a b then startsWith s' p' else false
  | String _ _, EmptyString => false
  end.

Arguments startsWith : simpl never.

Fixpoint rev_acc (s acc : string) : string :=
  match s with
  | EmptyString => acc
  | String c s' => rev_acc s' (String c acc)
  end.

Definition rev (s : string) : string := rev_acc s EmptyString.

(** [s.endsWith(p)] *)
Definition endsWith (s p : string) : bool := startsWith (rev s) (rev p).

(** [s.slice(0, -n)] for [n > 0]: all but the last [n] code units.  For
    [n = 0] JavaScript reads [-0] as [0] and the slice is empty. *)
Definition slice_to_minus (s : string) (n : nat) : string :=
  match n with
  | O => EmptyString
  | _ => String.substring 0 (String.length s - n) s
  end.

(** The lower-case form of a letter A-Z. *)
Definition lower_ascii (c : ascii) : ascii :=
  let n := nat_of_ascii c in
  if ((65 <=? n) && (n <=? 90))%nat then ascii_of_nat (n + 32) else c.

(** The lower-case form of a code unit below 256: the letters A-Z and the
    capitals of Latin-1 (U+00C0 to U+00DE, the multiplication sign U+00D7
    left out) move up by 32. *)
Definition lower_unit (c : ascii) : ascii :=
  let n := nat_of_ascii c in
  if ((65 <=? n) && (n <=? 90))%nat then ascii_of_nat (n + 32)
  else if ((192 <=? n) && (n <=? 222) && negb (n =? 215))%nat then ascii_of_nat (n + 32)
  else c.

(** [s.toLowerCase()] *)
Fixpoint toLowerCase (s : string) : string :=
  match s with
  | EmptyString => EmptyString
  | String c s' => String (lower_unit c) (toLowerCase s')
  end.

Definition is_digit (c : ascii) : bool :=
  let n := nat_of_ascii c in ((48 <=? n) && (n <=? 57))%nat.

Definition digit_val (c : ascii) : Z := Z.of_nat (nat_of_ascii c) - 48.

(** Line terminators of ECMAScript that fit in one modelled code unit
    (LF and CR; U+2028 and U+2029 lie outside the model). *)
Definition is_line_terminator (c : ascii) : bool :=
  let n := nat_of_ascii c in ((n =? 10) || (n =? 13))%nat.

(** [String(n)] for an integer: its decimal digits. *)
Fixpoint pos_digits (fuel : nat) (n : Z) (acc : string) : string :=
  match fuel with
  | O => acc
  | S f =>
      let d := ascii_of_nat (Z.to_nat (n mod 10) + 48) in
      if n <? 10 then String d acc else pos_digits f (n / 10) (String d acc)
  end.

Definition of_Z (n : Z) : string :=
  if n <? 0 then String "-" (pos_digits (Z.to_nat (Z.log2 (- n)) + 1) (- n) EmptyString)
  else pos_digits (Z.to_nat (Z.log2 n) + 1) n EmptyString.

(** [s] between double quotes, for the messages of errors. *)
Definition quoted (s : string) : string :=
  String (ascii_of_nat 34) (s +:+ String (ascii_of_nat 34) EmptyString).

(** [l.join(sep)] *)
Fixpoint join (sep : string) (l : list string) : string :=
  match l with
  | [] => EmptyString
  | [x] => x
  | x :: r => x +:+ sep +:+ join sep r
  end.

End Str.

(** ** Numbers and dates of the platform *)

Module Num.

(** [parseInt(s)] on the shape met in this program: an optional sign and
    the longest run of decimal digits; [None] is [NaN]. *)
Fixpoint digits_value (s : string) (acc : Z) : Z :=
  match s with
  | String c s' => if Str.is_digit c then digits_value s' (acc * 10 + Str.digit_val c) else acc
  | EmptyString => acc
  end.

Definition parseInt (s : string) : option Z :=
  match s with
  | String c s' =>
      if Str.is_digit c then Some (digits_value s 0)
      else if Ascii.eqb c "-" then
        match s' with
        | String d _ => if Str.is_digit d then Some (- digits_value s' 0) else None
        | EmptyString => None
        end
      else None
  | EmptyString => None
  end.

End Num.

Module JSDate.

(** A [Date] object: a time value in milliseconds since the epoch, or the
    invalid date (time value [NaN]). *)
Inductive Date : Type :=
| Instant (ms : Z)
| InvalidDate.

Definition msPerDay : Z := 86400000.

(** ECMAScript [DayFromYear], [InLeapYear] and the day within the year at
    which a month starts. *)
Definition DayFromYear (y : Z) : Z :=
  365 * (y - 1970) + (y - 1969) / 4 - (y - 1901) / 100 + (y - 1601) / 400.

Definition InLeapYear (y : Z) : bool :=
  if negb (y mod 4 =? 0) then false
  else if negb (y mod 100 =? 0) then true
  else (y mod 400 =? 0).

Definition month_start (leap : bool) (mn : Z) : Z :=
  let l := if leap then 1 else 0 in
  match mn with
  | 0 => 0 | 1 => 31 | 2 => 59 + l | 3 => 90 + l | 4 => 120 + l
  | 5 => 151 + l | 6 => 181 + l | 7 => 212 + l | 8 => 243 + l
  | 9 => 273 + l | 10 => 304 + l | _ => 334 + l
  end.

(** [MakeDay(year, month, date)]: months beyond 0..11 carry into the
    year, days beyond the month run on into the next ones. *)
Definition MakeDay (year month date : Z) : Z :=
  let ym := year + month / 12 in
  let mn := month mod 12 in
  DayFromYear ym + month_start (InLeapYear ym) mn + date - 1.

Definition MakeTime (hour min sec ms : Z) : Z :=
  hour * 3600000 + min * 60000 + sec * 1000 + ms.

Definition MakeDate (day time : Z) : Z := day * msPerDay + time.

(** [TimeClip]: outside of +-8.64e15 the time value is [NaN]. *)
Definition TimeClip (t : Z) : option Z :=
  if Z.abs t <=? 8640000000000000 then Some t else None.

(** [Date.UTC(year, month, day, hours, minutes, seconds)]; an argument
    that is [NaN] gives [NaN]; a year in 0..99 means 1900 + year. *)
Definition UTC (year month day hours minutes seconds : option Z) : option Z :=
  match year, month, day, hours, minutes, seconds with
  | Some y, Some m, Some d, Some h, Some mi, Some s =>
      let yr := if (0 <=? y) && (y <=? 99) then 1900 + y else y in
      TimeClip (MakeDate (MakeDay yr m d) (MakeTime h mi s 0))
  | _, _, _, _, _, _ => None
  end.

(** [new Date(tv)] *)
Definition new_Date (tv : option Z) : Date :=
  match tv with
  | Some ms => Instant ms
  | None => InvalidDate
  end.

End JSDate.

(** ** The date prefix of a file name: [parseDate] *)

Module DateName.

(** The named groups of [filenameRegex]; a group that did not take part in
    the match is [undefined], here [None]. *)
Record Groups : Type := {
  g_year : string;
  g_month : string;
  g_day : string;
  g_hour : option string;
  g_minute : option string;
  g_second : option string;
  g_slug : string
}.

(** [\d{n}]: exactly [n] digits at the head of [s]. *)
Fixpoint digits (n : nat) (s : string) : option (string * string) :=
  match n with
  | O => Some (EmptyString, s)
  | S n' =>
      match s with
      | String c s' =>
          if Str.is_digit c then
            match digits n' s' with
            | Some (d, r) => Some (String c d, r)
            | None => None
            end
          else None
      | EmptyString => None
      end
  end.

(** A literal [-]. *)
Definition hyphen (s : string) : option string :=
  match s with
  | String c s' => if Ascii.eqb c "-" then Some s' else None
  | EmptyString => None
  end.

(** [.*]: the longest run of characters that are not line terminators
    (the regular expression has no [s] flag). *)
Fixpoint dot_star (s : string) : string :=
  match s with
  | String c s' => if Str.is_line_terminator c then EmptyString else String c (dot_star s')
  | EmptyString => EmptyString
  end.

(** The end of the pattern: a separator [_] or [-], then the group
    [slug], which is [.*]. *)
Definition tail (s : string) : option string :=
  match s with
  | String c s' =>
      if Ascii.eqb c "_" || Ascii.eqb c "-" then Some (dot_star s') else None
  | EmptyString => None
  end.

(** [-(?<hour>\d\d)-(?<minute>\d\d)] *)
Definition hour_minute (s : string) : option (string * string * string) :=
  match hyphen s with
  | Some s1 =>
      match digits 2 s1 with
      | Some (h, s2) =>
          match hyphen s2 with
          | Some s3 =>
              match digits 2 s3 with
              | Some (mi, s4) => Some (h, mi, s4)
              | None => None
              end
          | None => None
          end
      | None => None
      end
  | None => None
  end.

(** [-(?<second>\d\d)] *)
Definition second (s : string) : option (string * string) :=
  match hyphen s with
  | Some s1 => digits 2 s1
  | None => None
  end.

(** The optional groups are greedy: the matcher tries the time with
    seconds, then the time without seconds, then no time, and keeps the
    first alternative after which the end of the pattern matches. *)
Definition time_and_tail (s : string)
  : option (option string * option string * option string * string) :=
  let no_time :=
    match tail s with
    | Some sl => Some (None, None, None, sl)
    | None => None
    end in
  match hour_minute s with
  | Some (h, mi, r) =>
      let no_second :=
        match tail r with
        | Some sl => Some (Some h, Some mi, None, sl)
        | None => no_time
        end in
      match second r with
      | Some (sec, r') =>
          match tail r' with
          | Some sl => Some (Some h, Some mi, Some sec, sl)
          | None => no_second
          end
      | None => no_second
      end
  | None => no_time
  end.

(** [filenameRegex.exec(slug)?.groups] *)
Definition exec_groups (s : string) : option Groups :=
  match digits 4 s with
  | Some (y, s1) =>
      match hyphen s1 with
      | Some s2 =>
          match digits 2 s2 with
          | Some (m, s3) =>
              match hyphen s3 with
              | Some s4 =>
                  match digits 2 s4 with
                  | Some (d, s5) =>
                      match time_and_tail s5 with
                      | Some (h, mi, sec, sl) =>
                          Some {| g_year := y; g_month := m; g_day := d;
                                  g_hour := h; g_minute := mi; g_second := sec;
                                  g_slug := sl |}
                      | None => None
                      end
                  | None => None
                  end
              | None => None
              end
          | None => None
          end
      | None => None
      end
  | None => None
  end.

(** [g ? parseInt(g) : 0] for an optional group: [undefined] and the
    empty string are falsy. *)
Definition field_or_zero (g : option string) : option Z :=
  match g with
  | Some (String _ _ as s) => Num.parseInt s
  | _ => Some 0
  end.

Definition minus_one (n : option Z) : option Z :=
  match n with
  | Some k => Some (k - 1)
  | None => None
  end.

(** [parseDate(slug)].  A [Date] object is always truthy, so the test
    [if (date)] never fails once the pattern matched. *)
Definition parseDate (slug : string) : string * option JSDate.Date :=
  match exec_groups slug with
  | Some g =>
      let date :=
        JSDate.new_Date
          (JSDate.UTC (Num.parseInt (g_year g))
                      (minus_one (Num.parseInt (g_month g)))
                      (Num.parseInt (g_day g))
                      (field_or_zero (g_hour g))
                      (field_or_zero (g_minute g))
                      (field_or_zero (g_second g))) in
      (g_slug g, Some date)
  | None => (slug, None)
  end.

End DateName.


(** ** Paths: the [posix] functions of the path library

    [deps/path.ts] re-exports the POSIX path functions of the standard
    library of the platform.  They are modelled on path segments: a path is
    cut at every [/], the segments are normalized on a stack and glued
    again. *)

Module Posix.

Definition slash : ascii := "/"%char.

(** The segments of a path, empty ones included: [a//b/] has the segments
    [a], the empty one, [b] and the empty one. *)
Fixpoint split (s : string) : list string :=
  match s with
  | EmptyString => [EmptyString]
  | String c r =>
      if Ascii.eqb c slash then EmptyString :: split r
      else match split r with
           | h :: t => String c h :: t
           | [] => [String c EmptyString]
           end
  end.

(** One step of [normalizeString]: the stack holds the kept segments, the
    last one first. *)
Definition norm_step (allowAboveRoot : bool) (stack : list string) (seg : string)
  : list string :=
  if String.eqb seg "" || String.eqb seg "." then stack
  else if String.eqb seg ".." then
    match stack with
    | [] => if allowAboveRoot then [seg] else []
    | top :: below =>
        if String.eqb top ".." then (if allowAboveRoot then seg :: stack else stack)
        else below
    end
  else seg :: stack.

Definition normalizeString (path : string) (allowAboveRoot : bool) : string :=
  Str.join "/" (rev (fold_left (norm_step allowAboveRoot) (split path) [])).

Definition isAbsolute (path : string) : bool := Str.startsWith path "/".

(** [posix.normalize(path)] *)
Definition normalize (path : string) : string :=
  if String.eqb path "" then "."
  else
    let absolute := isAbsolute path in
    let trailingSeparator := Str.endsWith path "/" in
    let p := normalizeString path (negb absolute) in
    let p := if String.eqb p "" && negb absolute then "." else p in
    let p := if negb (String.eqb p "") && trailingSeparator then p +:+ "/" else p in
    if absolute then "/" +:+ p else p.

(** [posix.join(...paths)]: the non-empty arguments glued with [/], then
    normalized. *)
Definition join (paths : list string) : string :=
  match List.filter (fun p => negb (String.eqb p "")) paths with
  | [] => "."
  | ps => normalize (Str.join "/" ps)
  end.

(** The segments of [path] up to its last non-empty one: the segments before
    it, and that segment. *)
Fixpoint last_segment (rsegs : list string) : option (list string * string) :=
  match rsegs with
  | [] => None
  | s :: r => if String.eqb s "" then last_segment r else Some (rev r, s)
  end.

(** [posix.basename(path)]: the last non-empty segment, trailing slashes
    dropped; the empty string when there is none. *)
Definition basename (path : string) : string :=
  match last_segment (rev (split path)) with
  | Some (_, s) => s
  | None => ""
  end.

(** [posix.dirname(path)]: what stands before the slash in front of the last
    non-empty segment; [.] or [/] when there is no such slash. *)
Definition dirname (path : string) : string :=
  let hasRoot := isAbsolute path in
  match last_segment (rev (split path)) with
  | Some ([], _) | None => if hasRoot then "/" else "."
  | Some (before, _) =>
      if hasRoot && match before with [_] => true | _ => false end then "/"
      else if hasRoot && match before with [_; e] => String.eqb e "" | _ => false end then "//"
      else Str.join "/" before
  end.

End Posix.

(** ** Insertion-ordered maps: [Map] and plain objects

    [set] updates a present key in place and appends a new one, so the keys
    stay in insertion order, as the iteration over a [Map] or over the own
    properties of an object sees them.  These are the own properties:
    the members an object inherits from [Object.prototype] are those of the
    [Host]. *)

Module OMap.
Section ops.
Context {V : Type}.

Fixpoint get (m : list (string * V)) (k : string) : option V :=
  match m with
  | [] => None
  | (k', v) :: r => if String.eqb k' k then Some v else get r k
  end.

Definition has (m : list (string * V)) (k : string) : bool :=
  match get m k with
  | Some _ => true
  | None => false
  end.

Fixpoint set (m : list (string * V)) (k : string) (v : V) : list (string * V) :=
  match m with
  | [] => [(k, v)]
  | (k', v') :: r => if String.eqb k' k then (k, v) :: r else (k', v') :: set r k v
  end.

Definition delete (m : list (string * V)) (k : string) : list (string * V) :=
  List.filter (fun kv => negb (String.eqb (fst kv) k)) m.

Definition values (m : list (string * V)) : list V := map snd m.

(** [{...a, ...b}] and [Object.assign(a, b)]: the entries of [b] are set on
    [a], one after the other. *)
Definition assign (a b : list (string * V)) : list (string * V) :=
  fold_left (fun acc kv => set acc (fst kv) (snd kv)) b a.

End ops.
End OMap.

(** ** Values, entries and pages *)

(** A JavaScript value as it occurs in a data record.  A function is named
    by its index in the table of functions of the site, a component proxy by
    the index of its node in the store; [VThisPage] is the back-reference
    [data.page] from a record to the page that owns it. *)
Inductive Value : Type :=
| VUndefined
| VNull
| VBool (b : bool)
| VNum (n : Z)                    (* a number with an integer value *)
| VStr (s : string)
| VDate (d : JSDate.Date)
| VArr (items : list Value)
| VObj (fields : list (string * Value))
| VFun (f : nat)
| VProxy (p : nat)
| VThisPage.

(** A data record ([Data], [RawData], [PageData]). *)
Definition Data : Type := list (string * Value).

(** [obj[key]] *)
Definition prop (d : Data) (key : string) : Value :=
  match OMap.get d key with
  | Some v => v
  | None => VUndefined
  end.

(** [ToBoolean] *)
Definition truthy (v : Value) : bool :=
  match v with
  | VUndefined | VNull => false
  | VBool b => b
  | VNum n => negb (n =? 0)
  | VStr s => negb (String.eqb s "")
  | _ => true
  end.

Definition truthy_string (s : string) : bool := negb (String.eqb s "").

Inductive EntryType : Type := file | directory.

(** An entry of the source tree; [children.values()] is the list of the
    children in insertion order. *)
Inductive Entry : Type :=
| MkEntry (name path : string) (type : EntryType) (children : list Entry).

Definition entry_name (e : Entry) : string := let 'MkEntry n _ _ _ := e in n.
Definition entry_path (e : Entry) : string := let 'MkEntry _ p _ _ := e in p.
Definition entry_type (e : Entry) : EntryType := let 'MkEntry _ _ t _ := e in t.
Definition entry_children (e : Entry) : list Entry := let 'MkEntry _ _ _ c := e in c.

Definition is_file (e : Entry) : bool :=
  match entry_type e with file => true | directory => false end.
Definition is_directory (e : Entry) : bool :=
  match entry_type e with directory => true | file => false end.

(** The source descriptor of a page. *)
Record Src : Type := {
  src_path : string;
  src_ext : string;
  src_asset : bool;
  src_slug : string;
  src_entry : option Entry
}.

Record Page : Type := {
  page_src : Src;
  page_data : Data;
  page_layout : Value            (* [page._data.layout] *)
}.

Record StaticFile : Type := {
  sf_entry : Entry;
  sf_outputPath : string
}.

(** What the program throws. *)
Inductive Error : Type :=
| TypeError (msg : string)
| PlainError (msg : string)
| Exception (msg : string) (page : Page) (url : Value)
| Rejected (msg : string).        (* a collaborator's promise was rejected *)

Inductive Result (A : Type) : Type :=
| Ok (a : A)
| Err (e : Error).
Arguments Ok {A} a.
Arguments Err {A} e.

Definition bind {A B : Type} (r : Result A) (k : A -> Result B) : Result B :=
  match r with
  | Ok a => k a
  | Err e => Err e
  end.

Declare Scope result_scope.
Delimit Scope result_scope with result.
Notation "x <- r ;; k" := (bind r (fun x => k))
  (at level 100, r at next level, right associativity) : result_scope.
Local Open Scope result_scope.

Fixpoint mapM {A B : Type} (f : A -> Result B) (l : list A) : Result (list B) :=
  match l with
  | [] => Ok []
  | x :: r => y <- f x ;; ys <- mapM f r ;; Ok (y :: ys)
  end.

Fixpoint foldM {A B : Type} (f : B -> A -> Result B) (l : list A) (b : B) : Result B :=
  match l with
  | [] => Ok b
  | x :: r => b' <- f b x ;; foldM f r b'
  end.

(** ** What the host decides *)

(** [inherited name] is the member that every plain object inherits under
    [name] from [Object.prototype] ([constructor], [toString], ...), if
    there is one; which names these are depends on the platform and on what
    the programs loaded before have added.  The names that the program
    itself reads from a record or a node ([mergedKeys], [url], [slug],
    [layout], [_components], [_proxies]) are taken not to be among them.
    [number_toString] is [String(n)] for a number beyond the safe integers,
    where the digits printed are those of the nearest double;
    [object_toString] is [String(o)] for a plain object, which is
    [[object Object]] unless the object or its prototype says otherwise,
    and [proxy_toString] is [String(p)] for a
    component proxy on a platform where [toString] or [valueOf] is not
    inherited, so that the proxy looks it up as a component;
    [page_toString] and [page_properties] are the text and the own
    enumerable properties of a [Page] object, whose class is defined in
    [file.ts], outside the sources. *)
Record Host : Type := {
  inherited : string -> option Value;
  number_toString : Z -> string;
  object_toString : Data -> Result string;
  proxy_toString : nat -> Result string;
  page_toString : Result string;
  page_properties : Data
}.

(** ** The cascade merge of data records: [mergeData] *)

Module Merge.
Section merge.

(** The text a [Date] and a function print as depends on the host (time
    zone, source text); the identity of two objects among the elements of a
    sequence is not tracked by the model of data values.  The three are
    parameters, as is the rest of what the host decides. *)
Variable date_toString : JSDate.Date -> string.
Variable function_toString : nat -> string.
Variable same_object : Value -> Value -> bool.
Variable host : Host.

(** The integers that a number holds exactly. *)
Definition safe_integer (n : Z) : bool := Z.abs n <=? 9007199254740992.

(** [String(v)] *)
Fixpoint to_String (v : Value) : Result string :=
  match v with
  | VUndefined => Ok "undefined"
  | VNull => Ok "null"
  | VBool true => Ok "true"
  | VBool false => Ok "false"
  | VNum n => Ok (if safe_integer n then Str.of_Z n else number_toString host n)
  | VStr s => Ok s
  | VDate d => Ok (date_toString d)
  | VArr items =>
      ss <- (fix elements (l : list Value) : Result (list string) :=
               match l with
               | [] => Ok []
               | x :: r =>
                   s <- match x with
                        | VUndefined | VNull => Ok ""
                        | _ => to_String x
                        end ;;
                   rest <- elements r ;;
                   Ok (s :: rest)
               end) items ;;
      Ok (Str.join "," ss)
  | VObj fields => object_toString host fields
  | VFun f => Ok (function_toString f)
  | VProxy p =>
      (* the [get] trap answers [undefined] for [Symbol.toPrimitive] and for
         the names that the target inherits *)
      match inherited host "toString", inherited host "valueOf" with
      | Some _, Some _ => Err (TypeError "Cannot convert object to primitive value")
      | _, _ => proxy_toString host p
      end
  | VThisPage => page_toString host
  end.

(** [SameValueZero], the equality of the elements of a [Set]. *)
Definition SameValueZero (a b : Value) : bool :=
  match a, b with
  | VUndefined, VUndefined => true
  | VNull, VNull => true
  | VBool x, VBool y => Bool.eqb x y
  | VNum x, VNum y => x =? y
  | VStr x, VStr y => String.eqb x y
  | VFun f, VFun g => Nat.eqb f g
  | VProxy p, VProxy q => Nat.eqb p q
  | VThisPage, VThisPage => true
  | VDate _, VDate _ | VArr _, VArr _ | VObj _, VObj _ => same_object a b
  | _, _ => false
  end.

(** [[...new Set(l)]]: the first occurrence of every element, in order. *)
Definition unique (l : list Value) : list Value :=
  fold_left (fun seen x => if existsb (SameValueZero x) seen then seen else seen ++ [x]) l [].

(** The own enumerable properties a spread [{...v}] copies.  Those of a
    component proxy are the two of its target, each read through the [get]
    trap, which answers [undefined] for a name of the target. *)
Fixpoint indexed (i : Z) (l : list Value) : Data :=
  match l with
  | [] => []
  | x :: r => (Str.of_Z i, x) :: indexed (i + 1) r
  end.

Fixpoint characters (s : string) : list Value :=
  match s with
  | EmptyString => []
  | String c r => VStr (String c EmptyString) :: characters r
  end.

Definition spread (v : Value) : Data :=
  match v with
  | VObj fields => fields
  | VArr items => indexed 0 items
  | VStr s => indexed 0 (characters s)
  | VProxy _ => [("_components", VUndefined); ("_proxies", VUndefined)]
  | VThisPage => page_properties host
  | _ => []
  end.

(** [d[key]] and [key in d] for a key that the data chooses: the own
    property first, then the inherited member. *)
Definition element (d : Data) (key : string) : Value :=
  match OMap.get d key with
  | Some v => v
  | None => match inherited host key with
            | Some v => v
            | None => VUndefined
            end
  end.

Definition key_in (d : Data) (key : string) : bool :=
  OMap.has d key || match inherited host key with
                    | Some _ => true
                    | None => false
                    end.

(** [Array.isArray(d[key]) ? d[key] : (key in d) ? [d[key]] : []] *)
Definition as_sequence (d : Data) (key : string) : list Value :=
  match element d key with
  | VArr items => items
  | v => if key_in d key then [v] else []
  end.

(** The body of the loop over [Object.entries(mergedKeys)]. *)
Definition merge_key (previous current : Data) (data : Data) (entry : string * Value)
  : Result Data :=
  let '(key, type) := entry in
  match type with
  | VStr t =>
      if String.eqb t "stringArray" || String.eqb t "array" then
        let currentValue := as_sequence current key in
        let previousValue := as_sequence previous key in
        let merged := previousValue ++ currentValue in
        elements <- (if String.eqb t "stringArray"
                     then strings <- mapM to_String merged ;; Ok (map VStr strings)
                     else Ok merged) ;;
        Ok (OMap.set data key (VArr (unique elements)))
      else if String.eqb t "object" then
        let currentValue := element current key in
        let previousValue := element previous key in
        Ok (OMap.set data key (VObj (OMap.assign (spread previousValue) (spread currentValue))))
      else Ok data
  | _ => Ok data
  end.

(** The function given to [reduce]. *)
Definition merge_pair (previous current : Data) : Result Data :=
  let data := OMap.assign previous current in
  let mergedKeys :=
    OMap.assign (spread (prop previous "mergedKeys")) (spread (prop current "mergedKeys")) in
  foldM (merge_key previous current) mergedKeys data.

(** [mergeData(...datas)]: [reduce] without an initial value throws on an
    empty sequence and starts from the first record otherwise. *)
Definition mergeData (datas : list Data) : Result Data :=
  match datas with
  | [] => Err (TypeError "Reduce of empty array with no initial value")
  | first :: rest => foldM merge_pair rest first
  end.

End merge.
End Merge.

(** ** Component registries: [mergeComponents] *)

(** A component descriptor: the render function and the optional generated
    style and script text. *)
Record ComponentDesc : Type := {
  render : Data -> string;
  css : option string;
  js : option string
}.

(** A registry maps a lower-case name to a component or to a nested
    registry. *)
Inductive Component : Type :=
| Leaf (c : ComponentDesc)
| Namespace (m : list (string * Component)).

Definition Components : Type := list (string * Component).

Module Cascade.

(** The function given to [reduce] in [mergeComponents(...components)] is
    [merge_pair]; [merge_entry] is the body of its loop over [current].  The
    call [mergeComponents(value, previousValue)] inside is a [reduce] over
    two registries and so the same function with [value] as [previous] and
    [previousValue] as [current].  The recursion follows neither argument
    alone; [fuel] bounds its depth and [None] means that the bound was
    reached. *)
Definition merge_entry (mergeComponents2 : Components -> Components -> option Components)
  (acc : option Components) (kv : string * Component) : option Components :=
  match acc with
  | None => None
  | Some components =>
      let '(key, value) := kv in
      if OMap.has components key then
        match OMap.get components key, value with
        | Some (Namespace previousValue), Namespace v =>
            match mergeComponents2 v previousValue with
            | Some merged => Some (OMap.set components key (Namespace merged))
            | None => None
            end
        | _, _ => Some (OMap.set components key value)
        end
      else Some (OMap.set components key value)
  end.

Fixpoint merge_pair (fuel : nat) (previous current : Components) : option Components :=
  match fuel with
  | O => None
  | S fuel' => fold_left (merge_entry (merge_pair fuel')) current (Some previous)
  end.

(** The nesting depth of a registry. *)
Fixpoint depth (c : Component) : nat :=
  match c with
  | Leaf _ => O
  | Namespace m =>
      S ((fix depths (l : list (string * Component)) : nat :=
            match l with
            | [] => O
            | (_, v) :: r => Nat.max (depth v) (depths r)
            end) m)
  end.

Definition depth_of (m : Components) : nat := Nat.pred (depth (Namespace m)).

Definition depth_all (l : list Components) : nat :=
  fold_right (fun m d => Nat.max (depth_of m) d) O l.

(** [mergeComponents(...components)]: [reduce] without an initial value.
    The depth of the arguments is fuel enough ([merge_pair_enough] below),
    so the last branch is never taken. *)
Definition mergeComponents (components : list Components) : Result Components :=
  match components with
  | [] => Err (TypeError "Reduce of empty array with no initial value")
  | first :: rest =>
      match fold_left
              (fun (acc : option Components) (current : Components) =>
                 match acc with
                 | Some previous => merge_pair (S (depth_all components)) previous current
                 | None => None
                 end)
              rest (Some first) with
      | Some merged => Ok merged
      | None => Err (PlainError "unreachable")
      end
  end.

(** The earlier revision of the file, second part of [source.ts]:
    [mergeComponents(current, previous = new Map())], where the inner call
    [mergeComponents(value, previousValue)] passes [value] as [current], so
    the recursion follows [current].  [stored_v1 value previousValue] is
    what the loop writes under a key that [components] already has. *)
Fixpoint stored_v1 (value previousValue : Component) {struct value} : Component :=
  match value, previousValue with
  | Namespace v, Namespace pv =>
      Namespace
        ((fix loop (current : list (string * Component)) (components : Components)
            {struct current} : Components :=
            match current with
            | [] => components
            | (key, x) :: rest =>
                loop rest
                  (match OMap.get components key with
                   | Some p => OMap.set components key (stored_v1 x p)
                   | None => OMap.set components key x
                   end)
            end) v pv)
  | _, _ => value
  end.

Definition mergeComponents_v1 (current previous : Components) : Components :=
  fold_left
    (fun (components : Components) (kv : string * Component) =>
       match OMap.get components (fst kv) with
       | Some p => OMap.set components (fst kv) (stored_v1 (snd kv) p)
       | None => OMap.set components (fst kv) (snd kv)
       end)
    current previous.

End Cascade.

(** ** The component proxy: [toProxy] *)

Module Proxy.

(** The target of a proxy: [{ _components, _proxies }].  [_proxies] maps a
    key to the index of the nested proxy made for it; [n_extra] tells
    whether [toProxy] was given the [extraCode] sink. *)
Record Node : Type := {
  n_components : Components;
  n_proxies : list (string * nat);
  n_extra : bool
}.

(** The objects [toProxy] and its handler create and share: the proxy
    nodes, the function objects returned for leaf components (each one
    remembers the component it renders), and the [extraCode] sink, a map
    from [css] or [js] to a map from component key to code. *)
Record Store : Type := {
  nodes : list Node;
  callables : list ComponentDesc;
  extraCode : list (string * list (string * string))
}.

Definition empty_store : Store :=
  {| nodes := []; callables := []; extraCode := [] |}.

Inductive PropertyKey : Type :=
| KString (s : string)
| KSymbol (n : nat).

(** What a property access on a proxy yields: [undefined], a nested proxy
    or a function object, each named by its index in the store. *)
Inductive Accessed : Type :=
| AUndefined
| ANamespace (p : nat)
| ACallable (f : nat).

(** [toProxy(components, extraCode)]: a new node and a new proxy. *)
Definition toProxy (components : Components) (extra : bool) (st : Store) : nat * Store :=
  (length (nodes st),
   {| nodes := nodes st ++ [{| n_components := components; n_proxies := []; n_extra := extra |}];
      callables := callables st;
      extraCode := extraCode st |}).

(** [const code = extraCode.get(type) ?? new Map(); code.set(key, text);
    extraCode.set(type, code)], done when [text] is truthy. *)
Definition save_code (type key : string) (text : option string)
  (sink : list (string * list (string * string))) : list (string * list (string * string)) :=
  match text with
  | Some t =>
      if truthy_string t then
        let code := match OMap.get sink type with
                    | Some code => code
                    | None => []
                    end in
        OMap.set sink type (OMap.set code key t)
      else sink
  | None => sink
  end.

(** [name in target]: the two own properties of the node and the members
    that the node, a plain object, inherits. *)
Definition in_target (host : Host) (name : string) : bool :=
  String.eqb name "_components" || String.eqb name "_proxies"
  || match inherited host name with
     | Some _ => true
     | None => false
     end.

(** The [get] trap of the proxy [p], applied to [name]. *)
Definition get (host : Host) (p : nat) (name : PropertyKey) (st : Store)
  : Result (Accessed * Store) :=
  match nodes st !! p with
  | None => Err (TypeError "not a proxy")
  | Some target =>
      match name with
      | KSymbol _ => Ok (AUndefined, st)
      | KString name =>
          if in_target host name then Ok (AUndefined, st)
          else
            let key := Str.toLowerCase name in
            match OMap.get (n_proxies target) key with
            | Some q => Ok (ANamespace q, st)
            | None =>
                match OMap.get (n_components target) key with
                | None => Err (PlainError ("Component " +:+ Str.quoted name +:+ " not found"))
                | Some (Namespace component) =>
                    let '(q, st1) := toProxy component (n_extra target) st in
                    let target' :=
                      {| n_components := n_components target;
                         n_proxies := OMap.set (n_proxies target) key q;
                         n_extra := n_extra target |} in
                    Ok (ANamespace q,
                        {| nodes := <[p := target']> (nodes st1);
                           callables := callables st1;
                           extraCode := extraCode st1 |})
                | Some (Leaf component) =>
                    let sink :=
                      if n_extra target then
                        save_code "js" key (js component)
                          (save_code "css" key (css component) (extraCode st))
                      else extraCode st in
                    Ok (ACallable (length (callables st)),
                        {| nodes := nodes st;
                           callables := callables st ++ [component];
                           extraCode := sink |})
                end
            end
      end
  end.

(** Calling the function object [f] with [props]. *)
Definition call (f : nat) (props : Data) (st : Store) : option string :=
  match callables st !! f with
  | Some component => Some (render component props)
  | None => None
  end.

End Proxy.

(** ** URL resolution: [getUrl] and [normalizeUrl] *)

(** [string | false] *)
Inductive UrlResult : Type :=
| UrlFalse
| Url (s : string).

Module PageUrl.

(** [typeof v] *)
Definition typeof (v : Value) : string :=
  match v with
  | VUndefined => "undefined"
  | VNull => "object"
  | VBool _ => "boolean"
  | VNum _ => "number"
  | VStr _ => "string"
  | VFun _ => "function"
  | _ => "object"
  end.

(** Remove the /index.html part if exist *)
Definition normalizeUrl (url : string) : string :=
  if Str.endsWith url "/index.html" then Str.slice_to_minus url 10 else url.

Section url.

(** Calling a function value of a data record with a page, and
    [getExtension] of [utils.ts], which is not part of the sources. *)
Variable call_function : nat -> Page -> Result Value.
Variable getExtension : string -> string.

(** Returns the final URL assigned to a page *)
Definition getUrl (page : Page) (prettyUrls : bool) (parentPath : string) : Result UrlResult :=
  let data := page_data page in
  let url := prop data "url" in
  match url with
  | VBool false => Ok UrlFalse
  | _ =>
      url <- match url with
             | VFun f => call_function f page
             | _ => Ok url
             end ;;
      match url with
      | VStr u =>
          if Str.startsWith u "./" || Str.startsWith u "../" then
            Ok (Url (normalizeUrl (Posix.join [parentPath; u])))
          else if Str.startsWith u "/" then
            Ok (Url (normalizeUrl u))
          else
            Err (Exception
                   ("The url variable must start with " +:+ Str.quoted "/" +:+ ", "
                    +:+ Str.quoted "./" +:+ " or " +:+ Str.quoted "../")
                   page url)
      | VUndefined =>
          let url := Posix.join [parentPath; src_slug (page_src page)] in
          let ext := getExtension (src_path (page_src page)) in
          if truthy_string ext then Ok (Url (url +:+ ext))
          else if src_asset (page_src page) then Ok (Url (url +:+ src_ext (page_src page)))
          else if prettyUrls then
            if String.eqb (Posix.basename url) "index"
            then Ok (Url (Posix.join [Posix.dirname url; "/"]))
            else Ok (Url (Posix.join [url; "/"]))
          else Ok (Url (url +:+ ".html"))
      | _ =>
          Err (Exception
                 ("If a url is specified, it should either be a string, or a function which returns a string. The provided url is of type: "
                  +:+ typeof url +:+ ".")
                 page url)
      end
  end.

End url.
End PageUrl.

(** ** The source tree builder: class [Source] *)

Module Source.

(** [string | ((path: string) => string)], the destination of a static
    mapping. *)
Inductive Dest : Type :=
| DestString (s : string)
| DestFunction (f : string -> string).

Record StaticPath : Type := {
  dest : option Dest;
  dirOnly : bool
}.

(** [string | boolean], what [copyRemainingFiles] answers. *)
Inductive StringOrBoolean : Type :=
| SBString (s : string)
| SBBoolean (b : bool).

(** [format.copy]: [boolean | ((path: string) => string)] *)
Inductive CopyRule : Type :=
| CopyFlag (b : bool)
| CopyTo (f : string -> string).

Inductive PageType : Type := page_type | asset_type.

(** [(entry: Entry, page?: Page) => boolean] *)
Definition BuildFilter : Type := Entry -> option Page -> bool.

(** The fields of a [Source] that the walk reads. *)
Record Config : Type := {
  scopedData : gmap string Data;
  scopedPages : gmap string (list Data);
  scopedComponents : gmap string Components;
  prettyUrls : bool;
  components_variable : string;
  components_cssFile : string;
  components_jsFile : string;
  ignored : gset string;
  filters : list (string -> bool);
  staticPaths : gmap string StaticPath;
  copyRemainingFiles : option (string -> StringOrBoolean)
}.

(** What the walk writes: the two collections, the index [this.data] from
    output path to directory data, and the store of the proxies with the
    [extraCode] sink. *)
Record Walk : Type := {
  pages : list Page;
  staticFiles : list StaticFile;
  data : gmap string Data;
  store : Proxy.Store
}.

Definition push_page (w : Walk) (p : Page) : Walk :=
  {| pages := pages w ++ [p]; staticFiles := staticFiles w; data := data w; store := store w |}.

Definition push_static (w : Walk) (l : list StaticFile) : Walk :=
  {| pages := pages w; staticFiles := staticFiles w ++ l; data := data w; store := store w |}.

(** What the body of the loop over the children does with an entry: it is
    done with it, or it descends into the directory. *)
Inductive Step : Type :=
| Done (w : Walk)
| Recurse.

Section configuration.

(** [normalizePath] of [utils/path.ts], which is not part of the sources. *)
Variable normalizePath : string -> string.

Definition strip_trailing_slash (from : string) : string :=
  if Str.endsWith from "/" then Str.slice_to_minus from 1 else from.

Definition addIgnoredPath (c : Config) (path : string) : Config :=
  {| scopedData := scopedData c; scopedPages := scopedPages c;
     scopedComponents := scopedComponents c; prettyUrls := prettyUrls c;
     components_variable := components_variable c;
     components_cssFile := components_cssFile c; components_jsFile := components_jsFile c;
     ignored := {[ normalizePath path ]} ∪ ignored c;
     filters := filters c; staticPaths := staticPaths c;
     copyRemainingFiles := copyRemainingFiles c |}.

Definition addIgnoreFilter (c : Config) (filter : string -> bool) : Config :=
  {| scopedData := scopedData c; scopedPages := scopedPages c;
     scopedComponents := scopedComponents c; prettyUrls := prettyUrls c;
     components_variable := components_variable c;
     components_cssFile := components_cssFile c; components_jsFile := components_jsFile c;
     ignored := ignored c;
     filters := filters c ++ [filter]; staticPaths := staticPaths c;
     copyRemainingFiles := copyRemainingFiles c |}.

Definition addStaticPath (c : Config) (from : string) (to : option Dest) : Config :=
  {| scopedData := scopedData c; scopedPages := scopedPages c;
     scopedComponents := scopedComponents c; prettyUrls := prettyUrls c;
     components_variable := components_variable c;
     components_cssFile := components_cssFile c; components_jsFile := components_jsFile c;
     ignored := ignored c;
     filters := filters c;
     staticPaths :=
       <[ normalizePath (strip_trailing_slash from) :=
            {| dest := match to with
                       | Some (DestString s) => Some (DestString (normalizePath s))
                       | other => other
                       end;
               dirOnly := Str.endsWith from "/" |} ]> (staticPaths c);
     copyRemainingFiles := copyRemainingFiles c |}.

End configuration.

Definition getOutputPath (entry : Entry) (path : string) (dest : option Dest) : string :=
  match dest with
  | Some (DestFunction f) => f (Posix.join [path; entry_name entry])
  | Some (DestString s) => s
  | None => Posix.join [path; entry_name entry]
  end.

(** The tests shared by the walk and by the static-file enumerator: a
    reserved prefix, an ignored path, an ignore filter. *)
Definition reserved_name (entry : Entry) : bool :=
  Str.startsWith (entry_name entry) "." || Str.startsWith (entry_name entry) "_".

Definition is_ignored (c : Config) (entry : Entry) : bool :=
  bool_decide (entry_path entry ∈ ignored c).

Definition is_filtered (c : Config) (entry : Entry) : bool :=
  existsb (fun filter => filter (entry_path entry)) (filters c).

(** Scan the static files in a directory *)
Fixpoint getStaticFiles (c : Config) (dirEntry : Entry) (destPath : string)
  (destFn : option (string -> string)) {struct dirEntry} : list StaticFile :=
  match dirEntry with
  | MkEntry _ _ _ children =>
      (fix each (l : list Entry) : list StaticFile :=
         match l with
         | [] => []
         | entry :: rest =>
             match entry with
             | MkEntry name _ file _ =>
                 if reserved_name entry || is_ignored c entry || is_filtered c entry then []
                 else [{| sf_entry := entry;
                          sf_outputPath :=
                            getOutputPath entry destPath
                              (match destFn with
                               | Some f => Some (DestFunction f)
                               | None => None
                               end) |}]
             | MkEntry name _ directory _ =>
                 getStaticFiles c entry (Posix.join [destPath; name]) destFn
             end ++ each rest
         end) children
  end.

Section walk.

(** The collaborators of the walk, and the helpers that [source.ts] imports
    from modules that are not part of the sources. *)
Variable Loader : Type.

Record Format : Type := {
  ext : string;
  copy : option CopyRule;
  pageType : option PageType;
  loader : option Loader;
  assetLoader : option Loader
}.

Variable dataLoader_load : Entry -> Result Data.
Variable componentLoader_load : Entry -> Data -> Result Components.
Variable formats_search : string -> option Format.
Variable getContent : Entry -> Loader -> Result Data.
Variable mergeData : list Data -> Result Data.
Variable parseDateFromFilename : string -> string * option JSDate.Date.
Variable getPageUrl : Page -> bool -> string -> Result UrlResult.
Variable getPageDate : Page -> Result JSDate.Date.
(** The instant of [new Date()] and the source descriptor of [new Page()]. *)
Variable now : JSDate.Date.
Variable default_src : Src.

Variable c : Config.

(** [date ? { date } : {}] *)
Definition date_record (date : option JSDate.Date) : Data :=
  match date with
  | Some d => [("date", VDate d)]
  | None => []
  end.

(** [map.get(key) || {}] *)
Definition scoped_or_empty (m : gmap string Data) (key : string) : Data :=
  match m !! key with
  | Some d => d
  | None => []
  end.

Definition rejected (buildFilters : list BuildFilter) (entry : Entry) (page : option Page) : bool :=
  existsb (fun filter => negb (filter entry page)) buildFilters.

Definition is_data_entry (entry : Entry) : bool :=
  (is_file entry && Str.startsWith (entry_name entry) "_data.")
  || (is_directory entry && String.eqb (entry_name entry) "_data").

Definition is_components_entry (entry : Entry) : bool :=
  is_directory entry && String.eqb (entry_name entry) "_components".

(** Load the _data files *)
Definition load_data (children : list Entry) (currentData : Data) : Result Data :=
  foldM (fun current entry =>
           if is_data_entry entry then
             loaded <- dataLoader_load entry ;; Ok (OMap.assign current loaded)
           else Ok current)
        children currentData.

(** [posix.join(path, dirData.slug ?? name)]: [posix.join] refuses an
    argument that is not a string. *)
Definition directory_path (path : string) (dirData : Data) (name : string) : Result string :=
  match prop dirData "slug" with
  | VUndefined | VNull => Ok (Posix.join [path; name])
  | VStr slug => Ok (Posix.join [path; slug])
  | _ => Err (TypeError "Path must be a string")
  end.

(** The first part of [#build]: the data and the components of the
    directory.  It answers the output path of the directory, the registry
    and the record handed to what lies below, and the walk with the index
    and the store updated. *)
Definition directory_context (dir : Entry) (path : string)
  (parentComponents : Components) (parentData : Data) (w : Walk)
  : Result (string * Components * Data * Walk) :=
  let '(name, date) := parseDateFromFilename (entry_name dir) in
  currentData <- load_data (entry_children dir) (date_record date) ;;
  dirData <- mergeData [parentData; date_record date;
                        scoped_or_empty (scopedData c) (entry_path dir); currentData] ;;
  path <- directory_path path dirData name ;;
  let dirData := OMap.delete dirData "slug" in
  let scoped := scopedComponents c !! entry_path dir in
  loaded <- match find is_components_entry (entry_children dir) with
            | Some entry => l <- componentLoader_load entry dirData ;; Ok (Some l)
            | None => Ok None
            end ;;
  context <-
    match scoped, loaded with
    | None, None => Ok (parentComponents, dirData, store w)
    | _, _ =>
        merged <- Cascade.mergeComponents
                    [parentComponents;
                     match scoped with Some s => s | None => [] end;
                     match loaded with Some l => l | None => [] end] ;;
        let '(proxy, st) := Proxy.toProxy merged true (store w) in
        Ok (merged, OMap.set dirData (components_variable c) (VProxy proxy), st)
    end ;;
  let '(parentComponents, dirData, st) := context in
  Ok (path, parentComponents, dirData,
      {| pages := pages w; staticFiles := staticFiles w;
         data := <[ path := dirData ]> (data w); store := st |}).

Definition set_data (page : Page) (key : string) (v : Value) : Page :=
  {| page_src := page_src page;
     page_data := OMap.set (page_data page) key v;
     page_layout := page_layout page |}.

(** [page.data.url = url; page.data.date = getPageDate(page);
    page.data.page = page] *)
Definition finish_page (page : Page) (url : string) : Result Page :=
  let page := set_data page "url" (VStr url) in
  date <- getPageDate page ;;
  let page := set_data page "date" (VDate date) in
  Ok (set_data page "page" VThisPage).

(** [!url] for a [string | false] *)
Definition falsy_url (url : UrlResult) : bool :=
  match url with
  | UrlFalse => true
  | Url s => negb (truthy_string s)
  end.

(** Load the pages assigned to the current path *)
Definition scoped_page (path : string) (dirData : Data) (w : Walk) (record : Data)
  : Result Walk :=
  merged <- mergeData [dirData; [("date", VDate now)]; record] ;;
  let page := {| page_src := default_src; page_data := merged; page_layout := VUndefined |} in
  url <- getPageUrl page (prettyUrls c) path ;;
  match url with
  | Url u =>
      if falsy_url url then Ok w
      else page <- finish_page page u ;; Ok (push_page w page)
  | UrlFalse => Ok w
  end.

Definition scoped_pages (dir : Entry) (path : string) (dirData : Data) (w : Walk)
  : Result Walk :=
  match scopedPages c !! entry_path dir with
  | Some records => foldM (scoped_page path dirData) records w
  | None => Ok w
  end.

(** [{ path: entry.path.slice(0, -ext.length), ext, asset,
    slug: slug.slice(0, -ext.length), entry }], the argument of [new Page]. *)
Definition page_source (entry : Entry) (ext : string) (asset : bool) (slug : string) : Src :=
  {| src_path := Str.slice_to_minus (entry_path entry) (String.length ext);
     src_ext := ext;
     src_asset := asset;
     src_slug := Str.slice_to_minus slug (String.length ext);
     src_entry := Some entry |}.

(** The file is a page *)
Definition file_page (buildFilters : list BuildFilter) (entry : Entry) (path : string)
  (dirData : Data) (format : Format) (type : PageType) (w : Walk) : Result Walk :=
  let asset := match type with asset_type => true | page_type => false end in
  match (if asset then assetLoader format else loader format) with
  | None =>
      Err (PlainError ("Missing loader for "
                       +:+ (if asset then "asset" else "page")
                       +:+ " page type (" +:+ entry_path entry +:+ "))"))
  | Some ld =>
      let ext := ext format in
      let '(slug, date) := parseDateFromFilename (entry_name entry) in
      let src := page_source entry ext asset slug in
      pageData <- getContent entry ld ;;
      merged <- mergeData [dirData; date_record date;
                           scoped_or_empty (scopedData c) (entry_path entry); pageData] ;;
      let page := {| page_src := src; page_data := merged; page_layout := VUndefined |} in
      url <- getPageUrl page (prettyUrls c) path ;;
      match url with
      | Url u =>
          if falsy_url url then Ok w
          else
            page <- finish_page page u ;;
            let page := {| page_src := page_src page; page_data := page_data page;
                           page_layout := prop pageData "layout" |} in
            if rejected buildFilters entry (Some page) then Ok w
            else Ok (push_page w page)
      | UrlFalse => Ok w
      end
  end.

Definition truthy_copy (r : option CopyRule) : bool :=
  match r with
  | Some (CopyFlag b) => b
  | Some (CopyTo _) => true
  | None => false
  end.

(** The body of the loop over the children, up to the recursive call. *)
Definition build_entry (buildFilters : list BuildFilter) (entry : Entry) (path : string)
  (dirData : Data) (w : Walk) : Result Step :=
  if rejected buildFilters entry None then Ok (Done w)
  else
    match staticPaths c !! entry_path entry with
    | Some {| dest := dest; dirOnly := dirOnly |} =>
        (* Static files *)
        match entry_type entry with
        | file =>
            if dirOnly then Ok (Done w)
            else Ok (Done (push_static w
                             [{| sf_entry := entry;
                                 sf_outputPath := getOutputPath entry path dest |}]))
        | directory =>
            Ok (Done (push_static w
                        (getStaticFiles c entry
                           (match dest with
                            | Some (DestString s) => s
                            | _ => Posix.join [path; entry_name entry]
                            end)
                           (match dest with
                            | Some (DestFunction f) => Some f
                            | _ => None
                            end))))
        end
    | None =>
        (* Ignore .filename and _filename *)
        if reserved_name entry then Ok (Done w)
        else if is_ignored c entry then Ok (Done w)
        else if is_filtered c entry then Ok (Done w)
        else
          match entry_type entry with
          | file =>
              match formats_search (entry_path entry) with
              | None =>
                  (* Unknown file format: remaining files *)
                  match copyRemainingFiles c with
                  | Some remaining =>
                      match remaining (entry_path entry) with
                      | SBString s =>
                          if truthy_string s then
                            Ok (Done (push_static w
                                        [{| sf_entry := entry;
                                            sf_outputPath :=
                                              getOutputPath entry path (Some (DestString s)) |}]))
                          else Ok (Done w)
                      | SBBoolean true =>
                          Ok (Done (push_static w
                                      [{| sf_entry := entry;
                                          sf_outputPath := getOutputPath entry path None |}]))
                      | SBBoolean false => Ok (Done w)
                      end
                  | None => Ok (Done w)
                  end
              | Some format =>
                  if truthy_copy (copy format) then
                    (* The file is a static file *)
                    Ok (Done (push_static w
                                [{| sf_entry := entry;
                                    sf_outputPath :=
                                      getOutputPath entry path
                                        (match copy format with
                                         | Some (CopyTo f) => Some (DestFunction f)
                                         | _ => None
                                         end) |}]))
                  else
                    match pageType format with
                    | Some type =>
                        w' <- file_page buildFilters entry path dirData format type w ;;
                        Ok (Done w')
                    | None => Ok (Done w)
                    end
              end
          | directory => Ok Recurse
          end
    end.

(** [#build] *)
Fixpoint build_ (buildFilters : list BuildFilter) (dir : Entry) (path : string)
  (parentComponents : Components) (parentData : Data) (w : Walk) {struct dir}
  : Result Walk :=
  if rejected buildFilters dir None then Ok w
  else
    match directory_context dir path parentComponents parentData w with
    | Err e => Err e
    | Ok (path, components, dirData, w) =>
        match scoped_pages dir path dirData w with
        | Err e => Err e
        | Ok w =>
            match dir with
            | MkEntry _ _ _ children =>
                (fix each (l : list Entry) (w : Walk) {struct l} : Result Walk :=
                   match l with
                   | [] => Ok w
                   | entry :: rest =>
                       match build_entry buildFilters entry path dirData w with
                       | Err e => Err e
                       | Ok (Done w) => each rest w
                       | Ok Recurse =>
                           match build_ buildFilters entry path components dirData w with
                           | Err e => Err e
                           | Ok w => each rest w
                           end
                       end
                   end) children w
            end
        end
    end.

(** [build(...buildFilters)], given the entry of the root, [fs.entries.get("/")],
    and the store as the earlier builds left it. *)
Definition build (buildFilters : list BuildFilter) (root : Entry) (st : Proxy.Store)
  (index : gmap string Data) : Result (list Page * list StaticFile * Walk) :=
  w <- build_ buildFilters root "/" [] []
         {| pages := []; staticFiles := []; data := index; store := st |} ;;
  Ok (pages w, staticFiles w, w).

End walk.

Arguments ext {Loader} _.
Arguments copy {Loader} _.
Arguments pageType {Loader} _.
Arguments loader {Loader} _.
Arguments assetLoader {Loader} _.

End Source.

(** ** Vocabulary of the statements *)

(** The keys of a map are pairwise distinct, as they are in every [Map] and
    in every object. *)
Definition distinct_keys {V : Type} (m : list (string * V)) : Prop :=
  List.NoDup (map fst m).

(** C1: the entry of a registry at a path of names, and the registries
    whose keys are pairwise distinct at every depth. *)
Fixpoint find_path (m : Components) (path : list string) : option Component :=
  match path with
  | [] => None
  | k :: rest =>
      match rest with
      | [] => OMap.get m k
      | _ => match OMap.get m k with
             | Some (Namespace sub) => find_path sub rest
             | _ => None
             end
      end
  end.

Fixpoint well_formed (c : Component) : Prop :=
  match c with
  | Leaf _ => True
  | Namespace m =>
      distinct_keys m
      /\ (fix all (l : list (string * Component)) : Prop :=
            match l with
            | [] => True
            | (_, v) :: r => well_formed v /\ all r
            end) m
  end.

(** C2: the [url] of the data of a page is a non-empty string. *)
Definition url_resolved (p : Page) : Prop :=
  exists u, prop (page_data p) "url" = VStr u /\ u <> "".

(** Every page collected so far has its [url]. *)
Definition urls_resolved (w : Source.Walk) : Prop := Forall url_resolved (Source.pages w).

(** X6: a sequence of strings without its repetitions, the first occurrence
    of each string kept in its place. *)
Fixpoint first_seen (l : list string) : list string :=
  match l with
  | [] => []
  | x :: r => x :: List.filter (fun y => negb (String.eqb y x)) (first_seen r)
  end.

(** C7 and C10: the shapes of a date stamp.  [digit_string n s]: [s] is [n]
    decimal digits; a stamp is [YYYY-MM-DD], optionally followed by
    [-hh-mm] and then by [-ss]. *)
Fixpoint all_digits (s : string) : bool :=
  match s with
  | EmptyString => true
  | String c r => Str.is_digit c && all_digits r
  end.

Definition digit_string (n : nat) (s : string) : Prop :=
  String.length s = n /\ all_digits s = true.

Definition is_separator (c : ascii) : bool := Ascii.eqb c "_" || Ascii.eqb c "-".

Fixpoint free_of_line_terminators (s : string) : bool :=
  match s with
  | EmptyString => true
  | String c r => negb (Str.is_line_terminator c) && free_of_line_terminators r
  end.

Inductive Stamp : string -> Prop :=
| stamp_date (y m d : string) :
    digit_string 4 y -> digit_string 2 m -> digit_string 2 d ->
    Stamp (y +:+ "-" +:+ m +:+ "-" +:+ d)
| stamp_minute (y m d h mi : string) :
    digit_string 4 y -> digit_string 2 m -> digit_string 2 d ->
    digit_string 2 h -> digit_string 2 mi ->
    Stamp (y +:+ "-" +:+ m +:+ "-" +:+ d +:+ "-" +:+ h +:+ "-" +:+ mi)
| stamp_second (y m d h mi s : string) :
    digit_string 4 y -> digit_string 2 m -> digit_string 2 d ->
    digit_string 2 h -> digit_string 2 mi -> digit_string 2 s ->
    Stamp (y +:+ "-" +:+ m +:+ "-" +:+ d +:+ "-" +:+ h +:+ "-" +:+ mi +:+ "-" +:+ s).

(** The year [Date.UTC] reads in a numeric year. *)
Definition full_year (y : Z) : Z := if (0 <=? y) && (y <=? 99) then 1900 + y else y.

(** A group of the time is absent or two digits. *)
Definition time_group (g : option string) : Prop :=
  match g with
  | Some d => digit_string 2 d
  | None => True
  end.

(** C8: a path segment is a name of its own: not empty, without a slash,
    and neither [.] nor [..]. *)
Fixpoint has_slash (s : string) : bool :=
  match s with
  | EmptyString => false
  | String c r => Ascii.eqb c Posix.slash || has_slash r
  end.

Definition path_segment (s : string) : Prop :=
  s <> "" /\ s <> "." /\ s <> ".." /\ has_slash s = false.

(** The segments of a list, each followed by a slash, and the path that a
    stack of segments (the last one first) stands for. *)
Fixpoint with_slashes (l : list string) : string :=
  match l with
  | [] => ""
  | x :: r => x +:+ "/" +:+ with_slashes r
  end.

Definition rendered (absolute : bool) (stack : list string) : string :=
  (if absolute then "/" else "") +:+ Str.join "/" (rev stack).

(** The stacks that normalization builds: names of their own on top of the
    [..] that climb above the start of a relative path. *)
Definition own_name (s : string) : Prop := s <> "" /\ s <> "." /\ s <> "..".

Definition normal_stack (allow : bool) (stack : list string) : Prop :=
  exists names k,
    stack = names ++ repeat ".." k /\ Forall own_name names
    /\ (allow = false -> k = O).

(** C9: the [url] values that URL resolution must refuse for [page]: a
    string, declared or returned by the declared function, that starts with
    none of the three prefixes, and a declared value of another type than
    string, function, [false] or [undefined]. *)
Definition unprefixed (u : string) : Prop :=
  Str.startsWith u "/" = false /\ Str.startsWith u "./" = false
  /\ Str.startsWith u "../" = false.

Definition unsupported_type (v : Value) : Prop :=
  match v with
  | VStr _ | VFun _ | VBool false | VUndefined => False
  | _ => True
  end.

Inductive Offending (call_function : nat -> Page -> Result Value) (page : Page)
  : Value -> Prop :=
| offending_string (u : string) :
    prop (page_data page) "url" = VStr u -> unprefixed u ->
    Offending call_function page (VStr u)
| offending_returned (f : nat) (u : string) :
    prop (page_data page) "url" = VFun f -> call_function f page = Ok (VStr u) ->
    unprefixed u ->
    Offending call_function page (VStr u)
| offending_type (v : Value) :
    prop (page_data page) "url" = v -> unsupported_type v ->
    Offending call_function page v.

(** ** A sample site

    A small source tree with concrete collaborators, and a few registries,
    pages and names, on which the statements are tried: a root with a file
    [assets] and a directory [blog], which holds two pages (one of them
    declares [url: false]) and a [_components] directory. *)

Module Sample.

Definition normalizePath (p : string) : string := Posix.join ["/"; p].

Definition post : Entry := MkEntry "post.md" "/blog/post.md" file [].
Definition hidden : Entry := MkEntry "hidden.md" "/blog/hidden.md" file [].
Definition blog_components : Entry := MkEntry "_components" "/blog/_components" directory [].
Definition blog : Entry := MkEntry "blog" "/blog" directory [post; hidden; blog_components].
Definition assets : Entry := MkEntry "assets" "/assets" file [].
Definition root : Entry := MkEntry "" "/" directory [assets; blog].

Definition button : ComponentDesc :=
  {| render := fun _ => "<button></button>"; css := Some "button { }"; js := None |}.

Definition dataLoader_load (e : Entry) : Result Data := Ok [].
Definition componentLoader_load (e : Entry) (d : Data) : Result Components :=
  Ok [("button", Leaf button)].

Definition markdown : Source.Format unit :=
  {| Source.ext := ".md"; Source.copy := None; Source.pageType := Some Source.page_type;
     Source.loader := Some tt; Source.assetLoader := None |}.

Definition formats_search (path : string) : option (Source.Format unit) :=
  if Str.endsWith path ".md" then Some markdown else None.

Definition getContent (e : Entry) (l : unit) : Result Data :=
  if String.eqb (entry_path e) "/blog/hidden.md" then Ok [("url", VBool false)]
  else Ok [("title", VStr (entry_name e))].

(** A host in which a plain object inherits the usual members of
    [Object.prototype], each a function of the host.  The samples hold one
    number beyond the safe integers, 1e21, and no object with a [toString]
    of its own; they print no component proxy and no page and spread no
    page, so [proxy_toString], [page_toString] and [page_properties] are
    not consulted. *)
Definition object_prototype (name : string) : option Value :=
  (fix member (names : list string) (f : nat) : option Value :=
     match names with
     | [] => None
     | n :: rest => if String.eqb n name then Some (VFun f) else member rest (S f)
     end)
    ["constructor"; "hasOwnProperty"; "isPrototypeOf"; "propertyIsEnumerable";
     "toLocaleString"; "toString"; "valueOf";
     "__defineGetter__"; "__defineSetter__"; "__lookupGetter__"; "__lookupSetter__"]
    100%nat.

Definition host : Host :=
  {| inherited := object_prototype;
     number_toString := fun _ => "1e+21";
     object_toString := fun _ => Ok "[object Object]";
     proxy_toString := fun _ => Err (PlainError "not a component");
     page_toString := Ok "[object Object]";
     page_properties := [] |}.

Definition function_toString (f : nat) : string :=
  if Nat.eqb f 100 then "function Object() { [native code] }" else "function () { }".

Definition mergeData : list Data -> Result Data :=
  Merge.mergeData (fun _ => "") function_toString (fun _ _ => false) host.

Definition getUrl : Page -> bool -> string -> Result UrlResult :=
  PageUrl.getUrl (fun _ _ => Ok VUndefined) (fun _ => "").

Definition getPageDate (p : Page) : Result JSDate.Date := Ok (JSDate.Instant 0).

Definition default_src : Src :=
  {| src_path := ""; src_ext := ""; src_asset := false; src_slug := ""; src_entry := None |}.

Definition config (variable : string) : Source.Config :=
  {| Source.scopedData := ∅; Source.scopedPages := ∅; Source.scopedComponents := ∅;
     Source.prettyUrls := true;
     Source.components_variable := variable;
     Source.components_cssFile := "/components.css";
     Source.components_jsFile := "/components.js";
     Source.ignored := ∅; Source.filters := []; Source.staticPaths := ∅;
     Source.copyRemainingFiles := None |}.

Definition empty_walk : Source.Walk :=
  {| Source.pages := []; Source.staticFiles := []; Source.data := ∅;
     Source.store := Proxy.empty_store |}.

(** Two registries that both hold a component [button] in a namespace
    [ui]: the one inherited from the parent directory, and the one loaded
    later in the directory itself. *)
Definition inherited_button : ComponentDesc :=
  {| render := fun _ => "<button class=inherited>"; css := None; js := None |}.
Definition loaded_button : ComponentDesc :=
  {| render := fun _ => "<button class=loaded>"; css := None; js := None |}.
Definition inherited : Components := [("ui", Namespace [("button", Leaf inherited_button)])].
Definition loaded : Components := [("ui", Namespace [("button", Leaf loaded_button)])].

(** The store after [toProxy] on a registry with the one component
    [button], and after a first access to that component. *)
Definition proxy_store : Proxy.Store :=
  snd (Proxy.toProxy [("button", Leaf button)] true Proxy.empty_store).

Definition store_after_access : Proxy.Store :=
  match Proxy.get host 0 (Proxy.KString "Button") proxy_store with
  | Ok (_, st) => st
  | Err _ => proxy_store
  end.

Definition build_entry (c : Source.Config) :=
  Source.build_entry unit formats_search getContent mergeData DateName.parseDate
    getUrl getPageDate c.

Definition build (c : Source.Config) (buildFilters : list Source.BuildFilter) :=
  Source.build unit dataLoader_load componentLoader_load formats_search getContent
    mergeData DateName.parseDate getUrl getPageDate (JSDate.Instant 0) default_src
    c buildFilters root Proxy.empty_store ∅.

(** A page of the file [post.md], one of [index.md], and the page of the
    file [2024-01-01-.md] of a directory [index], whose slug is empty. *)
Definition page_of_slug (slug : string) : Page :=
  {| page_src := {| src_path := "/blog/" +:+ slug; src_ext := ".md"; src_asset := false;
                    src_slug := slug; src_entry := None |};
     page_data := [("title", VStr "A page")];
     page_layout := VUndefined |}.

Definition post_page : Page := page_of_slug "post".
Definition index_page : Page := page_of_slug "index".
Definition unnamed_page : Page :=
  {| page_src := {| src_path := "/index/2024-01-01-"; src_ext := ".md"; src_asset := false;
                    src_slug := ""; src_entry := None |};
     page_data := [("title", VStr "A page")];
     page_layout := VUndefined |}.

(** The line feed, and a name with a line break after its date stamp. *)
Definition LF : string := String (ascii_of_nat 10) EmptyString.
Definition name_with_line_break : string := "2024-03-05-a" +:+ LF +:+ "b".

End Sample.


(** ** The pages with the code of the components: [getComponentsExtraCode] *)

Module ExtraCode.
Section pages.

(** [Page.create] of [file.ts], which is not part of the sources. *)
Variable Page_create : string -> string -> Page.

Definition line_feed : string := String (ascii_of_nat 10) EmptyString.

(** Returns the pages with extra code generated by the components *)
Definition getComponentsExtraCode (c : Source.Config)
  (extraCode : list (string * list (string * string))) : list Page :=
  let files := [("css", Source.components_cssFile c); ("js", Source.components_jsFile c)] in
  fold_left
    (fun (pages : list Page) (file : string * string) =>
       let '(type, path) := file in
       match OMap.get extraCode type with
       | Some code =>
           if negb (Nat.eqb (length code) 0)
           then pages ++ [Page_create path (Str.join line_feed (OMap.values code))]
           else pages
       | None => pages
       end)
    files [].

End pages.
End ExtraCode.

(** ** The date of a page: [getDate] and [getGitDate] *)

Module PageDate.

(** [parseInt(s)] in full, for a text that the program does not control:
    leading white space is skipped, a sign is read, the prefix [0x] selects
    the digits of base 16, and the longest run of digits counts; [None] is
    [NaN]. *)
Definition is_space (c : ascii) : bool :=
  let n := nat_of_ascii c in
  ((9 <=? n) && (n <=? 13) || (n =? 32) || (n =? 160))%nat.

Fixpoint trim_start (s : string) : string :=
  match s with
  | String c s' => if is_space c then trim_start s' else s
  | EmptyString => EmptyString
  end.

Definition hex_val (c : ascii) : option Z :=
  let n := nat_of_ascii c in
  if ((48 <=? n) && (n <=? 57))%nat then Some (Z.of_nat n - 48)
  else if ((65 <=? n) && (n <=? 70))%nat then Some (Z.of_nat n - 55)
  else if ((97 <=? n) && (n <=? 102))%nat then Some (Z.of_nat n - 87)
  else None.

Fixpoint hex_value (s : string) (acc : Z) : Z :=
  match s with
  | String c s' =>
      match hex_val c with
      | Some v => hex_value s' (acc * 16 + v)
      | None => acc
      end
  | EmptyString => acc
  end.

Definition unsigned (s : string) : option Z :=
  match s with
  | String "0" (String x r) =>
      if Ascii.eqb x "x" || Ascii.eqb x "X" then
        match r with
        | String c _ => match hex_val c with
                        | Some _ => Some (hex_value r 0)
                        | None => None
                        end
        | EmptyString => None
        end
      else Some (Num.digits_value s 0)
  | String c _ => if Str.is_digit c then Some (Num.digits_value s 0) else None
  | EmptyString => None
  end.

Definition parseInt (s : string) : option Z :=
  match trim_start s with
  | String "-" r => match unsigned r with Some n => Some (- n) | None => None end
  | String "+" r => unsigned r
  | r => unsigned r
  end.

(** [Deno.FileInfo]: the two times that [getDate] reads are [Date | null]. *)
Record Info : Type := {
  mtime : option JSDate.Date;
  birthtime : option JSDate.Date
}.

(** What [getDate] reads of an entry: [entry.src] and [entry.getInfo()]. *)
Record FileEntry : Type := {
  src : string;
  getInfo : option Info
}.

Inductive GitDateType : Type := created | modified.

Section dates.

(** Running [git] with the given arguments: the exit code and the output
    as [TextDecoder] decodes it, or what [outputSync] throws when the
    program cannot be run.  [parseISO] belongs to the date library, which is
    not part of the sources; [now] is the instant of [new Date()]. *)
Variable run_git : list string -> Result (Z * string).
Variable parseISO : string -> JSDate.Date.
Variable now : JSDate.Date.

(** Returns the result of a git command as Date *)
Definition getGitDate (type : GitDateType) (file : string) : Result (option JSDate.Date) :=
  let args :=
    match type with
    | created => ["log"; "--diff-filter=A"; "--follow"; "-1"; "--format=%at"; "--"; file]
    | modified => ["log"; "-1"; "--format=%at"; "--"; file]
    end in
  output <- run_git args ;;
  let '(code, str) := output in
  if negb (code =? 0) then Ok None
  else
    match parseInt str with
    | Some n =>
        let timestamp := n * 1000 in
        if timestamp =? 0 then Ok None
        else Ok (Some (JSDate.new_Date (JSDate.TimeClip timestamp)))
    | None => Ok None
    end.

(** [a || b || new Date()] for two values that are a [Date] or missing. *)
Definition first_date (a b : option JSDate.Date) : JSDate.Date :=
  match a, b with
  | Some d, _ => d
  | None, Some d => d
  | None, None => now
  end.

(** Returns the Date instance of a file *)
Definition getDate (date : Value) (entry : option FileEntry) : Result JSDate.Date :=
  match date with
  | VDate d => Ok d
  | VNum n => Ok (JSDate.new_Date (JSDate.TimeClip n))
  | _ =>
      let info := match entry with
                  | Some e => getInfo e
                  | None => None
                  end in
      match date with
      | VStr text =>
          let parse :=
            match parseISO text with
            | JSDate.Instant ms => Ok (JSDate.Instant ms)
            | JSDate.InvalidDate =>
                Err (PlainError ("Invalid date: " +:+ text +:+ " ("
                                 +:+ match entry with
                                     | Some e => src e
                                     | None => "undefined"
                                     end +:+ ")"))
            end in
          match entry, info with
          | Some e, Some i =>
              let keyword := Str.toLowerCase text in
              if String.eqb keyword "git last modified"
              then committed <- getGitDate modified (src e) ;;
                   Ok (first_date committed (mtime i))
              else if String.eqb keyword "git created"
              then committed <- getGitDate created (src e) ;;
                   Ok (first_date committed (birthtime i))
              else parse
          | _, _ => parse
          end
      | _ =>
          Ok (first_date (match info with Some i => birthtime i | None => None end)
                         (match info with Some i => mtime i | None => None end))
      end
  end.

End dates.
End PageDate.

(** ** The bundler plugin ([src/plugins/bundler.ts]): its helpers *)

Module Bundler.

(** [s.slice(n)] *)
Fixpoint slice_from (n : nat) (s : string) : string :=
  match n, s with
  | S n', String _ s' => slice_from n' s'
  | _, _ => s
  end.

(** [getFileSpecifier(file)]; [imports] lists the properties of the object
    in the order in which [for ... in] visits them. *)
Fixpoint getFileSpecifier (imports : list (string * string)) (file : string)
  : Result string :=
  match imports with
  | [] => Err (PlainError ("Invalid specifier " +:+ file))
  | (key, target) :: rest =>
      if Str.startsWith file key
      then Ok (target +:+ slice_from (String.length key) file)
      else getFileSpecifier rest file
  end.

(** The letters of the pattern are read without regard to case (flag [i]);
    the second group is a double or a single quote. *)
Definition letter (lower c : ascii) : bool := Ascii.eqb (Str.lower_ascii c) lower.

Definition is_quote (c : ascii) : bool :=
  Ascii.eqb c (ascii_of_nat 34) || Ascii.eqb c "'".

(** Replace all .ts, .tsx and .jsx files with .js files: the pattern is a
    dot, one of [ts], [tsx], [jsx] (tried in this order) and a quote; the
    text is scanned from the left, a match is replaced by [.js] and its
    quote and the scan goes on behind it. *)
Fixpoint fixExtensions (content : string) : string :=
  match content with
  | EmptyString => EmptyString
  | String c rest =>
      let keep := String c (fixExtensions rest) in
      if Ascii.eqb c "." then
        match rest with
        | String a (String b (String q r)) =>
            if letter "t" a && letter "s" b && is_quote q
            then ".js" +:+ String q (fixExtensions r)
            else if (letter "t" a || letter "j" a) && letter "s" b && letter "x" q
            then match r with
                 | String q' r' =>
                     if is_quote q' then ".js" +:+ String q' (fixExtensions r') else keep
                 | EmptyString => keep
                 end
            else keep
        | _ => keep
        end
      else keep
  end.

End Bundler.

(** ** Further vocabulary *)

(** The strategies that [mergeData] knows, and the table of strategies of
    one step of the cascade:
    [{ ...previous.mergedKeys, ...current.mergedKeys }]. *)
Definition merge_strategy (t : Value) : bool :=
  match t with
  | VStr s => String.eqb s "stringArray" || String.eqb s "array" || String.eqb s "object"
  | _ => false
  end.

Definition strategies (host : Host) (previous current : Data) : Data :=
  OMap.assign (Merge.spread host (prop previous "mergedKeys"))
              (Merge.spread host (prop current "mergedKeys")).

(** The value a later record lays over an earlier one. *)
Definition overlay {V : Type} (later earlier : option V) : option V :=
  match later with
  | Some v => Some v
  | None => earlier
  end.

(** The value that a record has under a key, its own or else the one it
    inherits, and the elements that such a value contributes to a merged
    sequence: those of an array, the value itself when it is no array, and
    none when the record has no value under the key. *)
Definition member (host : Host) (d : Data) (key : string) : option Value :=
  overlay (OMap.get d key) (inherited host key).

Definition contributed (v : option Value) : list Value :=
  match v with
  | Some (VArr items) => items
  | Some x => [x]
  | None => []
  end.

(** The text of a plain value: a string is its own text, a safe integer
    prints its decimal digits, and [true], [false], [null] and [undefined]
    print their names.  [texts_of] is the texts of a sequence of plain
    values. *)
Definition text_of (v : Value) : option string :=
  match v with
  | VStr s => Some s
  | VNum n => if Z.abs n <=? 9007199254740992 then Some (Str.of_Z n) else None
  | VBool true => Some "true"
  | VBool false => Some "false"
  | VNull => Some "null"
  | VUndefined => Some "undefined"
  | _ => None
  end.

Fixpoint texts_of (l : list Value) : option (list string) :=
  match l with
  | [] => Some []
  | v :: r =>
      match text_of v, texts_of r with
      | Some s, Some ss => Some (s :: ss)
      | _, _ => None
      end
  end.

(** The time of day of a stamp and its fields: no time, hours and minutes,
    or hours, minutes and seconds, each of two digits behind a hyphen; a
    field that the stamp does not have is the empty string. *)
Inductive time_stamp : string -> string -> string -> string -> Prop :=
| time_absent : time_stamp "" "" "" ""
| time_minutes (h mi : string) :
    digit_string 2 h -> digit_string 2 mi ->
    time_stamp ("-" +:+ h +:+ "-" +:+ mi) h mi ""
| time_seconds (h mi s : string) :
    digit_string 2 h -> digit_string 2 mi -> digit_string 2 s ->
    time_stamp ("-" +:+ h +:+ "-" +:+ mi +:+ "-" +:+ s) h mi s.

(** The properties that a value brings into a shallow merge: the fields of
    an object, the elements of an array and the characters of a string under
    their indices, the two names of the node of a component proxy, each
    [undefined], the properties of a page, and none for an absent value and
    for every other value. *)
Definition numbered (l : list Value) : Data :=
  combine (map (fun i => Str.of_Z (Z.of_nat i)) (seq 0 (length l))) l.

Definition copied (host : Host) (v : option Value) : Data :=
  match v with
  | Some (VObj fields) => fields
  | Some (VArr items) => numbered items
  | Some (VStr s) => numbered (map (fun c => VStr (String c EmptyString)) (list_ascii_of_string s))
  | Some (VProxy _) => [("_components", VUndefined); ("_proxies", VUndefined)]
  | Some VThisPage => page_properties host
  | _ => []
  end.

(** A name that the node of a proxy neither has nor inherits: the proxy
    looks it up as a component. *)
Definition component_name (host : Host) (name : string) : Prop :=
  name <> "_components" /\ name <> "_proxies" /\ inherited host name = None.

(** The memo tables of the proxies agree with their registries: a nested
    proxy kept under a key stands for the namespace that the registry has
    under the key, and writes to the sink when its parent does. *)
Definition store_ok (st : Proxy.Store) : Prop :=
  forall p target key q,
    Proxy.nodes st !! p = Some target ->
    OMap.get (Proxy.n_proxies target) key = Some q ->
    exists m node,
      OMap.get (Proxy.n_components target) key = Some (Namespace m)
      /\ Proxy.nodes st !! q = Some node
      /\ Proxy.n_components node = m
      /\ Proxy.n_extra node = Proxy.n_extra target.

(** [extraCode.get(type)?.get(key)] *)
Definition recorded (sink : list (string * list (string * string))) (type key : string)
  : option string :=
  match OMap.get sink type with
  | Some code => OMap.get code key
  | None => None
  end.

(** [e] lies in the tree below [dir] and is reached through directories. *)
Inductive below : Entry -> Entry -> Prop :=
| below_child (dir e : Entry) : In e (entry_children dir) -> below dir e
| below_deeper (dir d e : Entry) :
    In d (entry_children dir) -> is_directory d = true -> below d e -> below dir e.

(** A file that neither its name, nor the ignored paths, nor the ignore
    filters exclude. *)
Definition copyable (c : Source.Config) (e : Entry) : Prop :=
  is_file e = true /\ Source.reserved_name e = false
  /\ Source.is_ignored c e = false /\ Source.is_filtered c e = false.

(** Where a collected page comes from: it is a page assigned to a path,
    with the source descriptor of [new Page()], or the page of a file that
    nothing excludes and that every build filter accepts, alone and with
    the page. *)
Definition page_origin (c : Source.Config) (buildFilters : list Source.BuildFilter)
  (default_src : Src) (p : Page) : Prop :=
  page_src p = default_src
  \/ exists e,
      src_entry (page_src p) = Some e
      /\ copyable c e
      /\ Source.staticPaths c !! entry_path e = None
      /\ Source.rejected buildFilters e None = false
      /\ Source.rejected buildFilters e (Some p) = false.

(** The walk [w'] continues the walk [w]: what [w] has collected is still
    there, in its place, and what came after it satisfies [P] (pages) and
    [Q] (static files); no path has left the index of the directory data. *)
Definition continues (P : Page -> Prop) (Q : StaticFile -> Prop) (w w' : Source.Walk)
  : Prop :=
  exists ps sfs,
    Source.pages w' = Source.pages w ++ ps
    /\ Source.staticFiles w' = Source.staticFiles w ++ sfs
    /\ Forall P ps /\ Forall Q sfs
    /\ forall path, is_Some (Source.data w !! path) -> is_Some (Source.data w' !! path).

(** A name that starts with a date: [YYYY-MM-DD], a separator, the rest. *)
Definition dated (name y m d : string) (sep : ascii) (rest : string) : Prop :=
  digit_string 4 y /\ digit_string 2 m /\ digit_string 2 d /\ is_separator sep = true
  /\ name = y +:+ "-" +:+ m +:+ "-" +:+ d +:+ String sep rest.

(** The day number of a date, as [Date.UTC] computes it from the digits of
    the fields, and the time within a day; a field of the time that is
    absent, the empty string, counts as zero. *)
Definition day_of (y m d : string) : Z :=
  JSDate.MakeDay (full_year (Num.digits_value y 0)) (Num.digits_value m 0 - 1)
    (Num.digits_value d 0).

Definition time_of (h mi s : string) : Z :=
  JSDate.MakeTime (Num.digits_value h 0) (Num.digits_value mi 0) (Num.digits_value s 0) 0.


(** ** Further sample values *)

Module Site.

(** A registry with a component at the top and one in the namespace [ui],
    and the store with its proxy. *)
Definition card : ComponentDesc :=
  {| render := fun _ => "<div class=card>"; css := Some ".card { }"; js := Some "card()" |}.

Definition registry : Components :=
  [("button", Leaf Sample.button); ("ui", Namespace [("card", Leaf card)])].

Definition store : Proxy.Store := snd (Proxy.toProxy registry true Proxy.empty_store).

(** A registry whose keys have a capital of Latin-1 and an inherited name,
    and the store with its proxy. *)
Definition e_acute : string := String (ascii_of_nat 233) EmptyString.
Definition E_acute : string := String (ascii_of_nat 201) EmptyString.

Definition latin_registry : Components :=
  [(e_acute, Leaf card); ("tostring", Leaf card)].

Definition latin_store : Proxy.Store :=
  snd (Proxy.toProxy latin_registry true Proxy.empty_store).

(** The store as an access leaves it. *)
Definition after (p : nat) (name : string) (st : Proxy.Store) : Proxy.Store :=
  match Proxy.get Sample.host p (Proxy.KString name) st with
  | Ok (_, st') => st'
  | Err _ => st
  end.

(** A directory copied as it is: a file, a file with a reserved name, and
    a directory with a reserved name that holds a file. *)
Definition logo : Entry := MkEntry "logo.png" "/static/logo.png" file [].
Definition notes : Entry := MkEntry "notes.txt" "/static/_private/notes.txt" file [].
Definition static : Entry :=
  MkEntry "static" "/static" directory
    [logo; MkEntry ".DS_Store" "/static/.DS_Store" file [];
     MkEntry "_private" "/static/_private" directory [notes]].

(** The walk of the sample site. *)
Definition build_ (c : Source.Config) (buildFilters : list Source.BuildFilter) :=
  Source.build_ unit Sample.dataLoader_load Sample.componentLoader_load
    Sample.formats_search Sample.getContent Sample.mergeData DateName.parseDate
    Sample.getUrl Sample.getPageDate (JSDate.Instant 0) Sample.default_src c buildFilters.

(** A file with a reserved name at the root of the site. *)
Definition headers : Entry := MkEntry "_headers" "/_headers" file [].

(** A site whose directory [blog] declares its slug in a [_data] file, has
    components and holds a sub-directory, with the loader of its data. *)
Definition blog_data : Entry := MkEntry "_data.yml" "/blog/_data.yml" file [].
Definition archive : Entry := MkEntry "archive" "/blog/archive" directory [].
Definition journal : Entry :=
  MkEntry "blog" "/blog" directory [blog_data; Sample.blog_components; archive].
Definition journal_root : Entry := MkEntry "" "/" directory [journal].

Definition dataLoader_load (e : Entry) : Result Data :=
  if String.eqb (entry_name e) "_data.yml" then Ok [("slug", VStr "journal")] else Ok [].

Definition directory_context (c : Source.Config) :=
  Source.directory_context dataLoader_load Sample.componentLoader_load Sample.mergeData
    DateName.parseDate c.

Definition journal_build (c : Source.Config) :=
  Source.build unit dataLoader_load Sample.componentLoader_load Sample.formats_search
    Sample.getContent Sample.mergeData DateName.parseDate Sample.getUrl
    Sample.getPageDate (JSDate.Instant 0) Sample.default_src c [] journal_root
    Proxy.empty_store ∅.

(** Records for the merge: one that declares strategies and holds a scalar
    and a proxy, one that follows it, and what the two merge to; and one
    that declares a strategy for a key that neither it nor the record that
    follows has. *)
Definition declaring : Data :=
  [("mergedKeys", VObj [("tags", VStr "stringArray"); ("ids", VStr "array");
                        ("comp", VStr "object")]);
   ("tags", VStr "a"); ("ids", VNum 7); ("comp", VProxy 0)].

Definition following : Data :=
  [("tags", VArr [VNum 1; VStr "a"; VBool true; VNull]);
   ("ids", VArr [VNum 1; VStr "1"; VNum 1]);
   ("comp", VObj [("button", VFun 7)])].

Definition merged : Data :=
  [("mergedKeys", VObj [("tags", VStr "stringArray"); ("ids", VStr "array");
                        ("comp", VStr "object")]);
   ("tags", VArr [VStr "a"; VStr "1"; VStr "true"; VStr "null"]);
   ("ids", VArr [VNum 7; VNum 1; VStr "1"]);
   ("comp", VObj [("_components", VUndefined); ("_proxies", VUndefined);
                  ("button", VFun 7)])].

Definition titled : Data :=
  [("mergedKeys", VObj [("constructor", VStr "stringArray")]); ("title", VStr "a")].

Definition retitled : Data := [("title", VStr "b")].

End Site.
(** * Properties *)

(** ** Sanity checks of the platform model *)

Example parseDate_hello :
  DateName.parseDate "2024-03-05-hello" = ("hello", Some (JSDate.Instant 1709596800000)).
Proof. vm_compute. reflexivity. Qed.
Example posix_join_blog : Posix.join ["/blog/"; "post"] = "/blog/post".
Proof. vm_compute. reflexivity. Qed.
Example posix_join_up : Posix.join ["/blog/a"; "../x/./y/"] = "/blog/x/y/".
Proof. vm_compute. reflexivity. Qed.
Example posix_join_rel : Posix.join ["a"; "../../x"] = "../x".
Proof. vm_compute. reflexivity. Qed.
Example posix_dirname1 : Posix.dirname "/blog/index" = "/blog".
Proof. vm_compute. reflexivity. Qed.
Example posix_dirname2 : Posix.dirname "/index" = "/".
Proof. vm_compute. reflexivity. Qed.
Example posix_dirname3 : Posix.dirname "index" = ".".
Proof. vm_compute. reflexivity. Qed.
Example posix_dirname4 : Posix.dirname "a//b/" = "a/".
Proof. vm_compute. reflexivity. Qed.
Example posix_dirname5 : Posix.dirname "//b" = "//".
Proof. vm_compute. reflexivity. Qed.
Example posix_basename1 : Posix.basename "/blog/index/" = "index".
Proof. vm_compute. reflexivity. Qed.

Example of_Z_digits :
  Str.of_Z 0 = "0" /\ Str.of_Z 1024 = "1024" /\ Str.of_Z (-70) = "-70"
  /\ Str.of_Z 9007199254740992 = "9007199254740992".
Proof. repeat split; vm_compute; reflexivity. Qed.

Example to_String_numbers :
  Merge.to_String (fun _ => "") Sample.function_toString Sample.host (VNum 42) = Ok "42"
  /\ Merge.to_String (fun _ => "") Sample.function_toString Sample.host (VNum (10 ^ 21))
     = Ok "1e+21".
Proof. split; vm_compute; reflexivity. Qed.

Example mergeData_tags :
  Sample.mergeData
    [ [("mergedKeys", VObj [("tags", VStr "stringArray")]); ("tags", VArr [VStr "a"; VStr "b"])];
      [("tags", VArr [VStr "b"; VStr "c"])] ]
  = Ok [("mergedKeys", VObj [("tags", VStr "stringArray")]);
        ("tags", VArr [VStr "a"; VStr "b"; VStr "c"])].
Proof. vm_compute. reflexivity. Qed.

(** ** Insertion-ordered maps *)

Section omap_facts.
Context {V : Type}.
Implicit Types (m : list (string * V)) (k : string) (v : V).

Lemma get_set_same m k v : OMap.get (OMap.set m k v) k = Some v.
Proof.
  induction m as [|[k' v'] m IH]; simpl.
  - now rewrite String.eqb_refl.
  - destruct (String.eqb k' k) eqn:E; simpl.
    + now rewrite String.eqb_refl.
    + now rewrite E.
Qed.

Lemma get_set_other m k k' v : k <> k' -> OMap.get (OMap.set m k v) k' = OMap.get m k'.
Proof.
  intros Hne. induction m as [|[k0 v0] m IH]; simpl.
  - apply String.eqb_neq in Hne. now rewrite Hne.
  - destruct (String.eqb k0 k) eqn:E; simpl.
    + apply String.eqb_eq in E. subst k0.
      apply String.eqb_neq in Hne. now rewrite Hne.
    + now rewrite IH.
Qed.

Lemma get_delete_same m k : OMap.get (OMap.delete m k) k = None.
Proof.
  unfold OMap.delete. induction m as [|[k0 v0] m IH]; simpl; [reflexivity|].
  destruct (String.eqb k0 k) eqn:E; simpl; [assumption|].
  now rewrite E.
Qed.

Lemma set_get_id m k v : OMap.get m k = Some v -> OMap.set m k v = m.
Proof.
  induction m as [|[k0 v0] m IH]; simpl; [discriminate|].
  destruct (String.eqb k0 k) eqn:E.
  - apply String.eqb_eq in E. intros [= Hv]. congruence.
  - intros H. now rewrite IH.
Qed.

Lemma keys_set m k v :
  map fst (OMap.set m k v) = map fst m \/ map fst (OMap.set m k v) = map fst m ++ [k].
Proof.
  induction m as [|[k0 v0] m IH]; simpl; [now right|].
  destruct (String.eqb k0 k) eqn:E; simpl.
  - apply String.eqb_eq in E. subst. now left.
  - destruct IH as [-> | ->]; [now left | now right].
Qed.

Lemma in_keys_get m k : In k (map fst m) <-> OMap.get m k <> None.
Proof.
  induction m as [|[k0 v0] m IH]; simpl; [intuition congruence|].
  destruct (String.eqb k0 k) eqn:E.
  - apply String.eqb_eq in E. split; [discriminate | auto].
  - apply String.eqb_neq in E. rewrite <- IH. intuition congruence.
Qed.

Lemma distinct_keys_set m k v : distinct_keys m -> distinct_keys (OMap.set m k v).
Proof.
  unfold distinct_keys. induction m as [|[k0 v0] m IH]; simpl; intros Hnd.
  - constructor; [intros [] | constructor].
  - destruct (String.eqb k0 k) eqn:E; simpl.
    + apply String.eqb_eq in E. now subst.
    + inversion Hnd as [|? ? Hnotin Hnd']; subst. constructor; [|now apply IH].
      intros Hin. apply String.eqb_neq in E.
      destruct (keys_set m k v) as [Hk | Hk]; rewrite Hk in Hin; [tauto|].
      apply in_app_or in Hin. destruct Hin as [Hin | [-> | []]]; tauto.
Qed.

Lemma distinct_keys_assign m m' : distinct_keys m -> distinct_keys (OMap.assign m m').
Proof.
  unfold OMap.assign. revert m. induction m' as [|[k v] m' IH]; simpl; intros m Hm.
  - assumption.
  - apply IH. now apply distinct_keys_set.
Qed.

End omap_facts.

(** ** URL resolution *)

Section url_facts.
Variable call_function : nat -> Page -> Result Value.
Variable getExtension : string -> string.

(** C9.  URL resolution fails with an exception that carries the page and
    the offending value when the declared [url], or the string returned by
    the declared [url] function, starts with none of [/], [./] and [../],
    and when the declared [url] is neither a string, a function, [false]
    nor absent. *)
Theorem getUrl_refuses_offending_url (page : Page) (prettyUrls : bool) (parentPath : string)
  (v : Value) :
  Offending call_function page v ->
  exists msg, PageUrl.getUrl call_function getExtension page prettyUrls parentPath
              = Err (Exception msg page v).
Proof.
  intros [u Hurl (Ha & Hr & Hp) | f u Hurl Hcall (Ha & Hr & Hp) | w Hurl Hty];
    unfold PageUrl.getUrl; rewrite Hurl; simpl.
  - rewrite Hr, Hp, Ha. simpl. eauto.
  - rewrite Hcall. simpl. rewrite Hr, Hp, Ha. simpl. eauto.
  - destruct w as [| |[|]| | | | | | | |]; simpl in Hty; try contradiction; simpl; eauto.
Qed.

End url_facts.

Lemma getUrl_refuses_offending_url_witness :
  exists msg,
    PageUrl.getUrl (fun _ _ => Ok VUndefined) (fun _ => "")
      {| page_src := {| src_path := "/blog/post"; src_ext := ".md"; src_asset := false;
                        src_slug := "post"; src_entry := None |};
         page_data := [("url", VStr "other")];
         page_layout := VUndefined |}
      true "/blog/"
    = Err (Exception msg
             {| page_src := {| src_path := "/blog/post"; src_ext := ".md"; src_asset := false;
                               src_slug := "post"; src_entry := None |};
                page_data := [("url", VStr "other")];
                page_layout := VUndefined |}
             (VStr "other")).
Proof.
  apply (getUrl_refuses_offending_url (fun _ _ => Ok VUndefined) (fun _ => "")).
  apply offending_string; [reflexivity | repeat split; reflexivity].
Defined.

(** ** The merge of data records *)

Lemma bind_Ok {A B : Type} (r : Result A) (k : A -> Result B) (b : B) :
  bind r k = Ok b -> exists a, r = Ok a /\ k a = Ok b.
Proof. destruct r as [a|e]; simpl; [eauto | discriminate]. Qed.

Lemma get_In_distinct {V : Type} (m : list (string * V)) k v :
  distinct_keys m -> OMap.get m k = Some v -> In (k, v) m.
Proof.
  induction m as [|[k0 v0] m IH]; simpl; [discriminate|].
  intros Hnd. destruct (String.eqb k0 k) eqn:E.
  - apply String.eqb_eq in E. intros [= ->]. subst. now left.
  - intros H. right. apply IH; [|assumption]. now inversion Hnd.
Qed.

Lemma filter_filter_ext {A : Type} (p q r : A -> bool) (l : list A) :
  (forall x, r x = p x && q x) ->
  List.filter p (List.filter q l) = List.filter r l.
Proof.
  intros Hr. induction l as [|x l IH]; simpl; [reflexivity|].
  rewrite Hr. destruct (q x); simpl.
  - destruct (p x); simpl; now rewrite IH.
  - rewrite andb_false_r. assumption.
Qed.

Section merge_facts.
Variable date_toString : JSDate.Date -> string.
Variable function_toString : nat -> string.
Variable same_object : Value -> Value -> bool.
Variable host : Host.

Abbreviation unique := (Merge.unique same_object).
Abbreviation to_String := (Merge.to_String date_toString function_toString host).
Abbreviation merge_key :=
  (Merge.merge_key date_toString function_toString same_object host).

Lemma existsb_SameValueZero_strings (x : string) (seen : list string) :
  existsb (Merge.SameValueZero same_object (VStr x)) (map VStr seen)
  = existsb (String.eqb x) seen.
Proof. induction seen as [|y seen IH]; simpl; [reflexivity | now rewrite IH]. Qed.

(** The [Set] of the code keeps what [first_seen] keeps. *)
Lemma unique_from_seen (l seen : list string) :
  fold_left (fun acc x => if existsb (Merge.SameValueZero same_object x) acc
                          then acc else acc ++ [x])
            (map VStr l) (map VStr seen)
  = map VStr (seen ++ List.filter (fun y => negb (existsb (String.eqb y) seen)) (first_seen l)).
Proof.
  revert seen. induction l as [|x l IH]; intros seen; simpl.
  - now rewrite app_nil_r.
  - rewrite existsb_SameValueZero_strings.
    destruct (existsb (String.eqb x) seen) eqn:E; simpl.
    + rewrite IH. do 2 f_equal. symmetry. apply filter_filter_ext.
      intros y. destruct (String.eqb y x) eqn:Eyx; simpl.
      * apply String.eqb_eq in Eyx. subst y. rewrite E. reflexivity.
      * now rewrite andb_true_r.
    + change (map VStr seen ++ [VStr x]) with (map VStr seen ++ map VStr [x]).
      rewrite <- map_app, IH, <- app_assoc. simpl. do 3 f_equal.
      symmetry. apply filter_filter_ext.
      intros y. rewrite existsb_app. simpl. rewrite orb_false_r, negb_orb. reflexivity.
Qed.

Lemma unique_strings (l : list string) : unique (map VStr l) = map VStr (first_seen l).
Proof.
  unfold Merge.unique. change (@nil Value) with (map VStr []).
  rewrite unique_from_seen. simpl. f_equal.
  induction (first_seen l) as [|y r IH]; simpl; [reflexivity | now rewrite IH].
Qed.

Lemma merge_key_other previous current d d' k k' t :
  merge_key previous current d (k', t) = Ok d' -> k' <> k ->
  OMap.get d' k = OMap.get d k.
Proof.
  unfold Merge.merge_key. intros H Hne.
  destruct t; try (injection H as <-; reflexivity).
  destruct (String.eqb s "stringArray" || String.eqb s "array").
  - apply bind_Ok in H as (els & _ & H). injection H as <-. now apply get_set_other.
  - destruct (String.eqb s "object"); injection H as <-;
      [now apply get_set_other | reflexivity].
Qed.

Lemma foldM_merge_key_other previous current L k :
  ~ In k (map fst L) ->
  forall d d', foldM (merge_key previous current) L d = Ok d' ->
  OMap.get d' k = OMap.get d k.
Proof.
  induction L as [|[k' t] L IH]; simpl; intros Hnotin d d' H.
  - now injection H as <-.
  - apply bind_Ok in H as (d1 & H1 & H2).
    rewrite (IH ltac:(tauto) _ _ H2).
    eapply merge_key_other; [eassumption | tauto].
Qed.

Lemma foldM_merge_key_stringArray previous current L k :
  List.NoDup (map fst L) -> In (k, VStr "stringArray") L ->
  forall d d', foldM (merge_key previous current) L d = Ok d' ->
  exists strings,
    mapM to_String (Merge.as_sequence host previous k ++ Merge.as_sequence host current k)
    = Ok strings
    /\ OMap.get d' k = Some (VArr (unique (map VStr strings))).
Proof.
  induction L as [|[k' t] L IH]; simpl; intros Hnd Hin d d' H; [contradiction|].
  inversion Hnd as [|? ? Hnotin Hnd']; subst.
  apply bind_Ok in H as (d1 & H1 & H2).
  destruct Hin as [[= -> ->] | Hin].
  - rewrite (foldM_merge_key_other _ _ _ _ Hnotin _ _ H2).
    unfold Merge.merge_key in H1. simpl in H1.
    apply bind_Ok in H1 as (els & Hels & H1). injection H1 as <-.
    apply bind_Ok in Hels as (strings & Hs & Hels). injection Hels as <-.
    exists strings. split; [assumption | apply get_set_same].
  - now apply (IH Hnd' Hin d1 d').
Qed.

End merge_facts.

(** C5.  An absent key is not always an empty sequence.  The record
    [titled] declares [constructor] as [stringArray]; neither it nor the
    record [retitled] has that key, but both inherit a member under it, for
    which the test [key in record] holds, so the merged record holds the
    text of the inherited function where it should hold no element. *)
Theorem mergeData_stringArray_inherited_key :
  OMap.has Site.titled "constructor" = false
  /\ OMap.has Site.retitled "constructor" = false
  /\ OMap.get (Merge.spread Sample.host (prop Site.titled "mergedKeys")) "constructor"
     = Some (VStr "stringArray")
  /\ exists data,
      Sample.mergeData [Site.titled; Site.retitled] = Ok data
      /\ OMap.get data "constructor"
         = Some (VArr [VStr "function Object() { [native code] }"])
      /\ OMap.get data "constructor" <> Some (VArr []).
Proof.
  repeat (split; [reflexivity|]).
  eexists. split; [vm_compute; reflexivity|]. split; [reflexivity | discriminate].
Qed.

(** ** The walk: static mappings *)

Section static_facts.
Variable normalizePath : string -> string.
Variable Loader : Type.
Variable formats_search : string -> option (Source.Format Loader).
Variable getContent : Entry -> Loader -> Result Data.
Variable mergeData : list Data -> Result Data.
Variable parseDateFromFilename : string -> string * option JSDate.Date.
Variable getPageUrl : Page -> bool -> string -> Result UrlResult.
Variable getPageDate : Page -> Result JSDate.Date.

Abbreviation build_entry :=
  (Source.build_entry Loader formats_search getContent mergeData parseDateFromFilename
     getPageUrl getPageDate).

Lemma addStaticPath_lookup (c : Source.Config) (from : string) (to : option Source.Dest) :
  exists d,
    Source.staticPaths (Source.addStaticPath normalizePath c from to)
      !! normalizePath (Source.strip_trailing_slash from)
    = Some {| Source.dest := d; Source.dirOnly := Str.endsWith from "/" |}.
Proof. eexists. simpl. apply lookup_insert_eq. Qed.

(** C4.  After [addStaticPath(from)] with [from] ending in a slash, the
    loop of [#build] leaves a file whose path is the source of the mapping
    out of both collections, and expands a directory at that path with the
    static-file enumerator. *)
Theorem dirOnly_mapping_skips_file (c : Source.Config) (from : string)
  (to : option Source.Dest) (buildFilters : list Source.BuildFilter) (entry : Entry)
  (path : string) (dirData : Data) (w : Source.Walk) :
  Str.endsWith from "/" = true ->
  entry_path entry = normalizePath (Source.strip_trailing_slash from) ->
  let c' := Source.addStaticPath normalizePath c from to in
  (entry_type entry = file ->
   build_entry c' buildFilters entry path dirData w = Ok (Source.Done w))
  /\ (entry_type entry = directory ->
      Source.rejected buildFilters entry None = false ->
      exists destPath destFn,
        build_entry c' buildFilters entry path dirData w
        = Ok (Source.Done
                (Source.push_static w (Source.getStaticFiles c' entry destPath destFn)))).
Proof.
  intros Hslash Hpath c'.
  destruct (addStaticPath_lookup c from to) as (d & Hlookup).
  rewrite <- Hpath, Hslash in Hlookup. fold c' in Hlookup.
  split.
  - intros Hfile. unfold Source.build_entry.
    destruct (Source.rejected buildFilters entry None); [reflexivity|].
    rewrite Hlookup, Hfile. reflexivity.
  - intros Hdir Hkept. unfold Source.build_entry.
    rewrite Hkept, Hlookup, Hdir. eauto.
Qed.

End static_facts.

Lemma dirOnly_mapping_skips_file_witness :
  Sample.build_entry
    (Source.addStaticPath Sample.normalizePath (Sample.config "comp") "assets/" None)
    [] Sample.assets "/" [] Sample.empty_walk
  = Ok (Source.Done Sample.empty_walk).
Proof.
  apply (proj1 (dirOnly_mapping_skips_file Sample.normalizePath unit Sample.formats_search
                  Sample.getContent Sample.mergeData DateName.parseDate Sample.getUrl
                  Sample.getPageDate (Sample.config "comp") "assets/" None []
                  Sample.assets "/" [] Sample.empty_walk eq_refl eq_refl)).
  reflexivity.
Defined.

(** ** The walk: the data of a directory *)

Section context_facts.
Variable dataLoader_load : Entry -> Result Data.
Variable componentLoader_load : Entry -> Data -> Result Components.
Variable mergeData : list Data -> Result Data.
Variable parseDateFromFilename : string -> string * option JSDate.Date.
Variable c : Source.Config.

Abbreviation directory_context :=
  (Source.directory_context dataLoader_load componentLoader_load mergeData
     parseDateFromFilename c).

(** The pages and the static files are not touched by the first part of
    [#build]. *)
Lemma directory_context_collections dir path pc pd w path' comps dirData w' :
  directory_context dir path pc pd w = Ok (path', comps, dirData, w') ->
  Source.pages w' = Source.pages w /\ Source.staticFiles w' = Source.staticFiles w.
Proof.
  unfold Source.directory_context.
  destruct (parseDateFromFilename (entry_name dir)) as [name date].
  intros H.
  apply bind_Ok in H as (currentData & _ & H).
  apply bind_Ok in H as (dd & _ & H).
  apply bind_Ok in H as (p & _ & H).
  apply bind_Ok in H as (loaded & _ & H).
  apply bind_Ok in H as ([[pc' dd'] st] & _ & H).
  injection H as <- <- <- <-. split; reflexivity.
Qed.

(** X13.  The record that [#build] hands to the pages and to the
    sub-directories of a directory is the one stored in the index under the
    output path of the directory.  It has no key [slug], whatever the
    metadata declared, unless the components variable is itself named
    [slug] and the directory has components: then the key [slug] holds the
    proxy of the components. *)
Theorem slug_does_not_propagate (dir : Entry) (path : string) (pc : Components)
  (pd : Data) (w : Source.Walk) (path' : string) (comps : Components) (dirData : Data)
  (w' : Source.Walk) :
  directory_context dir path pc pd w = Ok (path', comps, dirData, w') ->
  Source.data w' !! path' = Some dirData
  /\ (Source.components_variable c <> "slug"
      \/ (Source.scopedComponents c !! entry_path dir = None
          /\ find Source.is_components_entry (entry_children dir) = None) ->
      OMap.get dirData "slug" = None)
  /\ (Source.components_variable c = "slug" ->
      Source.scopedComponents c !! entry_path dir <> None
      \/ find Source.is_components_entry (entry_children dir) <> None ->
      exists proxy, OMap.get dirData "slug" = Some (VProxy proxy)).
Proof.
  unfold Source.directory_context.
  destruct (parseDateFromFilename (entry_name dir)) as [name date].
  intros H.
  apply bind_Ok in H as (currentData & _ & H).
  apply bind_Ok in H as (dd & _ & H).
  apply bind_Ok in H as (p & _ & H).
  apply bind_Ok in H as (loaded & Hloaded & H).
  apply bind_Ok in H as ([[pc' dd'] st] & Hctx & H).
  injection H as <- <- <- <-. simpl.
  split; [apply lookup_insert_eq|].
  destruct (Source.scopedComponents c !! entry_path dir) as [scoped|] eqn:Hscoped.
  - apply bind_Ok in Hctx as (merged & _ & Hctx).
    destruct (Proxy.toProxy merged true (Source.store w)) as [q st'].
    injection Hctx as <- <- <-. split.
    + intros [Hvar | [? _]]; [|discriminate].
      rewrite get_set_other by assumption. apply get_delete_same.
    + intros -> _. exists q. apply get_set_same.
  - destruct loaded as [l|].
    + apply bind_Ok in Hctx as (merged & _ & Hctx).
      destruct (Proxy.toProxy merged true (Source.store w)) as [q st'].
      injection Hctx as <- <- <-. split.
      * intros [Hvar | [_ Hfind]].
        -- rewrite get_set_other by assumption. apply get_delete_same.
        -- rewrite Hfind in Hloaded. discriminate.
      * intros -> _. exists q. apply get_set_same.
    + injection Hctx as <- <- <-. split.
      * intros _. apply get_delete_same.
      * intros _ [Hs | Hfind]; [now elim Hs|].
        destruct (find Source.is_components_entry (entry_children dir)); [|now elim Hfind].
        apply bind_Ok in Hloaded as (l & _ & Hl). discriminate.
Qed.

End context_facts.

Lemma slug_does_not_propagate_witness :
  exists comps dirData w,
    Site.directory_context (Sample.config "comp") Site.journal "/" [] [] Sample.empty_walk
    = Ok ("/journal", comps, dirData, w)
    /\ Source.data w !! "/journal" = Some dirData
    /\ OMap.get dirData "slug" = None.
Proof.
  do 3 eexists. split; [vm_compute; reflexivity|].
  destruct (slug_does_not_propagate Site.dataLoader_load Sample.componentLoader_load
              Sample.mergeData DateName.parseDate (Sample.config "comp")
              Site.journal "/" [] [] Sample.empty_walk _ _ _ _ eq_refl)
    as (Hdata & Hslug & _).
  split; [exact Hdata | apply Hslug; left; discriminate].
Defined.

(** C6.  The key [slug] comes back right after it was deleted when the
    components variable of the site is named [slug].  The directory [blog]
    declares its slug in a [_data] file and has components: its output path
    is formed from the declared slug, the record it hands down holds the
    proxy of the components under [slug], and the sub-directory, which reads
    that value as its own slug, makes the build fail.  With another name for
    the variable the same site is built. *)
Theorem slug_key_collides_with_components :
  (exists comps dirData w,
      Site.directory_context (Sample.config "slug") Site.journal "/" [] []
        Sample.empty_walk
      = Ok ("/journal", comps, dirData, w)
      /\ OMap.get dirData "slug" = Some (VProxy 0)
      /\ exists e,
          Site.directory_context (Sample.config "slug") Site.archive "/journal" comps
            dirData w
          = Err e)
  /\ (exists e, Site.journal_build (Sample.config "slug") = Err e)
  /\ (exists w, Site.journal_build (Sample.config "comp") = Ok w).
Proof.
  split; [do 3 eexists; split; [vm_compute; reflexivity|]; split;
          [reflexivity | eexists; vm_compute; reflexivity]|].
  split; eexists; vm_compute; reflexivity.
Qed.

(** ** The walk: the pages of a build *)

(** Induction on the source tree: a property holds of an entry when it
    holds of all its children. *)
Lemma Entry_tree_ind (P : Entry -> Prop) :
  (forall name path type children,
      Forall P children -> P (MkEntry name path type children)) ->
  forall e, P e.
Proof.
  intros step. fix IH 1. intros [name path type children].
  apply step. induction children as [|x r IHr]; constructor; [apply IH | exact IHr].
Qed.

Section page_facts.
Variable Loader : Type.
Variable dataLoader_load : Entry -> Result Data.
Variable componentLoader_load : Entry -> Data -> Result Components.
Variable formats_search : string -> option (Source.Format Loader).
Variable getContent : Entry -> Loader -> Result Data.
Variable mergeData : list Data -> Result Data.
Variable parseDateFromFilename : string -> string * option JSDate.Date.
Variable getPageUrl : Page -> bool -> string -> Result UrlResult.
Variable getPageDate : Page -> Result JSDate.Date.
Variable now : JSDate.Date.
Variable default_src : Src.
Variable c : Source.Config.

Abbreviation file_page :=
  (Source.file_page Loader getContent mergeData parseDateFromFilename getPageUrl
     getPageDate c).
Abbreviation scoped_page :=
  (Source.scoped_page mergeData getPageUrl getPageDate now default_src c).
Abbreviation scoped_pages :=
  (Source.scoped_pages mergeData getPageUrl getPageDate now default_src c).
Abbreviation walk_entry :=
  (Source.build_entry Loader formats_search getContent mergeData parseDateFromFilename
     getPageUrl getPageDate c).
Abbreviation walk :=
  (Source.build_ Loader dataLoader_load componentLoader_load formats_search getContent
     mergeData parseDateFromFilename getPageUrl getPageDate now default_src c).

Lemma finish_page_url page u page' :
  Source.finish_page getPageDate page u = Ok page' ->
  prop (page_data page') "url" = VStr u.
Proof.
  unfold Source.finish_page. intros H.
  apply bind_Ok in H as (d & _ & H). injection H as <-.
  unfold prop, Source.set_data. simpl.
  rewrite !get_set_other by discriminate. now rewrite get_set_same.
Qed.

Lemma urls_resolved_push w page :
  urls_resolved w -> url_resolved page -> urls_resolved (Source.push_page w page).
Proof.
  unfold urls_resolved. simpl. intros Hw Hp.
  apply Forall_app. split; [assumption | now constructor].
Qed.

Lemma falsy_url_false u : Source.falsy_url (Url u) = false -> u <> "".
Proof.
  unfold Source.falsy_url, truthy_string. intros H ->. discriminate.
Qed.

Lemma scoped_page_resolved path dirData w record w' :
  scoped_page path dirData w record = Ok w' -> urls_resolved w -> urls_resolved w'.
Proof.
  unfold Source.scoped_page. intros H Hw.
  apply bind_Ok in H as (merged & _ & H).
  apply bind_Ok in H as (url & _ & H).
  destruct url as [|u]; [now injection H as <-|].
  destruct (Source.falsy_url (Url u)) eqn:Hf; [now injection H as <-|].
  apply bind_Ok in H as (page & Hpage & H). injection H as <-.
  apply urls_resolved_push; [assumption|].
  exists u. split; [now apply finish_page_url in Hpage | now apply falsy_url_false].
Qed.

Lemma scoped_pages_resolved dir path dirData w w' :
  scoped_pages dir path dirData w = Ok w' -> urls_resolved w -> urls_resolved w'.
Proof.
  unfold Source.scoped_pages.
  destruct (Source.scopedPages c !! entry_path dir) as [records|];
    [|now intros [= <-]].
  revert w. induction records as [|r records IH]; simpl; intros w H Hw.
  - now injection H as <-.
  - apply bind_Ok in H as (w1 & H1 & H2).
    eapply IH; [eassumption|]. eapply scoped_page_resolved; eassumption.
Qed.

Lemma file_page_resolved buildFilters entry path dirData format type w w' :
  file_page buildFilters entry path dirData format type w = Ok w' ->
  urls_resolved w -> urls_resolved w'.
Proof.
  unfold Source.file_page. intros H Hw.
  destruct (if match type with
               | Source.asset_type => true
               | Source.page_type => false
               end
            then Source.assetLoader format else Source.loader format) as [ld|];
    [|discriminate].
  destruct (parseDateFromFilename (entry_name entry)) as [slug date].
  apply bind_Ok in H as (pageData & _ & H).
  apply bind_Ok in H as (merged & _ & H).
  apply bind_Ok in H as (url & _ & H).
  destruct url as [|u]; [now injection H as <-|].
  destruct (Source.falsy_url (Url u)) eqn:Hf; [now injection H as <-|].
  apply bind_Ok in H as (page & Hpage & H).
  match type of H with
  | (if ?b then _ else _) = _ => destruct b
  end; injection H as <-; [assumption|].
  apply urls_resolved_push; [assumption|].
  exists u. split; [now apply finish_page_url in Hpage | now apply falsy_url_false].
Qed.

Lemma walk_entry_resolved buildFilters entry path dirData w w' :
  walk_entry buildFilters entry path dirData w = Ok (Source.Done w') ->
  urls_resolved w -> urls_resolved w'.
Proof.
  unfold Source.build_entry. intros H Hw.
  repeat match type of H with
         | Ok (Source.Done _) = Ok (Source.Done _) => injection H as <-; try assumption
         | Ok Source.Recurse = _ => discriminate
         | bind _ _ = Ok _ => apply bind_Ok in H as (w1 & H1 & H)
         | context [match ?x with _ => _ end] => destruct x eqn:?
         end.
  eapply file_page_resolved; eassumption.
Qed.

Lemma walk_resolved buildFilters dir :
  forall path pc pd w w',
    walk buildFilters dir path pc pd w = Ok w' -> urls_resolved w -> urls_resolved w'.
Proof.
  induction dir as [name epath type children IH] using Entry_tree_ind.
  intros path pc pd w w' H Hw. simpl in H.
  destruct (Source.rejected buildFilters (MkEntry name epath type children) None);
    [now injection H as <-|].
  destruct (Source.directory_context _ _ _ _ _ _ _ _ _ _) as [[[[path1 comps] dirData] w1]|]
    eqn:Hctx; [|discriminate].
  apply directory_context_collections in Hctx as [Hpages _].
  assert (Hw1 : urls_resolved w1) by (unfold urls_resolved; now rewrite Hpages).
  destruct (Source.scoped_pages _ _ _ _ _ _ _ _ _ _) as [w2|] eqn:Hsp; [|discriminate].
  apply scoped_pages_resolved in Hsp; [|assumption].
  clear Hw Hw1 Hpages. revert w2 Hsp H.
  induction IH as [|entry rest Hentry _ IHrest]; intros w2 Hw2 H.
  - now injection H as <-.
  - destruct (Source.build_entry _ _ _ _ _ _ _ _ _ _ _ _ _) as [[w3|]|] eqn:Hstep;
      [| |discriminate].
    + apply (IHrest w3); [|assumption]. eapply walk_entry_resolved; eassumption.
    + match type of H with
      | match ?b with _ => _ end = _ => destruct b as [w3|] eqn:Hrec; [|discriminate]
      end.
      apply (IHrest w3); [|assumption]. eapply Hentry; eassumption.
Qed.

(** A page whose URL resolves to [false] is left out, and that is no
    error: the step answers the walk as it was. *)
Lemma file_page_url_false buildFilters entry path (dirData : Data) format type ld
  (pageData merged : Data) w :
  (match type with
   | Source.asset_type => Source.assetLoader format
   | Source.page_type => Source.loader format
   end) = Some ld ->
  getContent entry ld = Ok pageData ->
  mergeData [dirData; Source.date_record (snd (parseDateFromFilename (entry_name entry)));
             Source.scoped_or_empty (Source.scopedData c) (entry_path entry); pageData]
  = Ok merged ->
  getPageUrl
    {| page_src := Source.page_source entry (Source.ext format)
                     (match type with
                      | Source.asset_type => true
                      | Source.page_type => false
                      end)
                     (fst (parseDateFromFilename (entry_name entry)));
       page_data := merged; page_layout := VUndefined |}
    (Source.prettyUrls c) path = Ok UrlFalse ->
  file_page buildFilters entry path dirData format type w = Ok w.
Proof.
  intros Hld Hcontent Hmerged Hurl. unfold Source.file_page.
  destruct (parseDateFromFilename (entry_name entry)) as [slug date]. simpl in *.
  destruct type; rewrite Hld; simpl; rewrite Hcontent; simpl; rewrite Hmerged; simpl;
    rewrite Hurl; reflexivity.
Qed.

Lemma scoped_page_url_false path (dirData record merged : Data) w :
  mergeData [dirData; [("date", VDate now)]; record] = Ok merged ->
  getPageUrl {| page_src := default_src; page_data := merged; page_layout := VUndefined |}
    (Source.prettyUrls c) path = Ok UrlFalse ->
  scoped_page path dirData w record = Ok w.
Proof.
  intros Hmerged Hurl. unfold Source.scoped_page.
  rewrite Hmerged. simpl. rewrite Hurl. reflexivity.
Qed.

(** C2.  Every page of the collection that [build] returns has a [url] that
    is a non-empty string; and where [getPageUrl] answers [false] for a
    page, of a file or assigned to the path, the step is no error and
    leaves the collections as they were. *)
Theorem build_pages_have_urls (buildFilters : list Source.BuildFilter) (root : Entry)
  (st : Proxy.Store) (index : gmap string Data) (ps : list Page) (sfs : list StaticFile)
  (w : Source.Walk) :
  Source.build Loader dataLoader_load componentLoader_load formats_search getContent
    mergeData parseDateFromFilename getPageUrl getPageDate now default_src c
    buildFilters root st index = Ok (ps, sfs, w) ->
  Forall url_resolved ps
  /\ (forall entry path (dirData : Data) format type ld (pageData merged : Data) w0,
         (match type with
          | Source.asset_type => Source.assetLoader format
          | Source.page_type => Source.loader format
          end) = Some ld ->
         getContent entry ld = Ok pageData ->
         mergeData [dirData;
                    Source.date_record (snd (parseDateFromFilename (entry_name entry)));
                    Source.scoped_or_empty (Source.scopedData c) (entry_path entry);
                    pageData] = Ok merged ->
         getPageUrl
           {| page_src := Source.page_source entry (Source.ext format)
                            (match type with
                             | Source.asset_type => true
                             | Source.page_type => false
                             end)
                            (fst (parseDateFromFilename (entry_name entry)));
              page_data := merged; page_layout := VUndefined |}
           (Source.prettyUrls c) path = Ok UrlFalse ->
         file_page buildFilters entry path dirData format type w0 = Ok w0)
  /\ (forall path (dirData record merged : Data) w0,
         mergeData [dirData; [("date", VDate now)]; record] = Ok merged ->
         getPageUrl
           {| page_src := default_src; page_data := merged; page_layout := VUndefined |}
           (Source.prettyUrls c) path = Ok UrlFalse ->
         scoped_page path dirData w0 record = Ok w0).
Proof.
  unfold Source.build. intros H.
  apply bind_Ok in H as (w1 & Hwalk & H). injection H as <- <- <-.
  split; [|split].
  - apply (walk_resolved _ _ _ _ _ _ _ Hwalk). constructor.
  - intros. eapply file_page_url_false; eassumption.
  - intros. eapply scoped_page_url_false; eassumption.
Qed.

End page_facts.

Lemma build_pages_have_urls_witness :
  exists ps sfs w,
    Sample.build (Sample.config "comp") [] = Ok (ps, sfs, w) /\ Forall url_resolved ps.
Proof.
  assert (H : exists r, Sample.build (Sample.config "comp") [] = Ok r)
    by (vm_compute; eexists; reflexivity).
  destruct H as [[[ps sfs] w] H]. exists ps, sfs, w. split; [exact H|].
  exact (proj1 (build_pages_have_urls unit Sample.dataLoader_load
                  Sample.componentLoader_load Sample.formats_search Sample.getContent
                  Sample.mergeData DateName.parseDate Sample.getUrl Sample.getPageDate
                  (JSDate.Instant 0) Sample.default_src (Sample.config "comp")
                  [] Sample.root Proxy.empty_store ∅ ps sfs w H)).
Defined.

(** ** The component proxy *)

Lemma save_code_present type key text sink code :
  OMap.get sink type = Some code -> OMap.get code key = Some text ->
  Proxy.save_code type key (Some text) sink = sink.
Proof.
  intros Hs Hc. unfold Proxy.save_code. destruct (truthy_string text); [|reflexivity].
  rewrite Hs. rewrite (set_get_id code key text Hc). now apply set_get_id.
Qed.

Lemma save_code_get_other type type' key text sink :
  type' <> type ->
  OMap.get (Proxy.save_code type' key text sink) type = OMap.get sink type.
Proof.
  intros Hne. unfold Proxy.save_code. destruct text as [t|]; [|reflexivity].
  destruct (truthy_string t); [|reflexivity]. now apply get_set_other.
Qed.

Lemma save_code_saved type key text sink :
  (forall s, Proxy.save_code type key text s = s)
  \/ exists t code, text = Some t
                    /\ OMap.get (Proxy.save_code type key text sink) type = Some code
                    /\ OMap.get code key = Some t.
Proof.
  unfold Proxy.save_code. destruct text as [t|]; [|now left].
  destruct (truthy_string t); [|now left].
  right. eexists _, _. split; [reflexivity|]. split; apply get_set_same.
Qed.

Lemma save_code_twice type key text sink :
  Proxy.save_code type key text (Proxy.save_code type key text sink)
  = Proxy.save_code type key text sink.
Proof.
  destruct (save_code_saved type key text sink) as [Hid | (t & code & -> & Hs & Hc)].
  - now rewrite !Hid.
  - now apply (save_code_present _ _ _ _ code).
Qed.

(** Saving the style and the script of a component a second time changes
    nothing. *)
Lemma save_both_twice key (component : ComponentDesc) sink :
  let saved := Proxy.save_code "js" key (js component)
                 (Proxy.save_code "css" key (css component) sink) in
  Proxy.save_code "js" key (js component) (Proxy.save_code "css" key (css component) saved)
  = saved.
Proof.
  intros saved.
  assert (Hcss : Proxy.save_code "css" key (css component) saved = saved).
  { destruct (save_code_saved "css" key (css component) sink)
      as [Hid | (t & code & Ht & Hs & Hc)]; [apply Hid|].
    rewrite Ht. apply (save_code_present _ _ _ _ code); [|assumption].
    subst saved. rewrite save_code_get_other by discriminate.
    exact Hs. }
  rewrite Hcss. apply save_code_twice.
Qed.

Lemma recorded_save_code_other type type' key key' text sink :
  type' <> type \/ key' <> key ->
  recorded (Proxy.save_code type' key' text sink) type key = recorded sink type key.
Proof.
  intros Hne. unfold Proxy.save_code, recorded.
  destruct text as [t|]; [|reflexivity]. destruct (truthy_string t); [|reflexivity].
  destruct (String.eqb type' type) eqn:E.
  - apply String.eqb_eq in E. subst type'. rewrite get_set_same.
    destruct Hne as [Hne|Hne]; [contradiction|].
    rewrite get_set_other by assumption. now destruct (OMap.get sink type).
  - apply String.eqb_neq in E. now rewrite get_set_other.
Qed.

Lemma recorded_save_code_same type key t sink :
  t <> "" -> recorded (Proxy.save_code type key (Some t) sink) type key = Some t.
Proof.
  intros Ht. unfold Proxy.save_code, recorded, truthy_string.
  apply String.eqb_neq in Ht. rewrite Ht. simpl. rewrite get_set_same. apply get_set_same.
Qed.

(** C3, as amended.  A second access to the same name on the same proxy
    yields the same nested proxy when the name is a namespace, and leaves
    the store as it was; when the name is a leaf component it yields a new
    function object, another one than the first, which renders the same
    component as the first, and leaves the proxies and the [extraCode] sink
    as the first access left them: when the proxy has the sink, the sink
    holds the style and the script text of the component, each when it is
    not empty, under the lower-case name. *)
Theorem proxy_access_twice (host : Host) (st : Proxy.Store) (p : nat)
  (name : Proxy.PropertyKey) (a1 : Proxy.Accessed) (st1 : Proxy.Store) :
  Proxy.get host p name st = Ok (a1, st1) ->
  exists a2 st2,
    Proxy.get host p name st1 = Ok (a2, st2)
    /\ Proxy.extraCode st2 = Proxy.extraCode st1
    /\ Proxy.nodes st2 = Proxy.nodes st1
    /\ match a1 with
       | Proxy.ACallable f1 =>
           exists f2 component key,
             a2 = Proxy.ACallable f2
             /\ f2 <> f1
             /\ Proxy.callables st1 !! f2 = None
             /\ (forall props,
                    Proxy.call f1 props st2 = Some (render component props)
                    /\ Proxy.call f2 props st2 = Some (render component props))
             /\ name = Proxy.KString key
             /\ forall target,
                 Proxy.nodes st !! p = Some target -> Proxy.n_extra target = true ->
                 (forall text, css component = Some text -> text <> "" ->
                               recorded (Proxy.extraCode st2) "css" (Str.toLowerCase key)
                               = Some text)
                 /\ (forall text, js component = Some text -> text <> "" ->
                                  recorded (Proxy.extraCode st2) "js" (Str.toLowerCase key)
                                  = Some text)
       | _ => a2 = a1 /\ st2 = st1
       end.
Proof.
  unfold Proxy.get. intros H.
  destruct (Proxy.nodes st !! p) as [target|] eqn:Hp; [|discriminate].
  destruct name as [name|n].
  2:{ injection H as <- <-. rewrite Hp. eauto 10. }
  destruct (Proxy.in_target host name) eqn:Hin.
  { injection H as <- <-. rewrite Hp. eauto 10. }
  destruct (OMap.get (Proxy.n_proxies target) (Str.toLowerCase name)) as [q|] eqn:Hq.
  { injection H as <- <-. rewrite Hp, Hq. eauto 10. }
  destruct (OMap.get (Proxy.n_components target) (Str.toLowerCase name))
    as [[component|component]|] eqn:Hc; [| |discriminate].
  - (* a leaf *)
    injection H as <- <-. simpl. rewrite Hp, Hq, Hc.
    eexists _, _. split; [reflexivity|]. simpl.
    split; [|split; [reflexivity|]].
    + destruct (Proxy.n_extra target); [apply save_both_twice | reflexivity].
    + exists (length (Proxy.callables st ++ [component])), component, name.
      split; [reflexivity|]. rewrite length_app. simpl.
      split; [lia|]. split; [|split; [|split; [reflexivity|]]].
      * apply lookup_ge_None. rewrite length_app. simpl. lia.
      * intros props. unfold Proxy.call. simpl. split.
        -- rewrite lookup_app_l by (rewrite length_app; simpl; lia).
           now rewrite list_lookup_middle.
        -- now rewrite list_lookup_middle by (rewrite length_app; simpl; lia).
      * intros target' Htarget Hextra. assert (target' = target) as -> by congruence.
        rewrite Hextra, save_both_twice.
        split; intros text Htext Hne; rewrite Htext.
        -- rewrite recorded_save_code_other by (left; discriminate).
           now apply recorded_save_code_same.
        -- now apply recorded_save_code_same.
  - (* a namespace *)
    simpl in H. injection H as <- <-. simpl.
    assert (Hlt : (p < length (Proxy.nodes st ++
                      [{| Proxy.n_components := component; Proxy.n_proxies := [];
                          Proxy.n_extra := Proxy.n_extra target |}]))%nat).
    { apply lookup_lt_Some in Hp. rewrite length_app. lia. }
    rewrite (list_lookup_insert_eq _ _ _ Hlt). simpl.
    rewrite get_set_same. eauto 10.
Qed.

Lemma proxy_access_twice_witness :
  exists f2 st2,
    Proxy.get Sample.host 0 (Proxy.KString "Button") Sample.store_after_access
    = Ok (Proxy.ACallable f2, st2)
    /\ f2 <> 0%nat
    /\ Proxy.extraCode st2 = Proxy.extraCode Sample.store_after_access.
Proof.
  destruct (proxy_access_twice Sample.host Sample.proxy_store 0 (Proxy.KString "Button")
              (Proxy.ACallable 0) Sample.store_after_access eq_refl)
    as (a2 & st2 & H & Hx & _ & f2 & component & key & -> & Hne & _).
  exists f2, st2. split; [exact H | split; [exact Hne | exact Hx]].
Defined.

(** C3, as stated, fails for a leaf component: the second access to
    [button] on the proxy of the sample registry yields another function
    object than the first. *)
Lemma leaf_access_twice_new_callable :
  exists st1 st2,
    Proxy.get Sample.host 0 (Proxy.KString "button") Sample.proxy_store
    = Ok (Proxy.ACallable 0, st1)
    /\ Proxy.get Sample.host 0 (Proxy.KString "button") st1 = Ok (Proxy.ACallable 1, st2)
    /\ Proxy.ACallable 0 <> Proxy.ACallable 1.
Proof. do 2 eexists. split; [reflexivity|]. split; [reflexivity | discriminate]. Qed.

(** ** The date prefix of a name *)

Lemma append_assoc (a b c : string) : (a +:+ b) +:+ c = a +:+ (b +:+ c).
Proof.
  induction a as [|x a IH]; [reflexivity|].
  change (String x ((a +:+ b) +:+ c) = String x (a +:+ b +:+ c)). f_equal. exact IH.
Qed.

Lemma digits_app n d r : digit_string n d -> DateName.digits n (d +:+ r) = Some (d, r).
Proof.
  revert d. induction n as [|n IH]; intros d [Hlen Hall].
  - destruct d; [reflexivity | discriminate].
  - destruct d as [|c d]; [discriminate|]. simpl in *.
    apply andb_true_iff in Hall as [Hc Hd]. rewrite Hc.
    rewrite IH; [reflexivity|]. split; [now injection Hlen | assumption].
Qed.

Lemma digits_inv n s d r :
  DateName.digits n s = Some (d, r) -> s = d +:+ r /\ digit_string n d.
Proof.
  revert s d. induction n as [|n IH]; intros s d H; simpl in H.
  - injection H as <- <-. repeat split.
  - destruct s as [|c s]; [discriminate|].
    destruct (Str.is_digit c) eqn:Hc; [|discriminate].
    destruct (DateName.digits n s) as [[d' r']|] eqn:Hd; [|discriminate].
    injection H as <- <-. apply IH in Hd as (-> & Hlen & Hall).
    repeat split; simpl; [now rewrite Hlen | now rewrite Hc, Hall].
Qed.

Lemma hyphen_inv s r : DateName.hyphen s = Some r -> s = "-" +:+ r.
Proof.
  destruct s as [|c s]; simpl; [discriminate|].
  destruct (Ascii.eqb c "-") eqn:E; [|discriminate].
  apply Ascii.eqb_eq in E. now intros [= <-]; subst.
Qed.

Lemma tail_inv s sl :
  DateName.tail s = Some sl ->
  exists sep rest, s = String sep rest /\ is_separator sep = true
                   /\ sl = DateName.dot_star rest.
Proof.
  destruct s as [|c s]; simpl; [discriminate|].
  destruct (Ascii.eqb c "_" || Ascii.eqb c "-") eqn:E; [|discriminate].
  intros [= <-]. eauto.
Qed.

Lemma tail_separator sep rest :
  is_separator sep = true -> DateName.tail (String sep rest) = Some (DateName.dot_star rest).
Proof. unfold is_separator. simpl. now intros ->. Qed.

Lemma hour_minute_inv s h mi r :
  DateName.hour_minute s = Some (h, mi, r) ->
  s = "-" +:+ h +:+ "-" +:+ mi +:+ r /\ digit_string 2 h /\ digit_string 2 mi.
Proof.
  unfold DateName.hour_minute. intros H.
  destruct (DateName.hyphen s) as [s1|] eqn:H1; [|discriminate].
  destruct (DateName.digits 2 s1) as [[h' s2]|] eqn:H2; [|discriminate].
  destruct (DateName.hyphen s2) as [s3|] eqn:H3; [|discriminate].
  destruct (DateName.digits 2 s3) as [[mi' s4]|] eqn:H4; [|discriminate].
  injection H as <- <- <-.
  apply hyphen_inv in H1 as ->. apply digits_inv in H2 as (-> & Hh).
  apply hyphen_inv in H3 as ->. apply digits_inv in H4 as (-> & Hmi).
  split; [reflexivity | split; assumption].
Qed.

Lemma second_inv s sec r :
  DateName.second s = Some (sec, r) -> s = "-" +:+ sec +:+ r /\ digit_string 2 sec.
Proof.
  unfold DateName.second. intros H.
  destruct (DateName.hyphen s) as [s1|] eqn:H1; [|discriminate].
  apply hyphen_inv in H1 as ->. apply digits_inv in H as (-> & Hs). now split.
Qed.

(** Once a separator follows the date, the rest of the pattern matches,
    with or without a time. *)
Lemma time_and_tail_total sep rest :
  is_separator sep = true ->
  exists h mi sec sl,
    DateName.time_and_tail (String sep rest) = Some (h, mi, sec, sl)
    /\ time_group h /\ time_group mi /\ time_group sec.
Proof.
  intros Hsep. unfold DateName.time_and_tail.
  rewrite (tail_separator _ _ Hsep).
  destruct (DateName.hour_minute (String sep rest)) as [[[h mi] r]|] eqn:Hhm;
    [|exists None, None, None; simpl; eauto].
  apply hour_minute_inv in Hhm as (_ & Hh & Hmi).
  destruct (DateName.second r) as [[sec r']|] eqn:Hsec.
  - apply second_inv in Hsec as (_ & Hs).
    destruct (DateName.tail r') as [sl|].
    + exists (Some h), (Some mi), (Some sec). simpl. eauto.
    + destruct (DateName.tail r) as [sl|].
      * exists (Some h), (Some mi), None. simpl. eauto.
      * exists None, None, None. simpl. eauto.
  - destruct (DateName.tail r) as [sl|].
    + exists (Some h), (Some mi), None. simpl. eauto.
    + exists None, None, None. simpl. eauto.
Qed.

Lemma digit_val_range c : Str.is_digit c = true -> 0 <= Str.digit_val c <= 9.
Proof.
  unfold Str.is_digit, Str.digit_val. intros H.
  apply andb_true_iff in H as [H1 H2].
  apply Nat.leb_le in H1, H2. lia.
Qed.

Lemma digits_value_range s acc :
  all_digits s = true -> 0 <= acc ->
  acc * 10 ^ Z.of_nat (String.length s) <= Num.digits_value s acc
  < (acc + 1) * 10 ^ Z.of_nat (String.length s).
Proof.
  revert acc. induction s as [|c s IH]; intros acc Hall Hacc.
  - simpl. lia.
  - simpl in Hall. apply andb_true_iff in Hall as [Hc Hs].
    cbn [Num.digits_value String.length]. rewrite Hc.
    pose proof (digit_val_range c Hc) as Hv.
    specialize (IH (acc * 10 + Str.digit_val c) Hs ltac:(lia)).
    rewrite Nat2Z.inj_succ, Z.pow_succ_r by lia.
    assert (0 < 10 ^ Z.of_nat (String.length s)) by (apply Z.pow_pos_nonneg; lia).
    nia.
Qed.

Lemma parseInt_digit_string n s :
  digit_string (S n) s ->
  Num.parseInt s = Some (Num.digits_value s 0)
  /\ 0 <= Num.digits_value s 0 < 10 ^ Z.of_nat (S n).
Proof.
  intros [Hlen Hall]. destruct s as [|c s]; [discriminate|].
  pose proof (digits_value_range _ 0 Hall ltac:(lia)) as Hr. rewrite Hlen in Hr.
  simpl in Hall. apply andb_true_iff in Hall as [Hc _].
  unfold Num.parseInt. rewrite Hc. split; [reflexivity | lia].
Qed.

Lemma field_or_zero_range g :
  time_group g -> exists v, DateName.field_or_zero g = Some v /\ 0 <= v <= 99.
Proof.
  destruct g as [d|]; simpl; [|exists 0; split; [reflexivity | lia]].
  intros Hd. destruct (parseInt_digit_string 1 d Hd) as (Hp & Hr).
  destruct d as [|c d]; [destruct Hd; discriminate|].
  exists (Num.digits_value (String c d) 0). split; [assumption|].
  change (10 ^ Z.of_nat 2) with 100 in Hr. lia.
Qed.

Lemma month_start_range leap mn : 0 <= JSDate.month_start leap mn <= 335.
Proof.
  unfold JSDate.month_start.
  destruct leap;
    repeat match goal with
           | |- context [match ?x with _ => _ end] => destruct x
           end; lia.
Qed.

(** The fields of a stamp never leave the range of time values. *)
Lemma UTC_of_fields y m d h mi s :
  0 <= y <= 9999 -> 0 <= m <= 99 -> 0 <= d <= 99 ->
  0 <= h <= 99 -> 0 <= mi <= 99 -> 0 <= s <= 99 ->
  JSDate.UTC (Some y) (Some (m - 1)) (Some d) (Some h) (Some mi) (Some s)
  = Some (JSDate.MakeDate (JSDate.MakeDay (full_year y) (m - 1) d) (JSDate.MakeTime h mi s 0)).
Proof.
  intros Hy Hm Hd Hh Hmi Hs. unfold JSDate.UTC. fold (full_year y).
  unfold JSDate.TimeClip.
  assert (Hfy : 100 <= full_year y <= 9999).
  { unfold full_year. destruct ((0 <=? y) && (y <=? 99)) eqn:E; [lia|].
    apply andb_false_iff in E as [E | E]; [apply Z.leb_gt in E | apply Z.leb_gt in E]; lia. }
  match goal with
  | |- (if ?b then _ else _) = _ => assert (Hb : b = true); [|now rewrite Hb]
  end.
  apply Z.leb_le.
  unfold JSDate.MakeDate, JSDate.MakeDay, JSDate.MakeTime, JSDate.DayFromYear,
    JSDate.msPerDay.
  pose proof (month_start_range (JSDate.InLeapYear (full_year y + (m - 1) / 12))
                ((m - 1) mod 12)) as Hms.
  generalize dependent (JSDate.month_start (JSDate.InLeapYear (full_year y + (m - 1) / 12))
                          ((m - 1) mod 12)).
  intros ms Hms. generalize dependent (full_year y). intros fy Hfy.
  Z.to_euclidean_division_equations. lia.
Qed.

Lemma field_or_zero_digits g :
  digit_string 2 g ->
  DateName.field_or_zero (Some g) = Some (Num.digits_value g 0)
  /\ 0 <= Num.digits_value g 0 <= 99.
Proof.
  intros Hg. destruct (parseInt_digit_string 1 g Hg) as (Hp & Hr).
  change (10 ^ Z.of_nat 2) with 100 in Hr. split; [|lia].
  destruct g as [|c g]; [destruct Hg; discriminate | exact Hp].
Qed.

(** The date of a name whose pattern matched, from its groups. *)
Lemma parseDate_of_groups (y m d s5 : string) (gh gmi gs : option string) (sl : string)
  (h mi s : Z) :
  digit_string 4 y -> digit_string 2 m -> digit_string 2 d ->
  DateName.time_and_tail s5 = Some (gh, gmi, gs, sl) ->
  DateName.field_or_zero gh = Some h -> 0 <= h <= 99 ->
  DateName.field_or_zero gmi = Some mi -> 0 <= mi <= 99 ->
  DateName.field_or_zero gs = Some s -> 0 <= s <= 99 ->
  DateName.parseDate (y +:+ "-" +:+ m +:+ "-" +:+ d +:+ s5)
  = (sl,
     Some (JSDate.Instant
             (JSDate.MakeDate
                (JSDate.MakeDay (full_year (Num.digits_value y 0))
                   (Num.digits_value m 0 - 1) (Num.digits_value d 0))
                (JSDate.MakeTime h mi s 0)))).
Proof.
  intros Hy Hm Hd Htt Hh Hhr Hmi Hmir Hs Hsr.
  destruct (parseInt_digit_string 3 y Hy) as (Hpy & Hyr).
  destruct (parseInt_digit_string 1 m Hm) as (Hpm & Hmr).
  destruct (parseInt_digit_string 1 d Hd) as (Hpd & Hdr).
  change (10 ^ Z.of_nat 4) with 10000 in Hyr.
  change (10 ^ Z.of_nat 2) with 100 in Hmr, Hdr.
  unfold DateName.parseDate, DateName.exec_groups.
  rewrite (digits_app 4 y _ Hy).
  change (DateName.hyphen ("-" +:+ m +:+ "-" +:+ d +:+ s5))
    with (Some (m +:+ "-" +:+ d +:+ s5)).
  cbv iota beta.
  rewrite (digits_app 2 m _ Hm).
  change (DateName.hyphen ("-" +:+ d +:+ s5)) with (Some (d +:+ s5)).
  cbv iota beta.
  rewrite (digits_app 2 d _ Hd), Htt. cbn [DateName.g_year DateName.g_month DateName.g_day
    DateName.g_hour DateName.g_minute DateName.g_second DateName.g_slug].
  rewrite Hpy, Hpm, Hpd, Hh, Hmi, Hs. cbn [DateName.minus_one].
  rewrite UTC_of_fields by lia. reflexivity.
Qed.

Lemma hour_minute_app (h mi r : string) :
  digit_string 2 h -> digit_string 2 mi ->
  DateName.hour_minute ("-" +:+ h +:+ "-" +:+ mi +:+ r) = Some (h, mi, r).
Proof.
  intros Hh Hmi. unfold DateName.hour_minute.
  change (DateName.hyphen ("-" +:+ h +:+ "-" +:+ mi +:+ r))
    with (Some (h +:+ "-" +:+ mi +:+ r)).
  cbv iota beta. rewrite (digits_app 2 h _ Hh).
  change (DateName.hyphen ("-" +:+ mi +:+ r)) with (Some (mi +:+ r)).
  cbv iota beta. now rewrite (digits_app 2 mi _ Hmi).
Qed.

Lemma second_app (s r : string) :
  digit_string 2 s -> DateName.second ("-" +:+ s +:+ r) = Some (s, r).
Proof.
  intros Hs. unfold DateName.second.
  change (DateName.hyphen ("-" +:+ s +:+ r)) with (Some (s +:+ r)).
  cbv iota beta. now apply digits_app.
Qed.

(** What the rest of the pattern matched: a time stamp, a separator and
    the remainder, with the fields of the stamp as the groups of the time. *)
Lemma time_and_tail_stamp (s5 : string) gh gmi gs sl :
  DateName.time_and_tail s5 = Some (gh, gmi, gs, sl) ->
  exists time h mi s sep rest,
    time_stamp time h mi s /\ is_separator sep = true
    /\ s5 = time +:+ String sep rest /\ sl = DateName.dot_star rest
    /\ DateName.field_or_zero gh = Some (Num.digits_value h 0)
    /\ DateName.field_or_zero gmi = Some (Num.digits_value mi 0)
    /\ DateName.field_or_zero gs = Some (Num.digits_value s 0).
Proof.
  unfold DateName.time_and_tail. intros H.
  assert (Hno : forall r,
             match DateName.tail s5 with
             | Some sl0 => Some (@None string, @None string, @None string, sl0)
             | None => None
             end = Some r ->
             r = (gh, gmi, gs, sl) ->
             exists time h mi s sep rest,
               time_stamp time h mi s /\ is_separator sep = true
               /\ s5 = time +:+ String sep rest /\ sl = DateName.dot_star rest
               /\ DateName.field_or_zero gh = Some (Num.digits_value h 0)
               /\ DateName.field_or_zero gmi = Some (Num.digits_value mi 0)
               /\ DateName.field_or_zero gs = Some (Num.digits_value s 0)).
  { intros r Hr ->. destruct (DateName.tail s5) as [sl0|] eqn:Ht; [|discriminate].
    injection Hr as <- <- <- <-.
    apply tail_inv in Ht as (sep & rest & -> & Hsep & ->).
    exists "", "", "", "", sep, rest. repeat split; [constructor | exact Hsep]. }
  destruct (DateName.hour_minute s5) as [[[h mi] r]|] eqn:Hhm; [|now apply (Hno _ H)].
  pose proof Hhm as Hhm'. apply hour_minute_inv in Hhm' as (Hs5 & Hh & Hmi).
  destruct (field_or_zero_digits h Hh) as (Fh & _).
  destruct (field_or_zero_digits mi Hmi) as (Fmi & _).
  assert (Hns : forall x,
             match DateName.tail r with
             | Some sl0 => Some (Some h, Some mi, @None string, sl0)
             | None =>
                 match DateName.tail s5 with
                 | Some sl0 => Some (None, None, None, sl0)
                 | None => None
                 end
             end = Some x ->
             x = (gh, gmi, gs, sl) ->
             exists time h mi s sep rest,
               time_stamp time h mi s /\ is_separator sep = true
               /\ s5 = time +:+ String sep rest /\ sl = DateName.dot_star rest
               /\ DateName.field_or_zero gh = Some (Num.digits_value h 0)
               /\ DateName.field_or_zero gmi = Some (Num.digits_value mi 0)
               /\ DateName.field_or_zero gs = Some (Num.digits_value s 0)).
  { intros x Hx ->. destruct (DateName.tail r) as [sl0|] eqn:Ht; [|now apply (Hno _ Hx)].
    injection Hx as <- <- <- <-.
    apply tail_inv in Ht as (sep & rest & -> & Hsep & ->).
    exists ("-" +:+ h +:+ "-" +:+ mi), h, mi, "", sep, rest.
    split; [now constructor|]. split; [exact Hsep|]. split; [|auto].
    rewrite Hs5. now rewrite !append_assoc. }
  destruct (DateName.second r) as [[sec r']|] eqn:Hsec; [|now apply (Hns _ H)].
  destruct (DateName.tail r') as [sl0|] eqn:Ht; [|now apply (Hns _ H)].
  injection H as <- <- <- <-.
  apply second_inv in Hsec as (-> & Hs).
  destruct (field_or_zero_digits sec Hs) as (Fs & _).
  apply tail_inv in Ht as (sep & rest & -> & Hsep & ->).
  exists ("-" +:+ h +:+ "-" +:+ mi +:+ "-" +:+ sec), h, mi, sec, sep, rest.
  split; [now constructor|]. split; [exact Hsep|]. split; [|auto].
  rewrite Hs5. now rewrite !append_assoc.
Qed.

Lemma digits_value_fields (g : string) :
  g = "" \/ digit_string 2 g -> 0 <= Num.digits_value g 0 <= 99.
Proof.
  intros [-> | Hg]; [simpl; lia|]. now destruct (field_or_zero_digits g Hg).
Qed.

Lemma time_stamp_fields time h mi s :
  time_stamp time h mi s ->
  (h = "" \/ digit_string 2 h) /\ (mi = "" \/ digit_string 2 mi)
  /\ (s = "" \/ digit_string 2 s).
Proof. destruct 1; auto. Qed.

(** The time stamp that the pattern reads when nothing after it can be
    taken for more of the time. *)
Lemma time_and_tail_definite time h mi s sep rest :
  time_stamp time h mi s -> is_separator sep = true ->
  s <> "" \/ sep = "_"%char \/ DateName.digits 2 rest = None ->
  exists gh gmi gs,
    DateName.time_and_tail (time +:+ String sep rest)
    = Some (gh, gmi, gs, DateName.dot_star rest)
    /\ DateName.field_or_zero gh = Some (Num.digits_value h 0)
    /\ DateName.field_or_zero gmi = Some (Num.digits_value mi 0)
    /\ DateName.field_or_zero gs = Some (Num.digits_value s 0).
Proof.
  intros Ht Hsep Hdef.
  assert (Hstop : s = "" -> DateName.hyphen (String sep rest) = None
                            \/ DateName.digits 2 rest = None).
  { intros ->. destruct Hdef as [Hs | [-> | Hr]]; [now elim Hs | now left | now right]. }
  unfold DateName.time_and_tail. destruct Ht as [|h mi Hh Hmi|h mi s Hh Hmi Hs].
  - exists None, None, None. change ("" +:+ String sep rest) with (String sep rest).
    rewrite (tail_separator _ _ Hsep).
    assert (Hhm : DateName.hour_minute (String sep rest) = None).
    { unfold DateName.hour_minute.
      destruct (Hstop eq_refl) as [Hy | Hr]; [now rewrite Hy|].
      unfold DateName.hyphen. destruct (Ascii.eqb sep "-"); [now rewrite Hr | reflexivity]. }
    rewrite Hhm. auto.
  - exists (Some h), (Some mi), None.
    destruct (field_or_zero_digits h Hh) as (Fh & _).
    destruct (field_or_zero_digits mi Hmi) as (Fmi & _).
    rewrite !append_assoc.
    change (("-" +:+ h +:+ "-" +:+ mi +:+ String sep rest))
      with ("-" +:+ h +:+ "-" +:+ mi +:+ String sep rest).
    rewrite (hour_minute_app h mi _ Hh Hmi), (tail_separator _ _ Hsep).
    assert (Hsec : DateName.second (String sep rest) = None).
    { unfold DateName.second.
      destruct (Hstop eq_refl) as [Hy | Hr]; [now rewrite Hy|].
      unfold DateName.hyphen. destruct (Ascii.eqb sep "-"); [exact Hr | reflexivity]. }
    rewrite Hsec. auto.
  - exists (Some h), (Some mi), (Some s).
    destruct (field_or_zero_digits h Hh) as (Fh & _).
    destruct (field_or_zero_digits mi Hmi) as (Fmi & _).
    destruct (field_or_zero_digits s Hs) as (Fs & _).
    rewrite !append_assoc.
    rewrite (hour_minute_app h mi _ Hh Hmi), (second_app s _ Hs),
      (tail_separator _ _ Hsep). auto.
Qed.

(** C10.  A name that starts with [YYYY-MM-DD] and a separator always gets
    a date, a valid one, whatever the values of the fields.  What follows
    the day splits into a time stamp (none, hours and minutes, or hours,
    minutes and seconds), a separator and the remainder, and the date is
    the instant that [Date.UTC] makes of the fields as they are written;
    the stamp that is read is the one written when nothing after it can be
    taken for more of the time.  A field beyond its calendar range is
    carried: twelve months are a year, the days run on from the start of
    the month, twenty-four hours are a day, sixty minutes an hour and sixty
    seconds a minute. *)
Theorem parseDate_fields_unchecked (y m d : string) :
  digit_string 4 y -> digit_string 2 m -> digit_string 2 d ->
  (forall sep rest,
      is_separator sep = true ->
      exists time h mi s sep' rest',
        time_stamp time h mi s /\ is_separator sep' = true
        /\ String sep rest = time +:+ String sep' rest'
        /\ DateName.parseDate (y +:+ "-" +:+ m +:+ "-" +:+ d +:+ String sep rest)
           = (DateName.dot_star rest',
              Some (JSDate.Instant (JSDate.MakeDate (day_of y m d) (time_of h mi s)))))
  /\ (forall time h mi s sep rest,
        time_stamp time h mi s -> is_separator sep = true ->
        s <> "" \/ sep = "_"%char \/ DateName.digits 2 rest = None ->
        DateName.parseDate (y +:+ "-" +:+ m +:+ "-" +:+ d +:+ time +:+ String sep rest)
        = (DateName.dot_star rest,
           Some (JSDate.Instant (JSDate.MakeDate (day_of y m d) (time_of h mi s)))))
  /\ (forall year month day, JSDate.MakeDay year (month + 12) day
                             = JSDate.MakeDay (year + 1) month day)
  /\ (forall year month day more, JSDate.MakeDay year month (day + more)
                                  = JSDate.MakeDay year month day + more)
  /\ (forall day hour minute second,
        JSDate.MakeDate day (JSDate.MakeTime (hour + 24) minute second 0)
        = JSDate.MakeDate (day + 1) (JSDate.MakeTime hour minute second 0))
  /\ (forall hour minute second,
        JSDate.MakeTime hour (minute + 60) second 0
        = JSDate.MakeTime (hour + 1) minute second 0)
  /\ (forall hour minute second,
        JSDate.MakeTime hour minute (second + 60) 0
        = JSDate.MakeTime hour (minute + 1) second 0).
Proof.
  intros Hy Hm Hd. split; [|split].
  - intros sep rest Hsep.
    destruct (time_and_tail_total sep rest Hsep) as (gh & gmi & gs & sl & Htt & _).
    destruct (time_and_tail_stamp _ _ _ _ _ Htt)
      as (time & h & mi & s & sep' & rest' & Hts & Hsep' & Hsplit & -> & Fh & Fmi & Fs).
    destruct (time_stamp_fields _ _ _ _ Hts) as (Hh & Hmi & Hs).
    exists time, h, mi, s, sep', rest'. repeat split; try assumption.
    apply (parseDate_of_groups y m d _ gh gmi gs); try assumption;
      now apply digits_value_fields.
  - intros time h mi s sep rest Hts Hsep Hdef.
    destruct (time_and_tail_definite _ _ _ _ _ _ Hts Hsep Hdef)
      as (gh & gmi & gs & Htt & Fh & Fmi & Fs).
    destruct (time_stamp_fields _ _ _ _ Hts) as (Hh & Hmi & Hs).
    apply (parseDate_of_groups y m d _ gh gmi gs); try assumption;
      now apply digits_value_fields.
  - unfold JSDate.MakeDate, JSDate.MakeTime, JSDate.msPerDay.
    repeat split; intros; try lia.
    + unfold JSDate.MakeDay.
      replace ((month + 12) / 12) with (month / 12 + 1)
        by (Z.to_euclidean_division_equations; lia).
      replace ((month + 12) mod 12) with (month mod 12)
        by (Z.to_euclidean_division_equations; lia).
      replace (year + (month / 12 + 1)) with (year + 1 + month / 12) by lia. reflexivity.
    + unfold JSDate.MakeDay. lia.
Qed.

(** The name [2023-13-32-25-61-61_x] gets the instant of its fields as they
    are written, which is the second of February 2024, 02:02:01. *)
Lemma parseDate_fields_unchecked_witness :
  DateName.parseDate "2023-13-32-25-61-61_x"
  = (DateName.dot_star "x",
     Some (JSDate.Instant (JSDate.MakeDate (day_of "2023" "13" "32")
                             (time_of "25" "61" "61"))))
  /\ DateName.parseDate "2023-13-32-25-61-61_x"
     = DateName.parseDate "2024-02-02-02-02-01_x".
Proof.
  split; [|vm_compute; reflexivity].
  apply (proj1 (proj2 (parseDate_fields_unchecked "2023" "13" "32"
                         ltac:(split; reflexivity) ltac:(split; reflexivity)
                         ltac:(split; reflexivity)))
           "-25-61-61" "25" "61" "61" "_"%char "x").
  - apply (time_seconds "25" "61" "61"); split; reflexivity.
  - reflexivity.
  - left. discriminate.
Defined.

(** A month of 13 is the January of the next year. *)
Example parseDate_month_13 :
  DateName.parseDate "2023-13-01-x" = ("x", Some (JSDate.Instant 1704067200000))
  /\ DateName.parseDate "2024-01-01-x" = ("x", Some (JSDate.Instant 1704067200000)).
Proof. split; vm_compute; reflexivity. Qed.

Lemma free_of_line_terminators_suffix a b :
  free_of_line_terminators (a +:+ b) = true -> free_of_line_terminators b = true.
Proof.
  induction a as [|c a IH]; [trivial|].
  change (String c a +:+ b) with (String c (a +:+ b)). simpl.
  intros H. apply andb_true_iff in H as [_ H]. now apply IH.
Qed.

Lemma dot_star_free s : free_of_line_terminators s = true -> DateName.dot_star s = s.
Proof.
  induction s as [|c s IH]; simpl; [reflexivity|].
  intros H. apply andb_true_iff in H as [Hc Hs].
  apply negb_true_iff in Hc. rewrite Hc. now rewrite IH.
Qed.

(** What [exec_groups] matched: a stamp, a separator, and the longest run
    without line terminator of what follows. *)
Lemma exec_groups_inv name g :
  DateName.exec_groups name = Some g ->
  exists stamp sep rest,
    Stamp stamp /\ is_separator sep = true /\ name = stamp +:+ String sep rest
    /\ DateName.g_slug g = DateName.dot_star rest.
Proof.
  unfold DateName.exec_groups. intros H.
  destruct (DateName.digits 4 name) as [[y s1]|] eqn:Hy; [|discriminate].
  destruct (DateName.hyphen s1) as [s2|] eqn:H1; [|discriminate].
  destruct (DateName.digits 2 s2) as [[m s3]|] eqn:Hm; [|discriminate].
  destruct (DateName.hyphen s3) as [s4|] eqn:H2; [|discriminate].
  destruct (DateName.digits 2 s4) as [[d s5]|] eqn:Hd; [|discriminate].
  destruct (DateName.time_and_tail s5) as [[[[gh gmi] gs] sl]|] eqn:Htt; [|discriminate].
  injection H as <-. simpl.
  apply digits_inv in Hy as (-> & Hy). apply hyphen_inv in H1 as ->.
  apply digits_inv in Hm as (-> & Hm). apply hyphen_inv in H2 as ->.
  apply digits_inv in Hd as (-> & Hd).
  assert (Hdate : forall sl0, DateName.tail s5 = Some sl0 ->
            exists stamp sep rest,
              Stamp stamp /\ is_separator sep = true
              /\ y +:+ "-" +:+ m +:+ "-" +:+ d +:+ s5 = stamp +:+ String sep rest
              /\ sl0 = DateName.dot_star rest).
  { intros sl0 Ht. apply tail_inv in Ht as (sep & rest & -> & Hsep & ->).
    exists (y +:+ "-" +:+ m +:+ "-" +:+ d), sep, rest.
    repeat split; [now constructor | assumption |].
    now rewrite !append_assoc. }
  unfold DateName.time_and_tail in Htt.
  destruct (DateName.hour_minute s5) as [[[h mi] r]|] eqn:Hhm.
  2:{ destruct (DateName.tail s5) as [sl0|] eqn:Ht; [|discriminate].
      injection Htt as <- <- <- <-. now apply Hdate. }
  pose proof Hhm as Hhm'. apply hour_minute_inv in Hhm' as (Hs5 & Hh & Hmi).
  assert (Hminute : forall sl0, DateName.tail r = Some sl0 ->
            exists stamp sep rest,
              Stamp stamp /\ is_separator sep = true
              /\ y +:+ "-" +:+ m +:+ "-" +:+ d +:+ s5 = stamp +:+ String sep rest
              /\ sl0 = DateName.dot_star rest).
  { intros sl0 Ht. apply tail_inv in Ht as (sep & rest & -> & Hsep & ->).
    exists (y +:+ "-" +:+ m +:+ "-" +:+ d +:+ "-" +:+ h +:+ "-" +:+ mi), sep, rest.
    repeat split; [now constructor | assumption |].
    rewrite Hs5. now rewrite !append_assoc. }
  assert (Hshort : forall gh' gmi' gs' sl',
            match DateName.tail r with
            | Some sl0 => Some (Some h, Some mi, @None string, sl0)
            | None => match DateName.tail s5 with
                      | Some sl0 => Some (@None string, @None string, @None string, sl0)
                      | None => None
                      end
            end = Some (gh', gmi', gs', sl') ->
            exists stamp sep rest,
              Stamp stamp /\ is_separator sep = true
              /\ y +:+ "-" +:+ m +:+ "-" +:+ d +:+ s5 = stamp +:+ String sep rest
              /\ sl' = DateName.dot_star rest).
  { intros gh' gmi' gs' sl' E.
    destruct (DateName.tail r) as [sl0|] eqn:Ht.
    - injection E as <- <- <- <-. now apply Hminute.
    - destruct (DateName.tail s5) as [sl0|] eqn:Ht5; [|discriminate].
      injection E as <- <- <- <-. now apply Hdate. }
  destruct (DateName.second r) as [[sec r']|] eqn:Hsec; [|now apply Hshort in Htt].
  destruct (DateName.tail r') as [sl0|] eqn:Ht'; [|now apply Hshort in Htt].
  injection Htt as <- <- <- <-.
  apply second_inv in Hsec as (-> & Hsec).
  apply tail_inv in Ht' as (sep & rest & -> & Hsep & ->).
  exists (y +:+ "-" +:+ m +:+ "-" +:+ d +:+ "-" +:+ h +:+ "-" +:+ mi +:+ "-" +:+ sec), sep, rest.
  repeat split; [now constructor | assumption |].
  rewrite Hs5. now rewrite !append_assoc.
Qed.

(** On names without line terminator the parser does what C7 says: on a
    match the name is a stamp, a separator and the returned remainder. *)
Lemma parseDate_remainder name slug date :
  free_of_line_terminators name = true ->
  DateName.parseDate name = (slug, Some date) ->
  exists stamp sep,
    Stamp stamp /\ is_separator sep = true /\ name = stamp +:+ String sep slug.
Proof.
  unfold DateName.parseDate. intros Hfree H.
  destruct (DateName.exec_groups name) as [g|] eqn:Hg; [|discriminate].
  injection H as <- _.
  apply exec_groups_inv in Hg as (stamp & sep & rest & Hstamp & Hsep & -> & ->).
  exists stamp, sep. repeat split; [assumption..|].
  apply free_of_line_terminators_suffix in Hfree. simpl in Hfree.
  apply andb_true_iff in Hfree as [_ Hfree]. now rewrite dot_star_free.
Qed.

(** A name that is no stamp followed by a separator comes back as it is,
    without a date. *)
Lemma parseDate_no_stamp name :
  (forall stamp sep rest,
      Stamp stamp -> is_separator sep = true -> name <> stamp +:+ String sep rest) ->
  DateName.parseDate name = (name, None).
Proof.
  unfold DateName.parseDate. intros Hno.
  destruct (DateName.exec_groups name) as [g|] eqn:Hg; [|reflexivity].
  apply exec_groups_inv in Hg as (stamp & sep & rest & Hstamp & Hsep & Hname & _).
  now destruct (Hno stamp sep rest).
Qed.

Example parseDate_plain : DateName.parseDate "hello" = ("hello", None).
Proof. reflexivity. Qed.

(** C7 fails on the code where the remainder holds a line terminator: of
    the name [2024-03-05-a], a line feed, [b], the remainder after the
    separator is [a], the line feed and [b], and [parseDate] returns [a]. *)
Theorem parseDate_stops_at_line_break :
  DateName.parseDate Sample.name_with_line_break = ("a", Some (JSDate.Instant 1709596800000))
  /\ Sample.name_with_line_break = "2024-03-05" +:+ String "-" ("a" +:+ Sample.LF +:+ "b")
  /\ "a" <> "a" +:+ Sample.LF +:+ "b".
Proof. split; [vm_compute; reflexivity | split; [reflexivity | discriminate]]. Qed.

(** ** The merge of component registries *)

Lemma depth_of_cons k v (r : Components) :
  Cascade.depth_of ((k, v) :: r) = Nat.max (Cascade.depth v) (Cascade.depth_of r).
Proof. reflexivity. Qed.

Lemma depth_Namespace (m : Components) :
  Cascade.depth (Namespace m) = S (Cascade.depth_of m).
Proof. reflexivity. Qed.

Lemma get_depth (m : Components) k v :
  OMap.get m k = Some v -> (Cascade.depth v <= Cascade.depth_of m)%nat.
Proof.
  induction m as [|[k0 v0] m IH]; [discriminate|].
  rewrite depth_of_cons. simpl. destruct (String.eqb k0 k).
  - intros [= ->]. lia.
  - intros H. apply IH in H. lia.
Qed.

Lemma set_depth (m : Components) k v n :
  (Cascade.depth_of m <= n)%nat -> (Cascade.depth v <= n)%nat ->
  (Cascade.depth_of (OMap.set m k v) <= n)%nat.
Proof.
  induction m as [|[k0 v0] m IH]; intros Hm Hv.
  - simpl OMap.set. rewrite depth_of_cons. change (Cascade.depth_of []) with O. lia.
  - rewrite depth_of_cons in Hm. simpl OMap.set. destruct (String.eqb k0 k).
    + rewrite depth_of_cons. lia.
    + rewrite depth_of_cons. specialize (IH ltac:(lia) Hv). lia.
Qed.

Lemma merge_entry_depth recur n (acc : Components) k v :
  (Cascade.depth_of acc <= n)%nat -> (Cascade.depth v <= n)%nat ->
  (forall a b, (S (Cascade.depth_of a) <= n)%nat -> (S (Cascade.depth_of b) <= n)%nat ->
               exists r, recur a b = Some r /\ (S (Cascade.depth_of r) <= n)%nat) ->
  exists acc', Cascade.merge_entry recur (Some acc) (k, v) = Some acc'
               /\ (Cascade.depth_of acc' <= n)%nat.
Proof.
  intros Hacc Hv Hrecur. unfold Cascade.merge_entry.
  destruct (OMap.has acc k); [|eexists; split; [reflexivity | now apply set_depth]].
  destruct (OMap.get acc k) as [[cp|mp]|] eqn:Hget;
    try (eexists; split; [reflexivity | now apply set_depth]).
  destruct v as [cv|mv]; [eexists; split; [reflexivity | now apply set_depth]|].
  apply get_depth in Hget. rewrite depth_Namespace in Hget, Hv.
  destruct (Hrecur mv mp ltac:(lia) ltac:(lia)) as (merged & -> & Hd).
  eexists. split; [reflexivity|]. apply set_depth; [assumption|].
  now rewrite depth_Namespace.
Qed.

Lemma fold_merge_entry_depth recur n (current : Components) :
  (Cascade.depth_of current <= n)%nat ->
  (forall a b, (S (Cascade.depth_of a) <= n)%nat -> (S (Cascade.depth_of b) <= n)%nat ->
               exists r, recur a b = Some r /\ (S (Cascade.depth_of r) <= n)%nat) ->
  forall acc : Components,
    (Cascade.depth_of acc <= n)%nat ->
    exists merged, fold_left (Cascade.merge_entry recur) current (Some acc) = Some merged
                   /\ (Cascade.depth_of merged <= n)%nat.
Proof.
  intros Hc Hrecur. induction current as [|[k v] current IH]; intros acc Hacc.
  - simpl. eauto.
  - rewrite depth_of_cons in Hc. cbn [fold_left].
    destruct (merge_entry_depth recur n acc k v Hacc ltac:(lia) Hrecur) as (acc' & -> & Hd).
    apply IH; [lia | assumption].
Qed.

(** The fuel that [mergeComponents] gives to [merge_pair] is enough: a
    merge of two registries of depth at most [n] ends within [S n] nested
    calls, and its result is no deeper than [n]. *)
Lemma merge_pair_enough n :
  forall previous current,
    (Cascade.depth_of previous <= n)%nat -> (Cascade.depth_of current <= n)%nat ->
    exists merged, Cascade.merge_pair (S n) previous current = Some merged
                   /\ (Cascade.depth_of merged <= n)%nat.
Proof.
  induction n as [|n IH]; intros previous current Hp Hc;
    cbn [Cascade.merge_pair]; apply fold_merge_entry_depth; try assumption.
  - intros a b Ha. lia.
  - intros a b Ha Hb. destruct (IH a b ltac:(lia) ltac:(lia)) as (r & Hr & Hd).
    exists r. split; [exact Hr | lia].
Qed.

Lemma merge_pair_deeper n m previous current :
  (Cascade.depth_of previous <= n)%nat -> (Cascade.depth_of current <= n)%nat ->
  (n <= m)%nat ->
  exists merged, Cascade.merge_pair (S m) previous current = Some merged
                 /\ (Cascade.depth_of merged <= m)%nat.
Proof. intros. apply merge_pair_enough; lia. Qed.

Lemma reduce_merge_pair fuel (rest : list Components) :
  Forall (fun m => Cascade.depth_of m <= fuel)%nat rest ->
  forall first : Components,
    (Cascade.depth_of first <= fuel)%nat ->
    exists merged,
      fold_left (fun (acc : option Components) (current : Components) =>
                   match acc with
                   | Some previous => Cascade.merge_pair (S fuel) previous current
                   | None => None
                   end)
                rest (Some first) = Some merged.
Proof.
  induction 1 as [|current rest Hc _ IH]; intros first Hfirst; simpl.
  - eauto.
  - destruct (merge_pair_enough fuel first current Hfirst Hc) as (merged & Hm & Hd).
    cbn [Cascade.merge_pair] in Hm. rewrite Hm. now apply IH.
Qed.

Lemma depth_all_bound (l : list Components) :
  Forall (fun m => Cascade.depth_of m <= Cascade.depth_all l)%nat l.
Proof.
  induction l as [|m l IH]; constructor; simpl.
  - lia.
  - eapply Forall_impl; [exact IH|]. simpl. intros; lia.
Qed.

(** [mergeComponents] returns a registry for every non-empty sequence of
    registries. *)
Lemma mergeComponents_total first rest :
  exists merged, Cascade.mergeComponents (first :: rest) = Ok merged.
Proof.
  unfold Cascade.mergeComponents.
  pose proof (depth_all_bound (first :: rest)) as Hall.
  inversion Hall as [|? ? Hfirst Hrest]; subst.
  destruct (reduce_merge_pair _ rest Hrest first Hfirst) as (merged & Hm).
  cbn [Cascade.merge_pair] in Hm |- *. rewrite Hm. eauto.
Qed.

(** The earlier revision of [mergeComponents]: the value stored for two
    namespaces is their merge. *)
Lemma stored_v1_namespace (v pv : Components) :
  Cascade.stored_v1 (Namespace v) (Namespace pv)
  = Namespace (Cascade.mergeComponents_v1 v pv).
Proof.
  cbn [Cascade.stored_v1]. f_equal. unfold Cascade.mergeComponents_v1.
  revert pv. induction v as [|[k x] v IH]; intros pv; [reflexivity|].
  cbn [fold_left fst snd]. apply IH.
Qed.

Lemma mergeComponents_v1_get_other (current previous : Components) k :
  ~ In k (map fst current) ->
  OMap.get (Cascade.mergeComponents_v1 current previous) k = OMap.get previous k.
Proof.
  unfold Cascade.mergeComponents_v1. revert previous.
  induction current as [|[k0 x0] current IH]; intros previous Hnotin; [reflexivity|].
  cbn [fold_left fst snd]. simpl in Hnotin. rewrite IH by tauto.
  destruct (OMap.get previous k0); apply get_set_other; tauto.
Qed.

Lemma mergeComponents_v1_get (current previous : Components) k x :
  distinct_keys current -> OMap.get current k = Some x ->
  OMap.get (Cascade.mergeComponents_v1 current previous) k
  = Some (match OMap.get previous k with
          | Some p => Cascade.stored_v1 x p
          | None => x
          end).
Proof.
  unfold distinct_keys. revert previous.
  induction current as [|[k0 x0] current IH]; intros previous Hnd Hget; [discriminate|].
  inversion Hnd as [|? ? Hnotin Hnd']; subst. simpl in Hget.
  change (Cascade.mergeComponents_v1 ((k0, x0) :: current) previous)
    with (Cascade.mergeComponents_v1 current
            (match OMap.get previous k0 with
             | Some p => OMap.set previous k0 (Cascade.stored_v1 x0 p)
             | None => OMap.set previous k0 x0
             end)).
  destruct (String.eqb k0 k) eqn:E.
  - apply String.eqb_eq in E. subst k0. injection Hget as ->.
    rewrite mergeComponents_v1_get_other by assumption.
    destruct (OMap.get previous k); apply get_set_same.
  - apply String.eqb_neq in E. rewrite (IH _ Hnd' Hget). f_equal.
    destruct (OMap.get previous k0); now rewrite get_set_other.
Qed.

Lemma well_formed_get (m : Components) k v :
  well_formed (Namespace m) -> OMap.get m k = Some v -> well_formed v.
Proof.
  intros [_ Hall]. induction m as [|[k0 v0] m IH]; [discriminate|].
  destruct Hall as [Hv0 Hall]. simpl. destruct (String.eqb k0 k).
  - now intros [= <-].
  - now apply IH.
Qed.

(** In the earlier revision the later registry wins at every depth: a
    component found in it at some path of names is found at that path in the
    merge. *)
Lemma mergeComponents_v1_later_wins (path : list string) :
  forall (later earlier : Components) (component : ComponentDesc),
    well_formed (Namespace later) ->
    find_path later path = Some (Leaf component) ->
    find_path (Cascade.mergeComponents_v1 later earlier) path = Some (Leaf component).
Proof.
  induction path as [|k rest IH]; intros later earlier component Hwf Hfind;
    [discriminate|].
  cbn [find_path] in Hfind |- *. destruct rest as [|k' rest].
  - rewrite (mergeComponents_v1_get _ _ _ _ (proj1 Hwf) Hfind).
    now destruct (OMap.get earlier k).
  - destruct (OMap.get later k) as [[c|sub]|] eqn:Hget; try discriminate.
    rewrite (mergeComponents_v1_get _ _ _ _ (proj1 Hwf) Hget).
    pose proof (well_formed_get _ _ _ Hwf Hget) as Hsub.
    destruct (OMap.get earlier k) as [[cp|pv]|]; [assumption| |assumption].
    rewrite stored_v1_namespace. now apply IH.
Qed.

(** The current revision: a leaf component of the later registry wins at
    the top level, whatever the earlier registry holds under its name. *)
Lemma fold_merge_entry_get_other recur (current : Components) k :
  ~ In k (map fst current) ->
  forall acc merged : Components,
    fold_left (Cascade.merge_entry recur) current (Some acc) = Some merged ->
    OMap.get merged k = OMap.get acc k.
Proof.
  induction current as [|[k0 v0] current IH]; intros Hnotin acc merged H.
  - now injection H as <-.
  - cbn [fold_left] in H. simpl in Hnotin.
    destruct (Cascade.merge_entry recur (Some acc) (k0, v0)) as [acc'|] eqn:Hstep.
    + rewrite (IH ltac:(tauto) _ _ H).
      unfold Cascade.merge_entry in Hstep.
      repeat match type of Hstep with
             | Some _ = Some _ => injection Hstep as <-; apply get_set_other; tauto
             | None = Some _ => discriminate
             | context [match ?x with _ => _ end] => destruct x
             end.
    + exfalso. clear - H. induction current as [|kv current IHc]; [discriminate|].
      now apply IHc.
Qed.

Lemma merge_pair_top_leaf_wins fuel (previous current merged : Components) k component :
  distinct_keys current ->
  OMap.get current k = Some (Leaf component) ->
  Cascade.merge_pair fuel previous current = Some merged ->
  OMap.get merged k = Some (Leaf component).
Proof.
  destruct fuel as [|fuel]; [discriminate|]. cbn [Cascade.merge_pair].
  generalize (Cascade.merge_pair fuel) as recur. intros recur.
  unfold distinct_keys. revert previous.
  induction current as [|[k0 v0] current IH]; intros previous Hnd Hget H; [discriminate|].
  inversion Hnd as [|? ? Hnotin Hnd']; subst. cbn [fold_left] in H. simpl in Hget.
  destruct (Cascade.merge_entry recur (Some previous) (k0, v0)) as [acc|] eqn:Hstep.
  2:{ exfalso. clear - H. induction current as [|kv current IHc]; [discriminate|].
      now apply IHc. }
  destruct (String.eqb k0 k) eqn:E.
  - apply String.eqb_eq in E. subst k0. injection Hget as ->.
    rewrite (fold_merge_entry_get_other _ _ _ Hnotin _ _ H).
    unfold Cascade.merge_entry in Hstep.
    destruct (OMap.has previous k); [destruct (OMap.get previous k) as [[|]|]|];
      injection Hstep as <-; apply get_set_same.
  - now apply (IH acc).
Qed.

(** C1 on the code: for two registries that both hold [button] in the
    namespace [ui], [mergeComponents(inherited, loaded)] keeps the button of
    the earlier registry, where the claim has the later one win; the
    earlier revision of the function, on the same registries, returns the
    later one. *)
Theorem mergeComponents_nested_keeps_earlier :
  exists merged,
    Cascade.mergeComponents [Sample.inherited; Sample.loaded] = Ok merged
    /\ find_path Sample.loaded ["ui"; "button"] = Some (Leaf Sample.loaded_button)
    /\ find_path merged ["ui"; "button"] = Some (Leaf Sample.inherited_button)
    /\ find_path (Cascade.mergeComponents_v1 Sample.loaded Sample.inherited) ["ui"; "button"]
       = Some (Leaf Sample.loaded_button)
    /\ Sample.inherited_button <> Sample.loaded_button.
Proof.
  eexists. repeat split; try reflexivity.
  intros H. apply (f_equal (fun component => render component [])) in H. discriminate.
Qed.

(** ** Paths *)

Lemma append_cons c (a b : string) : String c a +:+ b = String c (a +:+ b).
Proof. reflexivity. Qed.

Lemma append_nil_r (a : string) : a +:+ "" = a.
Proof. induction a as [|c a IH]; [reflexivity|]. rewrite append_cons. now f_equal. Qed.

Lemma append_empty (a b : string) : a +:+ b = "" -> a = "" /\ b = "".
Proof. destruct a; [now split | rewrite append_cons; discriminate]. Qed.

Lemma split_not_nil s : Posix.split s <> [].
Proof.
  destruct s as [|c s]; simpl; [discriminate|].
  destruct (Ascii.eqb c Posix.slash); [discriminate|].
  destruct (Posix.split s); discriminate.
Qed.

Lemma split_app_slash a b : Posix.split (a +:+ "/" +:+ b) = Posix.split a ++ Posix.split b.
Proof.
  induction a as [|c a IH]; [reflexivity|].
  rewrite append_cons. cbn [Posix.split]. destruct (Ascii.eqb c Posix.slash).
  - now rewrite IH.
  - rewrite IH. pose proof (split_not_nil a) as Hne.
    destruct (Posix.split a); [contradiction | reflexivity].
Qed.

Lemma split_slash_free s : has_slash s = false -> Posix.split s = [s].
Proof.
  induction s as [|c s IH]; [reflexivity|]. simpl. intros H.
  apply orb_false_iff in H as [Hc Hs]. rewrite Hc. now rewrite IH.
Qed.

Lemma split_elements s : Forall (fun x => has_slash x = false) (Posix.split s).
Proof.
  induction s as [|c s IH]; simpl; [now constructor|].
  destruct (Ascii.eqb c Posix.slash) eqn:Hc; [now constructor|].
  destruct (Posix.split s) as [|h t]; [repeat constructor; simpl; now rewrite Hc|].
  inversion IH; subst. constructor; [simpl; now rewrite Hc | assumption].
Qed.

Lemma norm_step_segment allow stack s :
  path_segment s -> Posix.norm_step allow stack s = s :: stack.
Proof.
  intros (H1 & H2 & H3 & _). unfold Posix.norm_step.
  apply String.eqb_neq in H1, H2, H3. now rewrite H1, H2, H3.
Qed.

Lemma norm_step_normal allow stack s :
  normal_stack allow stack -> normal_stack allow (Posix.norm_step allow stack s).
Proof.
  intros (names & k & -> & Hnames & Hk). unfold Posix.norm_step.
  destruct (String.eqb s "" || String.eqb s ".") eqn:E1; [now exists names, k|].
  apply orb_false_iff in E1 as [E1 E1']. apply String.eqb_neq in E1, E1'.
  destruct (String.eqb s "..") eqn:E2.
  - apply String.eqb_eq in E2. subst s.
    destruct names as [|top names]; simpl.
    + destruct k as [|k]; simpl.
      * destruct allow; [now exists [], 1%nat | now exists [], O].
      * destruct allow; [|now specialize (Hk eq_refl)].
        exists [], (S (S k)). repeat split; [constructor | discriminate].
    + inversion Hnames as [|? ? (_ & _ & Htop) Hrest]; subst.
      apply String.eqb_neq in Htop. rewrite Htop. now exists names, k.
  - apply String.eqb_neq in E2. exists (s :: names), k.
    repeat split; [now constructor | assumption].
Qed.

Lemma fold_norm_step_normal allow segs :
  forall stack, normal_stack allow stack ->
                normal_stack allow (fold_left (Posix.norm_step allow) segs stack).
Proof.
  induction segs as [|s segs IH]; intros stack H; [assumption|].
  simpl. apply IH. now apply norm_step_normal.
Qed.

Lemma fold_norm_step_names allow names :
  Forall own_name names ->
  forall stack, fold_left (Posix.norm_step allow) names stack = rev names ++ stack.
Proof.
  induction 1 as [|s names (H1 & H2 & H3) _ IH]; intros stack; [reflexivity|].
  simpl. rewrite IH, <- app_assoc. simpl. do 2 f_equal.
  unfold Posix.norm_step. apply String.eqb_neq in H1, H2, H3. now rewrite H1, H2, H3.
Qed.

Lemma norm_step_up j :
  Posix.norm_step true (repeat ".." j) ".." = repeat ".." (S j).
Proof. destruct j; reflexivity. Qed.

Lemma fold_norm_step_ups k :
  fold_left (Posix.norm_step true) (repeat ".." k) [] = repeat ".." k.
Proof.
  assert (H : forall j, fold_left (Posix.norm_step true) (repeat ".." k) (repeat ".." j)
                        = repeat ".." (k + j)).
  { induction k as [|k IH]; intros j; [reflexivity|].
    cbn [repeat fold_left]. rewrite norm_step_up, IH. f_equal. lia. }
  specialize (H O). rewrite Nat.add_0_r in H. exact H.
Qed.

Lemma rev_repeat {A : Type} (x : A) k : rev (repeat x k) = repeat x k.
Proof.
  induction k as [|k IH]; [reflexivity|].
  cbn [repeat rev]. rewrite IH. clear IH.
  induction k as [|k IH]; [reflexivity|]. cbn [repeat app]. now rewrite IH.
Qed.

(** Normalizing the segments of a normal stack gives the stack back. *)
Lemma fold_norm_step_rev allow stack :
  normal_stack allow stack -> fold_left (Posix.norm_step allow) (rev stack) [] = stack.
Proof.
  intros (names & k & -> & Hnames & Hk).
  rewrite rev_app_distr, fold_left_app.
  assert (Hups : fold_left (Posix.norm_step allow) (rev (repeat ".." k)) [] = repeat ".." k).
  { destruct allow; [|rewrite (Hk eq_refl); reflexivity].
    rewrite rev_repeat. apply fold_norm_step_ups. }
  rewrite Hups, fold_norm_step_names, rev_involutive; [reflexivity|].
  now apply Forall_rev.
Qed.

Lemma join_snoc l s : Str.join "/" (l ++ [s]) = with_slashes l +:+ s.
Proof.
  induction l as [|x l IH]; [reflexivity|].
  cbn [app with_slashes]. rewrite !append_assoc, <- IH.
  destruct l; reflexivity.
Qed.

Lemma with_slashes_join l : l <> [] -> with_slashes l = Str.join "/" l +:+ "/".
Proof.
  induction l as [|x l IH]; [contradiction|]. intros _.
  destruct l as [|y l]; [reflexivity|].
  cbn [with_slashes] in IH |- *. rewrite IH by discriminate.
  cbn [Str.join]. now rewrite !append_assoc.
Qed.

Lemma split_with_slashes l s :
  Forall (fun x => has_slash x = false) l ->
  Posix.split (with_slashes l +:+ s) = l ++ Posix.split s.
Proof.
  induction 1 as [|x l Hx _ IH]; [reflexivity|].
  cbn [with_slashes]. rewrite !append_assoc, split_app_slash, IH.
  now rewrite (split_slash_free x Hx).
Qed.

Lemma split_join l :
  l <> [] -> Forall (fun x => has_slash x = false) l -> Posix.split (Str.join "/" l) = l.
Proof.
  intros Hne Hall. destruct (exists_last Hne) as (l' & s & ->).
  apply Forall_app in Hall as [Hl' Hs]. inversion Hs; subst.
  rewrite join_snoc, split_with_slashes by assumption.
  now rewrite split_slash_free.
Qed.

Lemma rev_acc_app s acc : Str.rev_acc s acc = Str.rev s +:+ acc.
Proof.
  unfold Str.rev. revert acc. induction s as [|c s IH]; intros acc; [reflexivity|].
  simpl. rewrite (IH (String c "")), IH, append_assoc. reflexivity.
Qed.

Lemma rev_append a b : Str.rev (a +:+ b) = Str.rev b +:+ Str.rev a.
Proof.
  induction a as [|c a IH].
  - now rewrite append_nil_r.
  - rewrite append_cons. unfold Str.rev in *. simpl.
    rewrite rev_acc_app, (rev_acc_app a). unfold Str.rev.
    now rewrite IH, append_assoc.
Qed.

Lemma endsWith_slash a : Str.endsWith (a +:+ "/") "/" = true.
Proof. unfold Str.endsWith. rewrite rev_append. reflexivity. Qed.

Lemma has_slash_rev s : has_slash (Str.rev s) = has_slash s.
Proof.
  assert (Happ : forall a b, has_slash (a +:+ b) = has_slash a || has_slash b).
  { induction a as [|c a IH]; intros b; [reflexivity|].
    rewrite append_cons. simpl. now rewrite IH, orb_assoc. }
  induction s as [|c s IH]; [reflexivity|].
  change (String c s) with (String c "" +:+ s). rewrite rev_append, !Happ, IH.
  simpl. now rewrite orb_false_r, orb_comm.
Qed.

Lemma endsWith_segment a b :
  b <> "" -> has_slash b = false -> Str.endsWith (a +:+ b) "/" = false.
Proof.
  intros Hne Hb. unfold Str.endsWith. rewrite rev_append.
  rewrite <- has_slash_rev in Hb.
  destruct (Str.rev b) as [|c r] eqn:E.
  - exfalso. apply Hne.
    assert (Hlen : forall s, Str.rev s = "" -> s = "").
    { intros [|x s] Hs; [reflexivity|]. exfalso.
      change (String x s) with (String x "" +:+ s) in Hs. rewrite rev_append in Hs.
      apply append_empty in Hs as [_ Hs]. discriminate. }
    now apply Hlen.
  - simpl in Hb. apply orb_false_iff in Hb as [Hc _].
    rewrite append_cons. change (Str.rev "/") with "/".
    unfold Str.startsWith, Posix.slash in *.
    rewrite Ascii.eqb_sym, Hc. reflexivity.
Qed.

Lemma join_nonempty l : l <> [] -> Forall (fun s => s <> "") l -> Str.join "/" l <> "".
Proof.
  intros Hne Hall. destruct (exists_last Hne) as (l' & s & ->).
  apply Forall_app in Hall as [_ Hs]. inversion Hs; subst.
  rewrite join_snoc. intros H. apply append_empty in H as [_ H]. contradiction.
Qed.

Lemma norm_step_Forall (P : string -> Prop) allow stack s :
  Forall P stack -> P s -> Forall P (Posix.norm_step allow stack s).
Proof.
  intros Hst Hs. unfold Posix.norm_step.
  destruct (String.eqb s "" || String.eqb s "."); [assumption|].
  destruct (String.eqb s "..").
  - destruct stack as [|top below].
    + destruct allow; [now constructor | constructor].
    + destruct (String.eqb top "..").
      * destruct allow; [now constructor | assumption].
      * now inversion Hst.
  - now constructor.
Qed.

Lemma fold_norm_step_Forall (P : string -> Prop) allow segs :
  Forall P segs ->
  forall stack, Forall P stack -> Forall P (fold_left (Posix.norm_step allow) segs stack).
Proof.
  induction 1 as [|s segs Hs _ IH]; intros stack Hst; [assumption|].
  simpl. apply IH. now apply norm_step_Forall.
Qed.

Lemma normal_stack_nil allow : normal_stack allow [].
Proof. exists [], O. repeat split. constructor. Qed.

Lemma normal_stack_cons allow s stack :
  path_segment s -> normal_stack allow stack -> normal_stack allow (s :: stack).
Proof.
  intros (H1 & H2 & H3 & _) (names & k & -> & Hnames & Hk).
  exists (s :: names), k. repeat split; [now constructor | assumption].
Qed.

Lemma normal_stack_nonempty allow stack :
  normal_stack allow stack -> Forall (fun s => s <> "") stack.
Proof.
  intros (names & k & -> & Hnames & _). apply Forall_app. split.
  - eapply Forall_impl; [exact Hnames|]. now intros s (H & _).
  - clear. induction k; constructor; [discriminate | assumption].
Qed.

Lemma isAbsolute_segment s x :
  s <> "" -> has_slash s = false -> Posix.isAbsolute (s +:+ x) = false.
Proof.
  intros Hne Hs. destruct s as [|c s]; [contradiction|].
  simpl in Hs. apply orb_false_iff in Hs as [Hc _].
  rewrite append_cons. unfold Posix.isAbsolute, Str.startsWith, Posix.slash in *.
  rewrite Ascii.eqb_sym, Hc. reflexivity.
Qed.

Lemma isAbsolute_app a b : a <> "" -> Posix.isAbsolute (a +:+ b) = Posix.isAbsolute a.
Proof. destruct a as [|c a]; [contradiction | reflexivity]. Qed.

Section rendered_paths.
Variable absolute : bool.
Variable stack : list string.
Hypothesis stack_not_nil : stack <> [].
Hypothesis stack_normal : normal_stack (negb absolute) stack.
Hypothesis stack_slash_free : Forall (fun s => has_slash s = false) stack.

Lemma rev_stack_not_nil : rev stack <> [].
Proof.
  intros H. apply stack_not_nil. apply (f_equal (@rev string)) in H.
  now rewrite rev_involutive in H.
Qed.

Lemma rendered_join_nonempty : Str.join "/" (rev stack) <> "".
Proof.
  apply join_nonempty; [apply rev_stack_not_nil|].
  apply Forall_rev. exact (normal_stack_nonempty _ _ stack_normal).
Qed.

Lemma rendered_nonempty : rendered absolute stack <> "".
Proof.
  unfold rendered. intros H. apply append_empty in H as [_ H].
  now apply rendered_join_nonempty.
Qed.

Lemma rendered_isAbsolute : Posix.isAbsolute (rendered absolute stack) = absolute.
Proof.
  unfold rendered. destruct absolute; [reflexivity|].
  change ("" +:+ Str.join "/" (rev stack)) with (Str.join "/" (rev stack)).
  pose proof rev_stack_not_nil as Hne.
  pose proof (Forall_rev (normal_stack_nonempty _ _ stack_normal)) as Hnon.
  pose proof (Forall_rev stack_slash_free) as Hfree.
  destruct (rev stack) as [|first rest]; [contradiction|].
  inversion Hnon; inversion Hfree; subst.
  destruct rest as [|second rest].
  - cbn [Str.join]. rewrite <- (append_nil_r first). now apply isAbsolute_segment.
  - change (Str.join "/" (first :: second :: rest))
      with (first +:+ "/" +:+ Str.join "/" (second :: rest)).
    now apply isAbsolute_segment.
Qed.

Lemma split_rendered :
  Posix.split (rendered absolute stack) = (if absolute then [""] else []) ++ rev stack.
Proof.
  unfold rendered. destruct absolute.
  - change ("/" +:+ Str.join "/" (rev stack)) with ("" +:+ "/" +:+ Str.join "/" (rev stack)).
    rewrite split_app_slash, split_join;
      [reflexivity | apply rev_stack_not_nil | now apply Forall_rev].
  - change ("" +:+ Str.join "/" (rev stack)) with (Str.join "/" (rev stack)).
    rewrite split_join; [reflexivity | apply rev_stack_not_nil | now apply Forall_rev].
Qed.

(** A normal path followed by slashes normalizes to itself with one
    slash. *)
Lemma normalize_rendered_slashes :
  Posix.normalize (rendered absolute stack +:+ "/" +:+ "/")
  = rendered absolute stack +:+ "/".
Proof.
  unfold Posix.normalize.
  destruct (String.eqb (rendered absolute stack +:+ "/" +:+ "/") "") eqn:E.
  { apply String.eqb_eq in E. apply append_empty in E as [_ E]. discriminate. }
  rewrite (isAbsolute_app _ _ rendered_nonempty), rendered_isAbsolute.
  replace (Str.endsWith (rendered absolute stack +:+ "/" +:+ "/") "/") with true
    by (rewrite <- append_assoc; now rewrite endsWith_slash).
  unfold Posix.normalizeString.
  rewrite split_app_slash, split_rendered, fold_left_app.
  change (Posix.split "/") with [""; ""].
  assert (Hfold : fold_left (Posix.norm_step (negb absolute))
                    ((if absolute then [""] else []) ++ rev stack) [] = stack).
  { rewrite fold_left_app.
    replace (fold_left (Posix.norm_step (negb absolute)) (if absolute then [""] else []) [])
      with (@nil string) by (destruct absolute; reflexivity).
    now apply fold_norm_step_rev. }
  rewrite Hfold. cbn [fold_left].
  change (Posix.norm_step (negb absolute) (Posix.norm_step (negb absolute) stack "") "")
    with stack.
  pose proof rendered_join_nonempty as Hne. apply String.eqb_neq in Hne.
  cbv zeta. rewrite Hne. cbn [andb negb]. rewrite Hne. cbn [andb negb]. unfold rendered.
  destruct absolute; [rewrite append_assoc; reflexivity | reflexivity].
Qed.

Lemma join_rendered_slash :
  Posix.join [rendered absolute stack; "/"] = rendered absolute stack +:+ "/".
Proof.
  unfold Posix.join. cbn [List.filter].
  pose proof rendered_nonempty as Hne. apply String.eqb_neq in Hne. rewrite Hne.
  cbn [negb]. change (negb (String.eqb "/" "")) with true. cbv iota.
  cbn [Str.join]. apply normalize_rendered_slashes.
Qed.

End rendered_paths.

(** A path that ends in a segment normalizes to the normal stack of what
    stands before, with the segment on top. *)
Lemma normalize_snoc j segs slug :
  path_segment slug -> j <> "" -> Str.endsWith j "/" = false ->
  Posix.split j = segs ++ [slug] ->
  Posix.normalize j
  = rendered (Posix.isAbsolute j)
      (slug :: fold_left (Posix.norm_step (negb (Posix.isAbsolute j))) segs []).
Proof.
  intros Hslug Hj Hend Hsplit. unfold Posix.normalize, Posix.normalizeString.
  apply String.eqb_neq in Hj. rewrite Hj, Hend, Hsplit, fold_left_app.
  cbn [fold_left]. rewrite norm_step_segment by assumption.
  set (stack := fold_left (Posix.norm_step (negb (Posix.isAbsolute j))) segs []).
  assert (Hne : String.eqb (Str.join "/" (rev (slug :: stack))) "" = false).
  { apply String.eqb_neq. cbn [rev]. rewrite join_snoc. intros H.
    apply append_empty in H as [_ H]. now destruct Hslug. }
  cbv zeta. rewrite Hne. cbn [andb negb]. rewrite andb_false_r.
  unfold rendered. destruct (Posix.isAbsolute j); reflexivity.
Qed.

(** The join of a parent path and a segment: a normal stack with the
    segment on top. *)
Lemma join_segment parent slug :
  path_segment slug ->
  exists absolute stack,
    Posix.join [parent; slug] = rendered absolute (slug :: stack)
    /\ normal_stack (negb absolute) stack
    /\ Forall (fun s => has_slash s = false) stack.
Proof.
  intros Hslug. pose proof Hslug as (Hne & _ & _ & Hfree).
  unfold Posix.join. cbn [List.filter].
  apply String.eqb_neq in Hne. rewrite Hne. cbn [negb]. apply String.eqb_neq in Hne.
  destruct (String.eqb parent "") eqn:Hparent; cbn [negb]; cbv iota.
  - exists (Posix.isAbsolute slug), [].
    split; [|split; [apply normal_stack_nil | constructor]].
    cbn [Str.join].
    apply (normalize_snoc slug [] slug Hslug Hne).
    + exact (endsWith_segment "" slug Hne Hfree).
    + now apply split_slash_free.
  - apply String.eqb_neq in Hparent.
    change (Str.join "/" [parent; slug]) with (parent +:+ "/" +:+ slug).
    set (j := parent +:+ "/" +:+ slug).
    exists (Posix.isAbsolute j),
      (fold_left (Posix.norm_step (negb (Posix.isAbsolute j))) (Posix.split parent) []).
    split; [|split].
    + apply normalize_snoc; [assumption | | |].
      * subst j. intros H. apply append_empty in H as [H _]. contradiction.
      * subst j. rewrite <- append_assoc. now apply endsWith_segment.
      * subst j. rewrite split_app_slash. now rewrite (split_slash_free slug).
    + apply fold_norm_step_normal, normal_stack_nil.
    + apply fold_norm_step_Forall; [apply split_elements | constructor].
Qed.

Section segment_on_top.
Variable absolute : bool.
Variable stack : list string.
Variable slug : string.
Hypothesis slug_segment : path_segment slug.
Hypothesis stack_normal : normal_stack (negb absolute) stack.
Hypothesis stack_slash_free : Forall (fun s => has_slash s = false) stack.

Local Abbreviation url := (rendered absolute (slug :: stack)).

Lemma top_normal : normal_stack (negb absolute) (slug :: stack).
Proof. now apply normal_stack_cons. Qed.

Lemma top_slash_free : Forall (fun s => has_slash s = false) (slug :: stack).
Proof. constructor; [apply slug_segment | assumption]. Qed.

Lemma split_url :
  Posix.split url = (if absolute then [""] else []) ++ rev stack ++ [slug].
Proof.
  rewrite split_rendered;
    [reflexivity | discriminate | apply top_normal | apply top_slash_free].
Qed.

Lemma last_segment_url :
  Posix.last_segment (rev (Posix.split url))
  = Some ((if absolute then [""] else []) ++ rev stack, slug).
Proof.
  rewrite split_url, app_assoc, rev_app_distr. cbn [rev app Posix.last_segment].
  destruct slug_segment as (Hne & _). apply String.eqb_neq in Hne. rewrite Hne.
  now rewrite rev_involutive.
Qed.

Lemma basename_segment : Posix.basename url = slug.
Proof. unfold Posix.basename. now rewrite last_segment_url. Qed.

Lemma join_url_slash : Posix.join [url; "/"] = url +:+ "/".
Proof.
  apply join_rendered_slash; [discriminate | apply top_normal | apply top_slash_free].
Qed.

Lemma url_isAbsolute : Posix.isAbsolute url = absolute.
Proof.
  apply rendered_isAbsolute; [discriminate | apply top_normal | apply top_slash_free].
Qed.

Lemma url_with_slashes :
  url = (if absolute then "/" else "") +:+ with_slashes (rev stack) +:+ slug.
Proof. unfold rendered. cbn [rev]. now rewrite join_snoc. Qed.

End segment_on_top.

(** The directory of the path, with a slash: the path without its last
    segment.  The one exception is the bare relative segment, whose
    directory is written [./]. *)
Lemma join_dirname_slash absolute stack slug :
  path_segment slug -> normal_stack (negb absolute) stack ->
  Forall (fun s => has_slash s = false) stack ->
  let url := rendered absolute (slug :: stack) in
  Posix.join [Posix.dirname url; "/"] +:+ slug = url
  \/ (Posix.join [Posix.dirname url; "/"] = "./" /\ url = slug).
Proof.
  intros Hslug Hnormal Hfree url. unfold Posix.dirname. subst url.
  rewrite last_segment_url, url_isAbsolute by assumption.
  destruct stack as [|top below].
  - destruct absolute; cbn [rev app andb].
    + left. reflexivity.
    + right. split; reflexivity.
  - left.
    assert (Hne : top :: below <> []) by discriminate.
    assert (Hrev : rev (top :: below) <> [])
      by (intros H; apply (f_equal (@rev string)) in H;
          rewrite rev_involutive in H; discriminate).
    assert (Hdir :
      (match (if absolute then [""] else []) ++ rev (top :: below) with
       | [] => if absolute then "/" else "."
       | before =>
           if absolute && match before with [_] => true | _ => false end then "/"
           else if absolute && match before with
                               | [_; e] => String.eqb e ""
                               | _ => false
                               end then "//"
           else Str.join "/" before
       end) = rendered absolute (top :: below)).
    { unfold rendered.
      pose proof (Forall_rev (normal_stack_nonempty _ _ Hnormal)) as Hnon.
      destruct (rev (top :: below)) as [|first rest]; [contradiction|].
      destruct absolute; cbn [app andb].
      - destruct rest as [|second rest].
        + inversion Hnon as [|? ? Hfirst _]; subst.
          apply String.eqb_neq in Hfirst. rewrite Hfirst. reflexivity.
        + reflexivity.
      - reflexivity. }
    match goal with
    | |- Posix.join [?d; "/"] +:+ slug = _ =>
        replace d with (rendered absolute (top :: below))
    end.
    2:{ rewrite <- Hdir.
        destruct ((if absolute then [""] else []) ++ rev (top :: below)); reflexivity. }
    rewrite join_rendered_slash by assumption.
    rewrite (url_with_slashes absolute (top :: below) slug). unfold rendered.
    rewrite (with_slashes_join _ Hrev). now rewrite !append_assoc.
Qed.


(** ** URL resolution: the pretty-URL policy *)

Section pretty_urls.
Variable call_function : nat -> Page -> Result Value.
Variable getExtension : string -> string.

(** C8, as amended.  For a page without declared [url], without extra
    extension, that is no asset, and whose slug is a path segment, the URL
    is the join of the parent path and the slug followed by [.html] when
    pretty URLs are off; when they are on it is that join followed by a
    slash, except for the slug [index], where it is the join without its
    last segment (written [./] when nothing else is left). *)
Theorem getUrl_pretty_policy (page : Page) (prettyUrls : bool) (parentPath : string) :
  prop (page_data page) "url" = VUndefined ->
  truthy_string (getExtension (src_path (page_src page))) = false ->
  src_asset (page_src page) = false ->
  path_segment (src_slug (page_src page)) ->
  let slug := src_slug (page_src page) in
  let url := Posix.join [parentPath; slug] in
  exists r,
    PageUrl.getUrl call_function getExtension page prettyUrls parentPath = Ok (Url r)
    /\ (prettyUrls = false -> r = url +:+ ".html")
    /\ (prettyUrls = true -> slug <> "index" -> r = url +:+ "/")
    /\ (prettyUrls = true -> slug = "index" ->
        r +:+ "index" = url \/ (r = "./" /\ url = "index")).
Proof.
  intros Hurl Hext Hasset Hslug slug url.
  unfold PageUrl.getUrl. rewrite Hurl. cbn [bind]. rewrite Hext, Hasset.
  fold slug. fold url.
  destruct (join_segment parentPath slug Hslug) as (absolute & stack & Hjoin & Hnormal & Hfree).
  fold url in Hjoin.
  destruct prettyUrls.
  - rewrite Hjoin, (basename_segment absolute stack slug Hslug Hnormal Hfree).
    destruct (String.eqb slug "index") eqn:Hindex.
    + apply String.eqb_eq in Hindex. eexists. split; [reflexivity|].
      split; [discriminate|]. split; [congruence|]. intros _ _.
      pose proof (join_dirname_slash absolute stack slug Hslug Hnormal Hfree) as H.
      cbv zeta in H. rewrite <- Hindex. exact H.
    + apply String.eqb_neq in Hindex. eexists. split; [reflexivity|].
      split; [discriminate|]. split; [|congruence]. intros _ _.
      apply (join_url_slash absolute stack slug Hslug Hnormal Hfree).
  - eexists. split; [reflexivity|]. split; [reflexivity|]. split; discriminate.
Qed.

End pretty_urls.

Lemma getUrl_pretty_policy_witness :
  exists r,
    Sample.getUrl Sample.post_page true "/blog/" = Ok (Url r)
    /\ (true = true -> "post" <> "index" -> r = Posix.join ["/blog/"; "post"] +:+ "/").
Proof.
  destruct (getUrl_pretty_policy (fun _ _ => Ok VUndefined) (fun _ => "")
              Sample.post_page true "/blog/" eq_refl eq_refl eq_refl)
    as (r & Hr & _ & Hpretty & _).
  - split; [discriminate|]. split; [discriminate|]. split; [discriminate | reflexivity].
  - exists r. split; [exact Hr | exact Hpretty].
Defined.

Example getUrl_post_pretty :
  Sample.getUrl Sample.post_page true "/blog/" = Ok (Url "/blog/post/")
  /\ Sample.getUrl Sample.post_page false "/blog/" = Ok (Url "/blog/post.html")
  /\ Sample.getUrl Sample.index_page true "/blog/" = Ok (Url "/blog/").
Proof. repeat split; vm_compute; reflexivity. Qed.

(** C8, as stated, fails for a slug that is no path segment: the page with
    the empty slug under the directory [/index] has another slug than
    [index], and its URL is not the join [/index] with a slash but [/]. *)
Lemma getUrl_empty_slug_under_index :
  Sample.getUrl Sample.unnamed_page true "/index" = Ok (Url "/")
  /\ src_slug (page_src Sample.unnamed_page) <> "index"
  /\ Posix.join ["/index"; src_slug (page_src Sample.unnamed_page)] +:+ "/" = "/index/".
Proof.
  split; [vm_compute; reflexivity|]. split; [discriminate | vm_compute; reflexivity].
Qed.

(** * Further properties of the code *)

(** ** Ordered maps *)

Lemma get_assign {V : Type} (b : list (string * V)) :
  distinct_keys b ->
  forall a k, OMap.get (OMap.assign a b) k = overlay (OMap.get b k) (OMap.get a k).
Proof.
  unfold distinct_keys, OMap.assign.
  induction b as [|[k0 v0] b IH]; intros Hnd a k; [reflexivity|].
  inversion Hnd as [|? ? Hnotin Hnd']; subst. cbn [fold_left fst snd].
  rewrite (IH Hnd'). simpl. destruct (String.eqb k0 k) eqn:E.
  - apply String.eqb_eq in E. subst k0.
    destruct (OMap.get b k) eqn:Hb.
    + exfalso. apply Hnotin. apply in_keys_get. congruence.
    + simpl. apply get_set_same.
  - apply String.eqb_neq in E. now rewrite get_set_other.
Qed.

Lemma has_get {V : Type} (m : list (string * V)) k :
  OMap.has m k = true <-> OMap.get m k <> None.
Proof. unfold OMap.has. destruct (OMap.get m k); split; congruence. Qed.

Lemma has_set {V : Type} (m : list (string * V)) k k' v :
  OMap.has m k = true -> OMap.has (OMap.set m k' v) k = true.
Proof.
  rewrite !has_get. destruct (String.eqb k' k) eqn:E.
  - apply String.eqb_eq in E. subst k'. rewrite get_set_same. discriminate.
  - apply String.eqb_neq in E. now rewrite get_set_other.
Qed.

Lemma has_assign {V : Type} (b a : list (string * V)) k :
  OMap.has a k = true \/ OMap.has b k = true -> OMap.has (OMap.assign a b) k = true.
Proof.
  unfold OMap.assign. revert a.
  induction b as [|[k0 v0] b IH]; intros a [H|H]; cbn [fold_left fst snd].
  - exact H.
  - discriminate.
  - apply IH. left. now apply has_set.
  - apply IH. unfold OMap.has in H. simpl in H. destruct (String.eqb k0 k) eqn:E.
    + left. apply String.eqb_eq in E. subst k0. apply has_get.
      rewrite get_set_same. discriminate.
    + right. exact H.
Qed.

(** ** The cascade merge of data records *)

Section cascade_facts.
Variable date_toString : JSDate.Date -> string.
Variable function_toString : nat -> string.
Variable same_object : Value -> Value -> bool.
Variable host : Host.

Abbreviation SameValueZero := (Merge.SameValueZero same_object).
Abbreviation unique := (Merge.unique same_object).
Abbreviation to_String := (Merge.to_String date_toString function_toString host).
Abbreviation merge_key :=
  (Merge.merge_key date_toString function_toString same_object host).
Abbreviation mergeData :=
  (Merge.mergeData date_toString function_toString same_object host).

Lemma mergeData_pair previous current data :
  mergeData [previous; current] = Ok data ->
  foldM (merge_key previous current) (strategies host previous current)
    (OMap.assign previous current) = Ok data.
Proof.
  simpl. intros H. apply bind_Ok in H as (d & H & Hd). injection Hd as <-. exact H.
Qed.

Lemma merge_key_no_strategy previous current d d' k t :
  merge_strategy t = false -> merge_key previous current d (k, t) = Ok d' -> d' = d.
Proof.
  unfold Merge.merge_key, merge_strategy. intros Ht H.
  destruct t; try (now injection H as <-).
  apply orb_false_iff in Ht as [Ht Hobj]. rewrite Ht, Hobj in H. now injection H as <-.
Qed.

Lemma foldM_merge_key_no_strategy previous current L k :
  (forall t, In (k, t) L -> merge_strategy t = false) ->
  forall d d', foldM (merge_key previous current) L d = Ok d' ->
  OMap.get d' k = OMap.get d k.
Proof.
  induction L as [|[k' t] L IH]; simpl; intros Hno d d' H.
  - now injection H as <-.
  - apply bind_Ok in H as (d1 & H1 & H2).
    rewrite (IH (fun t Hin => Hno t (or_intror Hin)) _ _ H2).
    destruct (String.eqb k' k) eqn:E.
    + apply String.eqb_eq in E. subst k'.
      now rewrite (merge_key_no_strategy _ _ _ _ _ _ (Hno t (or_introl eq_refl)) H1).
    + apply String.eqb_neq in E. eapply merge_key_other; eassumption.
Qed.

(** X1.  A key for which the table of the step names no known strategy is
    laid over: the merged record holds the value of the current record when
    the current record has the key, and the value of the previous record
    otherwise. *)
Theorem mergeData_later_wins (previous current data : Data) (key : string) :
  distinct_keys current ->
  (forall t, In (key, t) (strategies host previous current) -> merge_strategy t = false) ->
  mergeData [previous; current] = Ok data ->
  OMap.get data key = overlay (OMap.get current key) (OMap.get previous key).
Proof.
  intros Hnd Hno H. apply mergeData_pair in H.
  rewrite (foldM_merge_key_no_strategy _ _ _ _ Hno _ _ H). now apply get_assign.
Qed.

(** X2.  The table of strategies is combined for the step only: when the
    current record declares [mergedKeys] (and the table does not merge that
    key itself), the merged record carries the table of the current record
    alone, so a strategy that only the previous record declared is not
    handed on. *)
Theorem mergeData_mergedKeys_replaced (previous current data : Data) (table : Value) :
  distinct_keys current ->
  OMap.get current "mergedKeys" = Some table ->
  (forall t, In ("mergedKeys", t) (strategies host previous current) -> merge_strategy t = false) ->
  mergeData [previous; current] = Ok data ->
  prop data "mergedKeys" = table.
Proof.
  intros Hnd Hdecl Hno H. apply mergeData_pair in H. unfold prop.
  rewrite (foldM_merge_key_no_strategy _ _ _ _ Hno _ _ H), (get_assign _ Hnd), Hdecl.
  reflexivity.
Qed.

Lemma merge_key_has previous current d d' kt k :
  merge_key previous current d kt = Ok d' -> OMap.has d k = true -> OMap.has d' k = true.
Proof.
  destruct kt as [k' t]. unfold Merge.merge_key. intros H Hhas.
  destruct t; try (now injection H as <-).
  destruct (String.eqb s "stringArray" || String.eqb s "array").
  - apply bind_Ok in H as (els & _ & H). injection H as <-. now apply has_set.
  - destruct (String.eqb s "object"); injection H as <-; [now apply has_set | assumption].
Qed.

(** X3.  A merge never drops a key: every key of the previous record and
    every key of the current record is a key of the merged record. *)
Theorem mergeData_keeps_keys (previous current data : Data) (key : string) :
  mergeData [previous; current] = Ok data ->
  OMap.has previous key = true \/ OMap.has current key = true ->
  OMap.has data key = true.
Proof.
  intros H Hkey. apply mergeData_pair in H.
  assert (Hstart : OMap.has (OMap.assign previous current) key = true)
    by now apply has_assign.
  revert H Hstart. generalize (OMap.assign previous current) as d.
  induction (strategies host previous current) as [|kt L IH]; simpl; intros d H Hd.
  - now injection H as <-.
  - apply bind_Ok in H as (d1 & H1 & H2). apply (IH d1 H2).
    eapply merge_key_has; eassumption.
Qed.

(** The reads of the merge in the words of the statements. *)
Lemma element_member (d : Data) (key : string) :
  Merge.element host d key
  = match member host d key with Some v => v | None => VUndefined end.
Proof. unfold Merge.element, member, overlay. now destruct (OMap.get d key). Qed.

Lemma as_sequence_contributed (d : Data) (key : string) :
  Merge.as_sequence host d key = contributed (member host d key).
Proof.
  unfold Merge.as_sequence, Merge.key_in. rewrite element_member.
  unfold OMap.has, member, overlay, contributed.
  destruct (OMap.get d key) as [v|]; [now destruct v|].
  destruct (inherited host key) as [v|]; [now destruct v | reflexivity].
Qed.

Lemma indexed_combine (l : list Value) (i : nat) :
  Merge.indexed (Z.of_nat i) l
  = combine (map (fun i => Str.of_Z (Z.of_nat i)) (seq i (length l))) l.
Proof.
  revert i. induction l as [|x l IH]; intros i; [reflexivity|].
  cbn [Merge.indexed length seq map combine]. f_equal.
  rewrite <- IH. f_equal. lia.
Qed.

Lemma characters_map (s : string) :
  Merge.characters s = map (fun c => VStr (String c EmptyString)) (list_ascii_of_string s).
Proof. induction s as [|c s IH]; [reflexivity|]. simpl. now rewrite IH. Qed.

Lemma spread_copied (d : Data) (key : string) :
  Merge.spread host (Merge.element host d key) = copied host (member host d key).
Proof.
  rewrite element_member. unfold Merge.spread, copied.
  destruct (member host d key) as [[| | | | | | | | | |]|]; try reflexivity.
  - rewrite characters_map. apply (indexed_combine _ 0).
  - apply (indexed_combine _ 0).
Qed.

Lemma to_String_text (v : Value) (s : string) : text_of v = Some s -> to_String v = Ok s.
Proof.
  destruct v as [| |[|]|n|t| | | | | |]; simpl; try discriminate; try (now intros [= <-]).
  unfold Merge.safe_integer. destruct (Z.abs n <=? 9007199254740992); [|discriminate].
  now intros [= <-].
Qed.

Lemma mapM_to_String_texts (l : list Value) (strings : list string) :
  texts_of l = Some strings -> mapM to_String l = Ok strings.
Proof.
  revert strings. induction l as [|v l IH]; intros strings; simpl.
  - now intros [= <-].
  - destruct (text_of v) as [s|] eqn:Hv; [|discriminate].
    destruct (texts_of l) as [ss|]; [|discriminate].
    intros [= <-]. change (Merge.to_String date_toString function_toString host v)
      with (to_String v).
    rewrite (to_String_text _ _ Hv). simpl. now rewrite (IH ss eq_refl).
Qed.

Lemma foldM_merge_key_object previous current L k :
  List.NoDup (map fst L) -> In (k, VStr "object") L ->
  forall d d', foldM (merge_key previous current) L d = Ok d' ->
  OMap.get d' k
  = Some (VObj (OMap.assign (copied host (member host previous k))
                            (copied host (member host current k)))).
Proof.
  induction L as [|[k' t] L IH]; simpl; intros Hnd Hin d d' H; [contradiction|].
  inversion Hnd as [|? ? Hnotin Hnd']; subst.
  apply bind_Ok in H as (d1 & H1 & H2).
  destruct Hin as [[= -> ->] | Hin].
  - rewrite (foldM_merge_key_other _ _ _ _ _ _ _ _ Hnotin _ _ H2).
    unfold Merge.merge_key in H1. simpl in H1. injection H1 as <-.
    rewrite !spread_copied. apply get_set_same.
  - now apply (IH Hnd' Hin d1 d').
Qed.

(** X4.  A key declared as [object] holds the shallow merge of the two
    values, each the record's own or else the one it inherits: a field is
    read from the value of the current record when that value has it, and
    from the value of the previous record otherwise.  A value that is no
    object enters with the properties a spread copies (the elements of an
    array and the characters of a string under their indices, the two names
    of the node of a component proxy, each [undefined]), an absent one with
    none. *)
Theorem mergeData_object (previous current data : Data) (key : string) :
  distinct_keys (Merge.spread host (prop previous "mergedKeys")) ->
  OMap.get (strategies host previous current) key = Some (VStr "object") ->
  distinct_keys (copied host (member host current key)) ->
  mergeData [previous; current] = Ok data ->
  exists fields,
    OMap.get data key = Some (VObj fields)
    /\ forall field,
        OMap.get fields field
        = overlay (OMap.get (copied host (member host current key)) field)
                  (OMap.get (copied host (member host previous key)) field).
Proof.
  intros Hkeys Hdecl Hcur H. apply mergeData_pair in H.
  pose proof (distinct_keys_assign _ (Merge.spread host (prop current "mergedKeys")) Hkeys)
    as Hnd.
  eexists. split.
  - exact (foldM_merge_key_object previous current _ key Hnd
             (get_In_distinct _ _ _ Hnd Hdecl) _ _ H).
  - intros field. now apply get_assign.
Qed.






Lemma first_seen_In (l : list string) (x : string) : In x (first_seen l) <-> In x l.
Proof.
  induction l as [|y l IH]; [reflexivity|]. cbn [first_seen].
  split.
  - intros [<-|Hin]; [now left|]. apply filter_In in Hin as [Hin _]. right. now apply IH.
  - intros [<-|Hin]; [now left|]. destruct (String.eqb x y) eqn:E.
    + apply String.eqb_eq in E. now left.
    + right. apply filter_In. split; [now apply IH | now rewrite E].
Qed.

Lemma first_seen_NoDup (l : list string) : List.NoDup (first_seen l).
Proof.
  induction l as [|y l IH]; cbn [first_seen]; constructor.
  - intros Hin. apply filter_In in Hin as [_ Hne]. now rewrite String.eqb_refl in Hne.
  - now apply List.NoDup_filter.
Qed.

(** X6.  A key declared as [stringArray] holds the texts of the elements of
    the previous value followed by those of the current one, each text once,
    where it is first seen.  A value is the record's own or else the one it
    inherits; an array gives its elements, another value is one element,
    and a record without value gives none.  The text of a string is the
    string, that of a safe integer its decimal digits, and [true], [false],
    [null] and [undefined] print their names. *)
Theorem mergeData_stringArray_set (previous current data : Data) (key : string)
  (strings : list string) :
  distinct_keys (Merge.spread host (prop previous "mergedKeys")) ->
  OMap.get (strategies host previous current) key = Some (VStr "stringArray") ->
  texts_of (contributed (member host previous key) ++ contributed (member host current key))
  = Some strings ->
  mergeData [previous; current] = Ok data ->
  OMap.get data key = Some (VArr (map VStr (first_seen strings)))
  /\ List.NoDup (first_seen strings)
  /\ forall s, In s (first_seen strings) <-> In s strings.
Proof.
  intros Hkeys Hdecl Htexts H. apply mergeData_pair in H.
  pose proof (distinct_keys_assign _ (Merge.spread host (prop current "mergedKeys")) Hkeys)
    as Hnd.
  destruct (foldM_merge_key_stringArray date_toString function_toString same_object host
              previous current _ key Hnd (get_In_distinct _ _ _ Hnd Hdecl) _ _ H)
    as (strings' & Hs & Hget).
  rewrite !as_sequence_contributed, (mapM_to_String_texts _ _ Htexts) in Hs.
  injection Hs as <-. split.
  - now rewrite <- (unique_strings same_object).
  - split; [apply first_seen_NoDup | intros s; apply first_seen_In].
Qed.

End cascade_facts.

Example mergeData_strategies :
  Sample.mergeData [Site.declaring; Site.following] = Ok Site.merged.
Proof. vm_compute. reflexivity. Qed.

Lemma mergeData_later_wins_witness :
  exists data,
    Sample.mergeData
      [ [("mergedKeys", VObj [("tags", VStr "stringArray")]); ("title", VStr "a");
         ("lang", VStr "en")];
        [("title", VStr "b")] ] = Ok data
    /\ OMap.get data "title" = Some (VStr "b")
    /\ OMap.get data "lang" = Some (VStr "en").
Proof.
  eexists. split; [vm_compute; reflexivity|]. split.
  - apply (mergeData_later_wins (fun _ => "") Sample.function_toString (fun _ _ => false)
             Sample.host
             [("mergedKeys", VObj [("tags", VStr "stringArray")]); ("title", VStr "a");
              ("lang", VStr "en")]
             [("title", VStr "b")] _ "title").
    + unfold distinct_keys. simpl. repeat constructor. intros [].
    + intros t Hin. vm_compute in Hin. destruct Hin as [Hin|[]]. discriminate Hin.
    + vm_compute. reflexivity.
  - reflexivity.
Defined.

Lemma mergeData_mergedKeys_replaced_witness :
  exists data,
    Sample.mergeData
      [ [("mergedKeys", VObj [("tags", VStr "stringArray")]); ("tags", VArr [VStr "a"])];
        [("mergedKeys", VObj [("authors", VStr "array")])] ] = Ok data
    /\ prop data "mergedKeys" = VObj [("authors", VStr "array")].
Proof.
  eexists. split; [vm_compute; reflexivity|].
  apply (mergeData_mergedKeys_replaced (fun _ => "") Sample.function_toString
           (fun _ _ => false) Sample.host
           [("mergedKeys", VObj [("tags", VStr "stringArray")]); ("tags", VArr [VStr "a"])]
           [("mergedKeys", VObj [("authors", VStr "array")])]).
  - unfold distinct_keys. simpl. repeat constructor. intros [].
  - reflexivity.
  - intros t Hin. vm_compute in Hin. destruct Hin as [Hin|[Hin|[]]]; discriminate Hin.
  - vm_compute. reflexivity.
Defined.

Lemma mergeData_keeps_keys_witness :
  OMap.has [("title", VStr "b"); ("lang", VStr "en")] "lang" = true.
Proof.
  apply (mergeData_keeps_keys (fun _ => "") Sample.function_toString (fun _ _ => false)
           Sample.host
           [("title", VStr "a"); ("lang", VStr "en")] [("title", VStr "b")]).
  - vm_compute. reflexivity.
  - left. reflexivity.
Defined.

Lemma mergeData_object_witness :
  exists fields,
    OMap.get Site.merged "comp" = Some (VObj fields)
    /\ OMap.get fields "_components" = Some VUndefined
    /\ OMap.get fields "_proxies" = Some VUndefined
    /\ OMap.get fields "button" = Some (VFun 7).
Proof.
  destruct (mergeData_object (fun _ => "") Sample.function_toString (fun _ _ => false)
              Sample.host Site.declaring Site.following Site.merged "comp")
    as (fields & Hget & Hfields).
  - unfold distinct_keys. simpl. repeat constructor; simpl; intuition discriminate.
  - reflexivity.
  - unfold distinct_keys. simpl. repeat constructor. intros [].
  - vm_compute. reflexivity.
  - exists fields. split; [exact Hget|].
    rewrite !Hfields. repeat split; reflexivity.
Defined.


Lemma mergeData_stringArray_set_witness :
  OMap.get Site.merged "tags"
  = Some (VArr (map VStr (first_seen ["a"; "1"; "a"; "true"; "null"]))).
Proof.
  apply (mergeData_stringArray_set (fun _ => "") Sample.function_toString
           (fun _ _ => false) Sample.host Site.declaring Site.following Site.merged "tags").
  - unfold distinct_keys. simpl. repeat constructor; simpl; intuition discriminate.
  - reflexivity.
  - reflexivity.
  - vm_compute. reflexivity.
Defined.

(** ** The merge of component registries *)

Lemma fold_merge_entry_None recur (current : Components) :
  fold_left (Cascade.merge_entry recur) current None = None.
Proof. induction current as [|kv current IH]; [reflexivity | exact IH]. Qed.

Lemma fold_merge_entry_mono (recur recur' : Components -> Components -> option Components) :
  (forall a b r, recur a b = Some r -> recur' a b = Some r) ->
  forall (current acc merged : Components),
    fold_left (Cascade.merge_entry recur) current (Some acc) = Some merged ->
    fold_left (Cascade.merge_entry recur') current (Some acc) = Some merged.
Proof.
  intros Hsub. induction current as [|[k v] current IH]; intros acc merged H; [exact H|].
  cbn [fold_left] in H |- *.
  destruct (Cascade.merge_entry recur (Some acc) (k, v)) as [acc'|] eqn:Hstep;
    [|now rewrite fold_merge_entry_None in H].
  assert (Hstep' : Cascade.merge_entry recur' (Some acc) (k, v) = Some acc').
  { unfold Cascade.merge_entry in Hstep |- *.
    destruct (OMap.has acc k); [|exact Hstep].
    destruct (OMap.get acc k) as [[cp|pv]|]; try exact Hstep.
    destruct v as [cv|mv]; [exact Hstep|].
    destruct (recur mv pv) as [r|] eqn:Hr; [|discriminate].
    now rewrite (Hsub _ _ _ Hr). }
  rewrite Hstep'. now apply IH.
Qed.

Lemma merge_pair_more_fuel n :
  forall a b r, Cascade.merge_pair n a b = Some r -> Cascade.merge_pair (S n) a b = Some r.
Proof.
  induction n as [|n IH]; intros a b r H; [discriminate|].
  cbn [Cascade.merge_pair] in H |- *.
  exact (fold_merge_entry_mono _ _ IH _ _ _ H).
Qed.

Lemma merge_pair_fuel_le n m a b r :
  (n <= m)%nat -> Cascade.merge_pair n a b = Some r -> Cascade.merge_pair m a b = Some r.
Proof.
  induction 1 as [|m Hle IH]; intros H; [exact H|].
  apply merge_pair_more_fuel. now apply IH.
Qed.

(** A merge of two registries does not depend on the fuel, once it is
    enough. *)
Lemma merge_pair_mergeComponents n a b r :
  Cascade.merge_pair n a b = Some r -> Cascade.mergeComponents [a; b] = Ok r.
Proof.
  intros H. unfold Cascade.mergeComponents. cbn [fold_left].
  set (fuel := S (Cascade.depth_all [a; b])).
  destruct (merge_pair_enough (Cascade.depth_all [a; b]) a b) as (r' & Hr' & _);
    [simpl; lia | simpl; lia |].
  fold fuel in Hr'. rewrite Hr'. f_equal.
  pose proof (merge_pair_fuel_le _ (Nat.max n fuel) _ _ _ (Nat.le_max_l n fuel) H) as H1.
  pose proof (merge_pair_fuel_le _ (Nat.max n fuel) _ _ _ (Nat.le_max_r n fuel) Hr') as H2.
  congruence.
Qed.

Lemma mergeComponents_merge_pair a b r :
  Cascade.mergeComponents [a; b] = Ok r ->
  fold_left (Cascade.merge_entry (Cascade.merge_pair (Cascade.depth_all [a; b]))) b (Some a)
  = Some r.
Proof.
  unfold Cascade.mergeComponents. cbn [fold_left Cascade.merge_pair].
  destruct (fold_left _ b (Some a)) as [m|]; [now intros [= ->] | discriminate].
Qed.

Lemma reduce_merge_pair_depth fuel (rest : list Components) :
  Forall (fun m => Cascade.depth_of m <= fuel)%nat rest ->
  forall first : Components,
    (Cascade.depth_of first <= fuel)%nat ->
    exists merged,
      fold_left (fun (acc : option Components) (current : Components) =>
                   match acc with
                   | Some previous => Cascade.merge_pair (S fuel) previous current
                   | None => None
                   end)
                rest (Some first) = Some merged
      /\ (Cascade.depth_of merged <= fuel)%nat.
Proof.
  induction 1 as [|current rest Hc _ IH]; intros first Hfirst; simpl.
  - eauto.
  - destruct (merge_pair_enough fuel first current Hfirst Hc) as (merged & Hm & Hd).
    cbn [Cascade.merge_pair] in Hm. rewrite Hm. now apply IH.
Qed.

(** X7.  [mergeComponents] ends on every sequence of registries: it throws
    [TypeError] on the empty sequence and returns a registry on every other
    one, and the registry it returns nests no deeper than the deepest
    argument. *)
Theorem mergeComponents_returns :
  (exists msg, Cascade.mergeComponents [] = Err (TypeError msg))
  /\ forall first rest,
      exists merged,
        Cascade.mergeComponents (first :: rest) = Ok merged
        /\ (Cascade.depth_of merged <= Cascade.depth_all (first :: rest))%nat.
Proof.
  split; [eexists; reflexivity|]. intros first rest.
  unfold Cascade.mergeComponents.
  pose proof (depth_all_bound (first :: rest)) as Hall.
  inversion Hall as [|? ? Hfirst Hrest]; subst.
  destruct (reduce_merge_pair_depth _ rest Hrest first Hfirst) as (merged & Hm & Hd).
  cbn [Cascade.merge_pair] in Hm |- *. rewrite Hm. eauto.
Qed.

Lemma merge_entry_get_same recur (acc acc' : Components) k value :
  Cascade.merge_entry recur (Some acc) (k, value) = Some acc' ->
  match value, OMap.get acc k with
  | Namespace v, Some (Namespace pv) =>
      exists nested, recur v pv = Some nested /\ OMap.get acc' k = Some (Namespace nested)
  | _, _ => OMap.get acc' k = Some value
  end.
Proof.
  unfold Cascade.merge_entry, OMap.has.
  destruct (OMap.get acc k) as [[cp|pv]|]; destruct value as [cv|v]; intros H;
    try (injection H as <-; apply get_set_same).
  destruct (recur v pv) as [nested|]; [|discriminate].
  injection H as <-. exists nested. split; [reflexivity | apply get_set_same].
Qed.

Lemma merge_entry_get_other recur (acc acc' : Components) k k' value :
  Cascade.merge_entry recur (Some acc) (k', value) = Some acc' -> k' <> k ->
  OMap.get acc' k = OMap.get acc k.
Proof.
  unfold Cascade.merge_entry. intros H Hne.
  repeat match type of H with
         | Some _ = Some _ => injection H as <-; now apply get_set_other
         | None = Some _ => discriminate
         | context [match ?x with _ => _ end] => destruct x
         end.
Qed.

Lemma fold_merge_entry_get recur (current : Components) k value :
  distinct_keys current -> OMap.get current k = Some value ->
  forall acc merged : Components,
    fold_left (Cascade.merge_entry recur) current (Some acc) = Some merged ->
    match value, OMap.get acc k with
    | Namespace v, Some (Namespace pv) =>
        exists nested, recur v pv = Some nested /\ OMap.get merged k = Some (Namespace nested)
    | _, _ => OMap.get merged k = Some value
    end.
Proof.
  unfold distinct_keys.
  induction current as [|[k0 v0] current IH]; intros Hnd Hget acc merged H; [discriminate|].
  inversion Hnd as [|? ? Hnotin Hnd']; subst. cbn [fold_left] in H. simpl in Hget.
  destruct (Cascade.merge_entry recur (Some acc) (k0, v0)) as [acc'|] eqn:Hstep;
    [|now rewrite fold_merge_entry_None in H].
  destruct (String.eqb k0 k) eqn:E.
  - apply String.eqb_eq in E. subst k0. injection Hget as ->.
    rewrite (fold_merge_entry_get_other _ _ _ Hnotin _ _ H).
    now apply merge_entry_get_same.
  - apply String.eqb_neq in E.
    rewrite <- (merge_entry_get_other _ _ _ _ _ _ Hstep E).
    now apply (IH Hnd' Hget acc').
Qed.

(** X8.  The merge of two registries, key by key.  A key the later registry
    lacks keeps what the earlier one has.  A key of the later registry takes
    the later value, with one exception: when both registries hold a
    namespace under the key, the result holds the merge of the two in which
    the namespace of the later registry is the base and the namespace of the
    earlier one is laid over it. *)
Theorem mergeComponents_per_key (earlier later merged : Components) (key : string) :
  distinct_keys later ->
  Cascade.mergeComponents [earlier; later] = Ok merged ->
  match OMap.get later key, OMap.get earlier key with
  | None, _ => OMap.get merged key = OMap.get earlier key
  | Some (Namespace v), Some (Namespace pv) =>
      exists nested,
        Cascade.mergeComponents [v; pv] = Ok nested
        /\ OMap.get merged key = Some (Namespace nested)
  | Some value, _ => OMap.get merged key = Some value
  end.
Proof.
  intros Hnd H. apply mergeComponents_merge_pair in H.
  destruct (OMap.get later key) as [value|] eqn:Hlater.
  - pose proof (fold_merge_entry_get _ _ _ _ Hnd Hlater _ _ H) as Hk.
    destruct value as [c|v]; [now destruct (OMap.get earlier key) as [[|]|]|].
    destruct (OMap.get earlier key) as [[cp|pv]|]; try exact Hk.
    destruct Hk as (nested & Hnested & Hk). exists nested. split; [|exact Hk].
    now apply merge_pair_mergeComponents in Hnested.
  - refine (fold_merge_entry_get_other _ later key _ _ _ H).
    intros Hin. apply in_keys_get in Hin. congruence.
Qed.

Lemma has_set_eq {V : Type} (m : list (string * V)) k k' v :
  OMap.has (OMap.set m k' v) k = OMap.has m k || String.eqb k' k.
Proof.
  unfold OMap.has. destruct (String.eqb k' k) eqn:E.
  - apply String.eqb_eq in E. subst k'. rewrite get_set_same. now rewrite orb_true_r.
  - apply String.eqb_neq in E. rewrite get_set_other by assumption. now rewrite orb_false_r.
Qed.

Lemma merge_entry_keys recur (acc acc' : Components) k value :
  Cascade.merge_entry recur (Some acc) (k, value) = Some acc' ->
  exists stored, acc' = OMap.set acc k stored.
Proof.
  unfold Cascade.merge_entry. intros H.
  repeat match type of H with
         | Some _ = Some _ => injection H as <-; eexists; reflexivity
         | None = Some _ => discriminate
         | context [match ?x with _ => _ end] => destruct x
         end.
Qed.

Lemma fold_merge_entry_keys recur (current : Components) :
  forall acc merged : Components,
    distinct_keys acc ->
    fold_left (Cascade.merge_entry recur) current (Some acc) = Some merged ->
    distinct_keys merged
    /\ forall k, OMap.has merged k = OMap.has acc k || OMap.has current k.
Proof.
  induction current as [|[k0 v0] current IH]; intros acc merged Hnd H.
  - injection H as <-. split; [exact Hnd | intros k; now rewrite orb_false_r].
  - cbn [fold_left] in H.
    destruct (Cascade.merge_entry recur (Some acc) (k0, v0)) as [acc'|] eqn:Hstep;
      [|now rewrite fold_merge_entry_None in H].
    apply merge_entry_keys in Hstep as (stored & ->).
    destruct (IH _ _ (distinct_keys_set _ k0 stored Hnd) H) as (Hm & Hhas).
    split; [exact Hm|]. intros k. rewrite Hhas, has_set_eq, <- orb_assoc. f_equal.
    unfold OMap.has. simpl. now destruct (String.eqb k0 k).
Qed.

(** X9.  The merge of two registries is a map again, with the keys of
    both: the keys of the result are pairwise distinct when those of the
    earlier registry are, and a key is in the result exactly when one of the
    two registries has it. *)
Theorem mergeComponents_keys (earlier later merged : Components) :
  distinct_keys earlier ->
  Cascade.mergeComponents [earlier; later] = Ok merged ->
  distinct_keys merged
  /\ forall key, OMap.has merged key = OMap.has earlier key || OMap.has later key.
Proof.
  intros Hnd H. apply mergeComponents_merge_pair in H.
  exact (fold_merge_entry_keys _ _ _ _ Hnd H).
Qed.

(** X10.  The earlier revision of [mergeComponents], key by key: as in the
    current one, except that two namespaces under the same key are merged
    the other way round, the namespace of the later registry being laid over
    that of the earlier one. *)
Theorem mergeComponents_v1_per_key (later earlier : Components) (key : string) :
  distinct_keys later ->
  match OMap.get later key, OMap.get earlier key with
  | None, _ =>
      OMap.get (Cascade.mergeComponents_v1 later earlier) key = OMap.get earlier key
  | Some (Namespace v), Some (Namespace pv) =>
      OMap.get (Cascade.mergeComponents_v1 later earlier) key
      = Some (Namespace (Cascade.mergeComponents_v1 v pv))
  | Some value, _ =>
      OMap.get (Cascade.mergeComponents_v1 later earlier) key = Some value
  end.
Proof.
  intros Hnd. destruct (OMap.get later key) as [value|] eqn:Hlater.
  - rewrite (mergeComponents_v1_get _ _ _ _ Hnd Hlater).
    destruct value as [c|v]; destruct (OMap.get earlier key) as [[cp|pv]|];
      try reflexivity.
    now rewrite stored_v1_namespace.
  - apply mergeComponents_v1_get_other. intros Hin. apply in_keys_get in Hin. congruence.
Qed.

Lemma mergeComponents_per_key_witness :
  exists nested,
    Cascade.mergeComponents
      [[("button", Leaf Sample.loaded_button)]; [("button", Leaf Sample.inherited_button)]]
    = Ok nested
    /\ OMap.get [("ui", Namespace [("button", Leaf Sample.inherited_button)])] "ui"
       = Some (Namespace nested).
Proof.
  apply (mergeComponents_per_key Sample.inherited Sample.loaded
           [("ui", Namespace [("button", Leaf Sample.inherited_button)])] "ui").
  - unfold distinct_keys. simpl. repeat constructor. intros [].
  - reflexivity.
Defined.

Lemma mergeComponents_keys_witness :
  distinct_keys [("ui", Namespace [("button", Leaf Sample.inherited_button)])]
  /\ forall key,
      OMap.has [("ui", Namespace [("button", Leaf Sample.inherited_button)])] key
      = OMap.has Sample.inherited key || OMap.has Sample.loaded key.
Proof.
  apply (mergeComponents_keys Sample.inherited Sample.loaded).
  - unfold distinct_keys. simpl. repeat constructor. intros [].
  - reflexivity.
Defined.

Lemma mergeComponents_v1_per_key_witness :
  OMap.get (Cascade.mergeComponents_v1 Sample.loaded Sample.inherited) "ui"
  = Some (Namespace (Cascade.mergeComponents_v1 [("button", Leaf Sample.loaded_button)]
                       [("button", Leaf Sample.inherited_button)])).
Proof.
  apply (mergeComponents_v1_per_key Sample.loaded Sample.inherited "ui").
  unfold distinct_keys. simpl. repeat constructor. intros [].
Defined.

(** ** The component proxy: what an access keeps and records *)

Example toLowerCase_latin :
  Str.toLowerCase (Site.E_acute +:+ "Button") = Site.e_acute +:+ "button"
  /\ Str.toLowerCase (String (ascii_of_nat 215) "") = String (ascii_of_nat 215) "".
Proof. split; reflexivity. Qed.

Lemma store_ok_empty : store_ok Proxy.empty_store.
Proof. intros p target key q Hp. destruct p; discriminate Hp. Qed.

Lemma store_ok_toProxy components extra st :
  store_ok st -> store_ok (snd (Proxy.toProxy components extra st)).
Proof.
  intros Hok p target key q Hp Hq. simpl in Hp.
  apply lookup_snoc_Some in Hp as [[Hlt Hp] | [_ <-]]; [|discriminate Hq].
  destruct (Hok _ _ _ _ Hp Hq) as (m & node & Hm & Hnode & Hc & He).
  exists m, node. repeat split; try assumption. simpl. now apply lookup_app_l_Some.
Qed.

Section proxy_facts.
Variable host : Host.

(** The names that the [get] trap looks up as components are those that
    the node neither has nor inherits. *)
Lemma in_target_component_name (name : string) :
  Proxy.in_target host name = false <-> component_name host name.
Proof.
  unfold Proxy.in_target, component_name. rewrite !orb_false_iff, !String.eqb_neq.
  destruct (inherited host name); split; intros H; intuition congruence.
Qed.

(** The nodes of a store survive an access, with their registry, their
    sink flag and what their memo table holds. *)
Lemma get_nodes_kept st p name a st1 :
  Proxy.get host p name st = Ok (a, st1) ->
  forall q node,
    Proxy.nodes st !! q = Some node ->
    exists node',
      Proxy.nodes st1 !! q = Some node'
      /\ Proxy.n_components node' = Proxy.n_components node
      /\ Proxy.n_extra node' = Proxy.n_extra node
      /\ forall k r, OMap.get (Proxy.n_proxies node) k = Some r ->
                     OMap.get (Proxy.n_proxies node') k = Some r.
Proof.
  unfold Proxy.get. intros H q node Hnode.
  destruct (Proxy.nodes st !! p) as [target|] eqn:Hp; [|discriminate].
  destruct name as [name|n]; [|injection H as <- <-; eauto 10].
  destruct (Proxy.in_target host name); [injection H as <- <-; eauto 10|].
  destruct (OMap.get (Proxy.n_proxies target) (Str.toLowerCase name)) as [r|] eqn:Hmemo;
    [injection H as <- <-; eauto 10|].
  destruct (OMap.get (Proxy.n_components target) (Str.toLowerCase name))
    as [[component|component]|]; [| |discriminate].
  - injection H as <- <-. simpl. eauto 10.
  - simpl in H. injection H as <- <-. simpl.
    destruct (decide (p = q)) as [->|Hne].
    + assert (node = target) as -> by congruence.
      eexists. split.
      * apply list_lookup_insert_eq. apply lookup_lt_Some in Hp. rewrite length_app. lia.
      * simpl. repeat split. intros k r Hk.
        destruct (String.eqb (Str.toLowerCase name) k) eqn:E.
        -- apply String.eqb_eq in E. subst k. congruence.
        -- apply String.eqb_neq in E. now rewrite get_set_other.
    + exists node. rewrite list_lookup_insert_ne by assumption.
      split; [now apply lookup_app_l_Some | auto].
Qed.

Lemma store_ok_get st p name a st1 :
  store_ok st -> Proxy.get host p name st = Ok (a, st1) -> store_ok st1.
Proof.
  intros Hok H. pose proof (get_nodes_kept _ _ _ _ _ H) as Hkept.
  unfold Proxy.get in H.
  destruct (Proxy.nodes st !! p) as [target|] eqn:Hp; [|discriminate].
  destruct name as [name|n]; [|now injection H as <- <-].
  destruct (Proxy.in_target host name); [now injection H as <- <-|].
  destruct (OMap.get (Proxy.n_proxies target) (Str.toLowerCase name)) as [r|] eqn:Hmemo;
    [now injection H as <- <-|].
  destruct (OMap.get (Proxy.n_components target) (Str.toLowerCase name))
    as [[component|component]|] eqn:Hc; [| |discriminate].
  - injection H as <- <-. exact Hok.
  - simpl in H. injection H as <- <-.
    set (fresh := {| Proxy.n_components := component; Proxy.n_proxies := [];
                     Proxy.n_extra := Proxy.n_extra target |}) in *.
    assert (Hlt : (p < length (Proxy.nodes st))%nat) by now apply lookup_lt_Some in Hp.
    assert (Hold : forall m node0 q0,
               Proxy.nodes st !! q0 = Some node0 -> Proxy.n_components node0 = m ->
               forall e, Proxy.n_extra node0 = e ->
               exists m' node',
                 m = m'
                 /\ <[p := {| Proxy.n_components := Proxy.n_components target;
                              Proxy.n_proxies :=
                                OMap.set (Proxy.n_proxies target) (Str.toLowerCase name)
                                  (length (Proxy.nodes st));
                              Proxy.n_extra := Proxy.n_extra target |}]>
                      (Proxy.nodes st ++ [fresh]) !! q0 = Some node'
                 /\ Proxy.n_components node' = m' /\ Proxy.n_extra node' = e).
    { intros m node0 q0 Hq0 Hm e He.
      destruct (Hkept q0 node0 Hq0) as (node' & Hn' & Hc' & He' & _).
      exists m, node'. simpl in Hn'. repeat split; [exact Hn' | congruence | congruence]. }
    intros p0 target0 key0 q0 Hp0 Hq0. simpl in Hp0 |- *.
    destruct (decide (p = p0)) as [<-|Hne].
    + rewrite list_lookup_insert_eq in Hp0 by (rewrite length_app; lia).
      injection Hp0 as <-. simpl in Hq0 |- *.
      destruct (String.eqb (Str.toLowerCase name) key0) eqn:E.
      * apply String.eqb_eq in E. subst key0. rewrite get_set_same in Hq0.
        injection Hq0 as <-. exists component, fresh. split; [exact Hc|]. split; [|auto].
        rewrite list_lookup_insert_ne by lia. now apply list_lookup_middle.
      * apply String.eqb_neq in E. rewrite get_set_other in Hq0 by assumption.
        destruct (Hok _ _ _ _ Hp Hq0) as (m & node0 & Hm & Hnode0 & Hc0 & He0).
        destruct (Hold m node0 q0 Hnode0 Hc0 _ He0) as (m' & node' & <- & Hn' & Hc' & He').
        exists m, node'. auto.
    + rewrite list_lookup_insert_ne in Hp0 by assumption.
      apply lookup_snoc_Some in Hp0 as [[_ Hp0] | [_ <-]]; [|discriminate Hq0].
      destruct (Hok _ _ _ _ Hp0 Hq0) as (m & node0 & Hm & Hnode0 & Hc0 & He0).
      destruct (Hold m node0 q0 Hnode0 Hc0 _ He0) as (m' & node' & <- & Hn' & Hc' & He').
      exists m, node'. auto.
Qed.

(** X11.  An access through a proxy forgets nothing.  Every proxy keeps its
    registry, its sink flag and the nested proxies it has handed out; every
    function object handed out keeps rendering as before; and the code
    recorded for the other components stays in the sink. *)
Theorem proxy_access_keeps (st : Proxy.Store) (p : nat) (name : Proxy.PropertyKey)
  (a : Proxy.Accessed) (st1 : Proxy.Store) :
  Proxy.get host p name st = Ok (a, st1) ->
  (forall q node,
      Proxy.nodes st !! q = Some node ->
      exists node',
        Proxy.nodes st1 !! q = Some node'
        /\ Proxy.n_components node' = Proxy.n_components node
        /\ Proxy.n_extra node' = Proxy.n_extra node
        /\ forall k r, OMap.get (Proxy.n_proxies node) k = Some r ->
                       OMap.get (Proxy.n_proxies node') k = Some r)
  /\ (forall f props text, Proxy.call f props st = Some text ->
                           Proxy.call f props st1 = Some text)
  /\ (forall type key text,
         (forall n, name = Proxy.KString n -> Str.toLowerCase n <> key) ->
         recorded (Proxy.extraCode st) type key = Some text ->
         recorded (Proxy.extraCode st1) type key = Some text).
Proof.
  intros H. split; [exact (get_nodes_kept _ _ _ _ _ H)|].
  unfold Proxy.get in H.
  destruct (Proxy.nodes st !! p) as [target|] eqn:Hp; [|discriminate].
  destruct name as [name|n]; [|injection H as <- <-; auto].
  destruct (Proxy.in_target host name); [injection H as <- <-; auto|].
  destruct (OMap.get (Proxy.n_proxies target) (Str.toLowerCase name)) as [r|];
    [injection H as <- <-; auto|].
  destruct (OMap.get (Proxy.n_components target) (Str.toLowerCase name))
    as [[component|component]|]; [| |discriminate].
  - injection H as <- <-. split.
    + unfold Proxy.call. simpl. intros f props text Hf.
      destruct (Proxy.callables st !! f) as [c|] eqn:Hc; [|discriminate].
      now rewrite (lookup_app_l_Some _ _ _ _ Hc).
    + simpl. intros type key text Hkey Hrec. specialize (Hkey name eq_refl).
      destruct (Proxy.n_extra target); [|exact Hrec].
      now rewrite !recorded_save_code_other by (right; exact Hkey).
  - simpl in H. injection H as <- <-. simpl. auto.
Qed.

(** X12.  An access yields a function object only for a name that the node
    of the proxy neither has nor inherits and that, in lower case, is the
    key of a leaf component.  The function object renders the component
    and, when the proxy was given the sink, the access records the style
    and the script text of the component, each when it is not empty, under
    the lower-case name. *)
Theorem proxy_leaf_records (st : Proxy.Store) (p : nat) (name : string) (f : nat)
  (st1 : Proxy.Store) (target : Proxy.Node) :
  Proxy.nodes st !! p = Some target ->
  Proxy.get host p (Proxy.KString name) st = Ok (Proxy.ACallable f, st1) ->
  component_name host name
  /\ exists component,
      OMap.get (Proxy.n_components target) (Str.toLowerCase name) = Some (Leaf component)
      /\ (forall props, Proxy.call f props st1 = Some (render component props))
      /\ (Proxy.n_extra target = true ->
          (forall text, css component = Some text -> text <> "" ->
                        recorded (Proxy.extraCode st1) "css" (Str.toLowerCase name)
                        = Some text)
          /\ (forall text, js component = Some text -> text <> "" ->
                           recorded (Proxy.extraCode st1) "js" (Str.toLowerCase name)
                           = Some text))
      /\ (Proxy.n_extra target = false -> Proxy.extraCode st1 = Proxy.extraCode st).
Proof.
  intros Hp H. unfold Proxy.get in H. rewrite Hp in H.
  destruct (Proxy.in_target host name) eqn:Hin; [discriminate|].
  split; [now apply in_target_component_name|].
  destruct (OMap.get (Proxy.n_proxies target) (Str.toLowerCase name)) as [r|];
    [discriminate|].
  destruct (OMap.get (Proxy.n_components target) (Str.toLowerCase name))
    as [[component|component]|]; [| |discriminate].
  2:{ simpl in H. discriminate. }
  injection H as <- <-. exists component. split; [reflexivity|]. split.
  - intros props. unfold Proxy.call. simpl. now rewrite list_lookup_middle.
  - simpl. split.
    + intros ->. split; intros text Htext Hne; rewrite Htext.
      * rewrite recorded_save_code_other by (left; discriminate).
        now apply recorded_save_code_same.
      * now apply recorded_save_code_same.
    + now intros ->.
Qed.

(** X14.  What an access to a name does is decided by the name.  A name
    that the node of the proxy has or inherits yields [undefined] and
    changes nothing, whatever the registry holds.  Any other name fails
    exactly when the registry of the proxy has no entry under the
    lower-case form of the name, and the error names the component as it
    was written; otherwise the access yields a proxy or a function
    object. *)
Theorem proxy_unknown_component (st : Proxy.Store) (p : nat) (target : Proxy.Node)
  (name : string) :
  store_ok st ->
  Proxy.nodes st !! p = Some target ->
  (component_name host name ->
   match OMap.get (Proxy.n_components target) (Str.toLowerCase name) with
   | None =>
       Proxy.get host p (Proxy.KString name) st
       = Err (PlainError ("Component " +:+ Str.quoted name +:+ " not found"))
   | Some _ =>
       exists a st1,
         Proxy.get host p (Proxy.KString name) st = Ok (a, st1)
         /\ a <> Proxy.AUndefined
   end)
  /\ (~ component_name host name ->
      Proxy.get host p (Proxy.KString name) st = Ok (Proxy.AUndefined, st)).
Proof.
  intros Hok Hp. unfold Proxy.get. rewrite Hp. split.
  - intros Hn. apply in_target_component_name in Hn. rewrite Hn.
    destruct (OMap.get (Proxy.n_proxies target) (Str.toLowerCase name)) as [q|] eqn:Hmemo.
    + destruct (Hok _ _ _ _ Hp Hmemo) as (m & node & -> & _).
      eexists _, _. split; [reflexivity | discriminate].
    + destruct (OMap.get (Proxy.n_components target) (Str.toLowerCase name))
        as [[component|component]|]; simpl; [| |reflexivity];
        (eexists _, _; split; [reflexivity | discriminate]).
  - intros Hn. destruct (Proxy.in_target host name) eqn:Hin; [reflexivity|].
    now apply in_target_component_name in Hin.
Qed.

(** X15.  An access yields a proxy only for a name that the node neither
    has nor inherits and that, in lower case, is the key of a namespace.
    The proxy is one for the registry of the namespace, and it writes to
    the sink when its parent does: the components of a namespace record
    their code as those at the top do. *)
Theorem proxy_namespace (st : Proxy.Store) (p : nat) (target : Proxy.Node) (name : string)
  (q : nat) (st1 : Proxy.Store) :
  store_ok st ->
  Proxy.nodes st !! p = Some target ->
  Proxy.get host p (Proxy.KString name) st = Ok (Proxy.ANamespace q, st1) ->
  store_ok st1
  /\ component_name host name
  /\ exists nested node,
      OMap.get (Proxy.n_components target) (Str.toLowerCase name) = Some (Namespace nested)
      /\ Proxy.nodes st1 !! q = Some node
      /\ Proxy.n_components node = nested
      /\ Proxy.n_extra node = Proxy.n_extra target.
Proof.
  intros Hok Hp H. split; [exact (store_ok_get _ _ _ _ _ Hok H)|].
  unfold Proxy.get in H. rewrite Hp in H.
  destruct (Proxy.in_target host name) eqn:Hin; [discriminate|].
  split; [now apply in_target_component_name|].
  destruct (OMap.get (Proxy.n_proxies target) (Str.toLowerCase name)) as [r|] eqn:Hmemo.
  - injection H as <- <-. exact (Hok _ _ _ _ Hp Hmemo).
  - destruct (OMap.get (Proxy.n_components target) (Str.toLowerCase name))
      as [[component|component]|]; [discriminate| |discriminate].
    simpl in H. injection H as <- <-. simpl.
    exists component,
      {| Proxy.n_components := component; Proxy.n_proxies := [];
         Proxy.n_extra := Proxy.n_extra target |}.
    split; [reflexivity|]. split; [|split; reflexivity].
    rewrite list_lookup_insert_ne by (apply lookup_lt_Some in Hp; lia).
    now apply list_lookup_middle.
Qed.

End proxy_facts.

Lemma proxy_access_keeps_witness :
  recorded (Proxy.extraCode (Site.after 1 "card" (Site.after 0 "ui"
                                                   (Site.after 0 "button" Site.store))))
    "css" "button"
  = Some "button { }".
Proof.
  assert (H : Proxy.get Sample.host 1 (Proxy.KString "card")
                (Site.after 0 "ui" (Site.after 0 "button" Site.store))
              = Ok (Proxy.ACallable 1,
                    Site.after 1 "card" (Site.after 0 "ui"
                                           (Site.after 0 "button" Site.store))))
    by (vm_compute; reflexivity).
  apply (proj2 (proj2 (proxy_access_keeps _ _ _ _ _ _ H)) "css" "button").
  - intros n [= <-]. discriminate.
  - vm_compute. reflexivity.
Defined.

(** The name [E-acute] yields the component under the key [e-acute] and
    records its style under that key. *)
Lemma proxy_leaf_records_witness :
  OMap.get Site.latin_registry Site.e_acute = Some (Leaf Site.card)
  /\ (forall props,
        Proxy.call 0 props (Site.after 0 Site.E_acute Site.latin_store)
        = Some (render Site.card props))
  /\ recorded (Proxy.extraCode (Site.after 0 Site.E_acute Site.latin_store))
       "css" Site.e_acute
     = Some ".card { }".
Proof.
  destruct (proxy_leaf_records Sample.host Site.latin_store 0 Site.E_acute 0
              (Site.after 0 Site.E_acute Site.latin_store)
              {| Proxy.n_components := Site.latin_registry; Proxy.n_proxies := [];
                 Proxy.n_extra := true |} eq_refl eq_refl)
    as (_ & component & Hc & Hcall & Hrec & _).
  change (Some (Leaf Site.card) = Some (Leaf component)) in Hc. injection Hc as <-.
  split; [reflexivity|]. split; [exact Hcall|].
  apply (proj1 (Hrec eq_refl)); [reflexivity | discriminate].
Defined.

(** On the proxy of the registry with the keys [e-acute] and [tostring]:
    the inherited name [toString] yields [undefined], the name [E-acute] a
    component, and the name [Card] fails. *)
Lemma proxy_unknown_component_witness :
  Proxy.get Sample.host 0 (Proxy.KString "toString") Site.latin_store
  = Ok (Proxy.AUndefined, Site.latin_store)
  /\ (exists a st1,
        Proxy.get Sample.host 0 (Proxy.KString Site.E_acute) Site.latin_store = Ok (a, st1)
        /\ a <> Proxy.AUndefined)
  /\ Proxy.get Sample.host 0 (Proxy.KString "Card") Site.latin_store
     = Err (PlainError ("Component " +:+ Str.quoted "Card" +:+ " not found")).
Proof.
  assert (Hok : store_ok Site.latin_store)
    by apply (store_ok_toProxy Site.latin_registry true Proxy.empty_store), store_ok_empty.
  pose (target := {| Proxy.n_components := Site.latin_registry; Proxy.n_proxies := [];
                     Proxy.n_extra := true |}).
  split; [|split].
  - apply (proj2 (proxy_unknown_component Sample.host Site.latin_store 0 target "toString"
                    Hok eq_refl)).
    intros (_ & _ & H). discriminate H.
  - apply (proj1 (proxy_unknown_component Sample.host Site.latin_store 0 target Site.E_acute
                    Hok eq_refl)).
    repeat split; discriminate.
  - apply (proj1 (proxy_unknown_component Sample.host Site.latin_store 0 target "Card"
                    Hok eq_refl)).
    repeat split; discriminate.
Defined.

Lemma proxy_namespace_witness :
  store_ok (Site.after 0 "ui" Site.store)
  /\ component_name Sample.host "ui"
  /\ exists nested node,
      OMap.get Site.registry (Str.toLowerCase "ui") = Some (Namespace nested)
      /\ Proxy.nodes (Site.after 0 "ui" Site.store) !! 1%nat = Some node
      /\ Proxy.n_components node = nested
      /\ Proxy.n_extra node = true.
Proof.
  apply (proxy_namespace Sample.host Site.store 0
           {| Proxy.n_components := Site.registry; Proxy.n_proxies := [];
              Proxy.n_extra := true |} "ui" 1 (Site.after 0 "ui" Site.store)).
  - apply (store_ok_toProxy Site.registry true Proxy.empty_store), store_ok_empty.
  - reflexivity.
  - vm_compute. reflexivity.
Defined.

(** ** The pages with the code of the components *)

Lemma get_In_pair {V : Type} (m : list (string * V)) k v :
  OMap.get m k = Some v -> In (k, v) m.
Proof.
  induction m as [|[k0 v0] m IH]; [discriminate|]. simpl.
  destruct (String.eqb k0 k) eqn:E.
  - apply String.eqb_eq in E. intros [= ->]. left. now subst.
  - intros H. right. now apply IH.
Qed.

Section extra_code_facts.
Variable Page_create : string -> string -> Page.
Variable c : Source.Config.

(** X16.  The code recorded for a component is part of the page of its
    type: when the sink holds a text under [css] (under [js]), the pages
    returned include the page created for the style (script) file of the
    components, and the text is one of the pieces that the content of the
    page joins with line feeds. *)
Theorem extra_code_in_page (sink : list (string * list (string * string)))
  (type key text : string) :
  recorded sink type key = Some text ->
  forall path,
    (type = "css" /\ path = Source.components_cssFile c)
    \/ (type = "js" /\ path = Source.components_jsFile c) ->
    exists before after,
      In (Page_create path (Str.join ExtraCode.line_feed (before ++ text :: after)))
         (ExtraCode.getComponentsExtraCode Page_create c sink).
Proof.
  unfold recorded. intros Hrec path Hfile.
  destruct (OMap.get sink type) as [code|] eqn:Hcode; [|discriminate].
  assert (Hin : In text (OMap.values code)).
  { apply get_In_pair in Hrec. apply (in_map snd) in Hrec. exact Hrec. }
  assert (Hsize : negb (Nat.eqb (length code) 0) = true).
  { destruct code; [discriminate | reflexivity]. }
  apply in_split in Hin as (before & after & Hvalues).
  exists before, after. rewrite <- Hvalues.
  unfold ExtraCode.getComponentsExtraCode. cbn [fold_left].
  destruct Hfile as [[-> ->] | [-> ->]].
  - rewrite Hcode, Hsize. simpl.
    destruct (OMap.get sink "js") as [js|]; [|now left].
    destruct (negb (Nat.eqb (length js) 0)); now left.
  - rewrite Hcode, Hsize. apply in_or_app. right. now left.
Qed.

End extra_code_facts.

Lemma extra_code_in_page_witness :
  exists before after,
    In {| page_src := Sample.default_src;
          page_data := [("url", VStr "/components.css");
                        ("content",
                          VStr (Str.join ExtraCode.line_feed
                                  (before ++ ".card { }" :: after)))];
          page_layout := VUndefined |}
       (ExtraCode.getComponentsExtraCode
          (fun path content =>
             {| page_src := Sample.default_src;
                page_data := [("url", VStr path); ("content", VStr content)];
                page_layout := VUndefined |})
          (Sample.config "comp")
          (Proxy.extraCode
             (Site.after 1 "card" (Site.after 0 "ui" (Site.after 0 "button" Site.store))))).
Proof.
  apply (extra_code_in_page
           (fun path content =>
              {| page_src := Sample.default_src;
                 page_data := [("url", VStr path); ("content", VStr content)];
                 page_layout := VUndefined |})
           (Sample.config "comp")
           (Proxy.extraCode
              (Site.after 1 "card" (Site.after 0 "ui" (Site.after 0 "button" Site.store))))
           "css" "card" ".card { }").
  - vm_compute. reflexivity.
  - left. split; reflexivity.
Defined.

(** ** URL resolution *)

Lemma startsWith_app (p r : string) : Str.startsWith (p +:+ r) p = true.
Proof.
  induction p as [|c p IH]; [reflexivity|].
  rewrite append_cons. unfold Str.startsWith in *. cbn. now rewrite Ascii.eqb_refl.
Qed.

Lemma startsWith_inv (p s : string) :
  Str.startsWith s p = true -> exists r, s = p +:+ r.
Proof.
  revert s. induction p as [|c p IH]; intros s H; [now exists s|].
  destruct s as [|b s]; [discriminate|].
  unfold Str.startsWith in H. cbn in H. fold Str.startsWith in H.
  destruct (Ascii.eqb c b) eqn:E; [|discriminate].
  apply Ascii.eqb_eq in E. subst b. destruct (IH s H) as (r & ->). now exists r.
Qed.

Lemma rev_rev (s : string) : Str.rev (Str.rev s) = s.
Proof.
  induction s as [|c s IH]; [reflexivity|].
  change (String c s) with (String c "" +:+ s) at 1.
  rewrite rev_append, rev_append, IH. reflexivity.
Qed.

Lemma endsWith_app (x p : string) : Str.endsWith (x +:+ p) p = true.
Proof. unfold Str.endsWith. rewrite rev_append. apply startsWith_app. Qed.

Lemma endsWith_inv (s p : string) : Str.endsWith s p = true -> exists x, s = x +:+ p.
Proof.
  unfold Str.endsWith. intros H. apply startsWith_inv in H as (r & Hr).
  exists (Str.rev r). rewrite <- (rev_rev s), Hr, rev_append, rev_rev. reflexivity.
Qed.

Lemma string_length_app (a b : string) :
  String.length (a +:+ b) = (String.length a + String.length b)%nat.
Proof. induction a as [|c a IH]; [reflexivity|]. rewrite append_cons. simpl. now rewrite IH. Qed.

Lemma substring_app (a b : string) : String.substring 0 (String.length a) (a +:+ b) = a.
Proof.
  induction a as [|c a IH]; [now destruct b|]. rewrite append_cons. simpl. now rewrite IH.
Qed.

Lemma slice_app (a b : string) :
  b <> "" -> Str.slice_to_minus (a +:+ b) (String.length b) = a.
Proof.
  intros Hb. unfold Str.slice_to_minus.
  destruct (String.length b) as [|n] eqn:Hn; [destruct b; [contradiction | discriminate]|].
  rewrite string_length_app, Hn.
  replace (String.length a + S n - S n)%nat with (String.length a) by lia.
  apply substring_app.
Qed.

Lemma normalizeUrl_index (x : string) :
  PageUrl.normalizeUrl (x +:+ "/index.html") = x +:+ "/".
Proof.
  unfold PageUrl.normalizeUrl. rewrite endsWith_app.
  change (x +:+ "/index.html") with (x +:+ ("/" +:+ "index.html")).
  rewrite <- append_assoc. now apply (slice_app (x +:+ "/") "index.html").
Qed.

Lemma endsWith_index_slash (x : string) : Str.endsWith (x +:+ "/") "/index.html" = false.
Proof. unfold Str.endsWith. rewrite rev_append. reflexivity. Qed.

(** X17.  [normalizeUrl] removes a final [index.html] that follows a slash,
    and nothing else: a URL that ends in [/index.html] loses these ten
    characters, every other URL is returned as it is; the result never ends
    in [/index.html], and normalizing it again changes nothing. *)
Theorem normalizeUrl_drops_index (url : string) :
  (forall x, url = x +:+ "/index.html" -> PageUrl.normalizeUrl url = x +:+ "/")
  /\ ((forall x, url <> x +:+ "/index.html") -> PageUrl.normalizeUrl url = url)
  /\ Str.endsWith (PageUrl.normalizeUrl url) "/index.html" = false
  /\ PageUrl.normalizeUrl (PageUrl.normalizeUrl url) = PageUrl.normalizeUrl url.
Proof.
  assert (Hends : Str.endsWith (PageUrl.normalizeUrl url) "/index.html" = false).
  { destruct (Str.endsWith url "/index.html") eqn:E.
    - apply endsWith_inv in E as (x & ->). rewrite normalizeUrl_index.
      apply endsWith_index_slash.
    - unfold PageUrl.normalizeUrl. now rewrite E. }
  split; [intros x ->; apply normalizeUrl_index|]. split; [|split; [exact Hends|]].
  - intros Hno. unfold PageUrl.normalizeUrl.
    destruct (Str.endsWith url "/index.html") eqn:E; [|reflexivity].
    apply endsWith_inv in E as (x & Hx). now destruct (Hno x).
  - unfold PageUrl.normalizeUrl at 1. now rewrite Hends.
Qed.

Lemma isAbsolute_nonempty (p : string) : Posix.isAbsolute p = true -> p <> "".
Proof. now destruct p. Qed.

Lemma normalize_absolute (p : string) :
  Posix.isAbsolute p = true -> Posix.isAbsolute (Posix.normalize p) = true.
Proof.
  intros H. unfold Posix.normalize.
  destruct (String.eqb p "") eqn:E; [apply String.eqb_eq in E; now subst|].
  now rewrite H.
Qed.

Lemma join_absolute (first : string) (rest : list string) :
  Posix.isAbsolute first = true -> Posix.isAbsolute (Posix.join (first :: rest)) = true.
Proof.
  intros H. pose proof (isAbsolute_nonempty _ H) as Hne. unfold Posix.join.
  cbn [List.filter]. apply String.eqb_neq in Hne. rewrite Hne. cbn [negb].
  apply normalize_absolute. apply String.eqb_neq in Hne.
  destruct (List.filter (fun p => negb (String.eqb p "")) rest) as [|second more];
    [exact H|].
  change (Str.join "/" (first :: second :: more))
    with (first +:+ "/" +:+ Str.join "/" (second :: more)).
  now rewrite isAbsolute_app.
Qed.

Lemma last_segment_prefix (rsegs before : list string) (s : string) :
  Posix.last_segment rsegs = Some (before, s) ->
  exists suffix, rev rsegs = before ++ s :: suffix.
Proof.
  induction rsegs as [|x r IH]; [discriminate|]. simpl.
  destruct (String.eqb x ""); intros H.
  - destruct (IH H) as (suffix & ->). exists (suffix ++ [x]).
    now rewrite <- app_assoc.
  - injection H as <- <-. now exists [].
Qed.

Lemma dirname_absolute (p : string) :
  Posix.isAbsolute p = true -> Posix.isAbsolute (Posix.dirname p) = true.
Proof.
  intros H. unfold Posix.dirname. rewrite H.
  destruct (Posix.last_segment (rev (Posix.split p))) as [[before s]|] eqn:Hlast;
    [|reflexivity].
  apply last_segment_prefix in Hlast as (suffix & Hsplit). rewrite rev_involutive in Hsplit.
  apply startsWith_inv in H as (tail & ->).
  change ("/" +:+ tail) with (String "/" tail) in Hsplit. cbn [Posix.split] in Hsplit.
  change (Ascii.eqb "/" Posix.slash) with true in Hsplit. cbn iota in Hsplit.
  destruct before as [|b0 [|b1 more]]; [reflexivity | reflexivity |].
  cbn [app] in Hsplit. injection Hsplit as <- _. cbn [andb].
  destruct more as [|b2 more'].
  - destruct (String.eqb b1 ""); reflexivity.
  - reflexivity.
Qed.

Lemma normalizeUrl_absolute (url : string) :
  Posix.isAbsolute url = true -> Posix.isAbsolute (PageUrl.normalizeUrl url) = true.
Proof.
  intros H. destruct (Str.endsWith url "/index.html") eqn:E.
  - apply endsWith_inv in E as (x & ->). rewrite normalizeUrl_index.
    destruct x as [|c x]; [reflexivity | exact H].
  - unfold PageUrl.normalizeUrl. now rewrite E.
Qed.

Section resolution.
Variable call_function : nat -> Page -> Result Value.
Variable getExtension : string -> string.

Abbreviation getUrl := (PageUrl.getUrl call_function getExtension).

(** X18.  Below an absolute path every URL that [getUrl] resolves is
    absolute; it is not the empty string in particular, so [#build] drops a
    page for its URL only when the URL is [false]. *)
Theorem getUrl_absolute (page : Page) (prettyUrls : bool) (parentPath r : string) :
  Posix.isAbsolute parentPath = true ->
  getUrl page prettyUrls parentPath = Ok (Url r) ->
  Posix.isAbsolute r = true /\ Source.falsy_url (Url r) = false.
Proof.
  intros Hparent H.
  assert (Habs : Posix.isAbsolute r = true).
  { unfold PageUrl.getUrl in H.
    set (url := Posix.join [parentPath; src_slug (page_src page)]) in H.
    assert (Hurl : Posix.isAbsolute url = true) by now apply join_absolute.
    assert (Hcomputed :
              (if truthy_string (getExtension (src_path (page_src page)))
               then Ok (Url (url +:+ getExtension (src_path (page_src page))))
               else if src_asset (page_src page)
                    then Ok (Url (url +:+ src_ext (page_src page)))
                    else if prettyUrls
                         then if String.eqb (Posix.basename url) "index"
                              then Ok (Url (Posix.join [Posix.dirname url; "/"]))
                              else Ok (Url (Posix.join [url; "/"]))
                         else Ok (Url (url +:+ ".html"))) = Ok (Url r) ->
              Posix.isAbsolute r = true).
    { intros Hc. pose proof (isAbsolute_nonempty _ Hurl) as Hne.
      destruct (truthy_string _);
        [injection Hc as <-; now rewrite isAbsolute_app|].
      destruct (src_asset _); [injection Hc as <-; now rewrite isAbsolute_app|].
      destruct prettyUrls; [|injection Hc as <-; now rewrite isAbsolute_app].
      destruct (String.eqb _ "index"); injection Hc as <-.
      - apply join_absolute. now apply dirname_absolute.
      - now apply join_absolute. }
    assert (Hdeclared : forall v,
               match v with
               | VStr u =>
                   if Str.startsWith u "./" || Str.startsWith u "../"
                   then Ok (Url (PageUrl.normalizeUrl (Posix.join [parentPath; u])))
                   else if Str.startsWith u "/"
                        then Ok (Url (PageUrl.normalizeUrl u))
                        else Err (Exception "" page v)
               | _ => Err (Exception "" page v)
               end = Ok (Url r) ->
               Posix.isAbsolute r = true).
    { intros v Hv. destruct v; try discriminate.
      destruct (Str.startsWith s "./" || Str.startsWith s "../").
      - injection Hv as <-. apply normalizeUrl_absolute. now apply join_absolute.
      - destruct (Str.startsWith s "/") eqn:E; [|discriminate].
        injection Hv as <-. now apply normalizeUrl_absolute. }
    destruct (prop (page_data page) "url") as [| |[|]| | | | | |f| |] eqn:Hdecl;
      try discriminate; simpl in H;
      try (now apply Hcomputed);
      try (apply (Hdeclared (VStr s));
           destruct (Str.startsWith s "./" || Str.startsWith s "../"); [exact H|];
           destruct (Str.startsWith s "/"); [exact H | discriminate]).
    destruct (call_function f page) as [v|]; [|discriminate]. simpl in H.
    destruct v as [| |[|]| | | | | | | |]; try discriminate;
      try (now apply Hcomputed).
    apply (Hdeclared (VStr s)).
    destruct (Str.startsWith s "./" || Str.startsWith s "../"); [exact H|].
    destruct (Str.startsWith s "/"); [exact H | discriminate]. }
  split; [exact Habs|]. apply isAbsolute_nonempty in Habs.
  unfold Source.falsy_url, truthy_string. apply String.eqb_neq in Habs. now rewrite Habs.
Qed.

(** X19.  What the function declared as [url] returns decides as follows:
    [undefined] gives the URL of a page that declares no [url]; every other
    value that is no string, [false] included, is refused with an exception
    that carries the page and the value.  Only a declared [false] suppresses
    the page. *)
Theorem getUrl_function_result (page : Page) (prettyUrls : bool) (parentPath : string)
  (f : nat) (v : Value) :
  prop (page_data page) "url" = VFun f ->
  call_function f page = Ok v ->
  (v = VUndefined ->
   forall page',
     page_src page' = page_src page -> prop (page_data page') "url" = VUndefined ->
     getUrl page prettyUrls parentPath = getUrl page' prettyUrls parentPath)
  /\ (v <> VUndefined -> (forall u, v <> VStr u) ->
      exists msg, getUrl page prettyUrls parentPath = Err (Exception msg page v)).
Proof.
  intros Hdecl Hcall. unfold PageUrl.getUrl. rewrite Hdecl, Hcall. simpl. split.
  - intros -> page' Hsrc Hnone. now rewrite Hnone, Hsrc.
  - intros Hdef Hstr.
    destruct v; try (eexists; reflexivity); [contradiction | now destruct (Hstr s)].
Qed.

End resolution.

Lemma getUrl_absolute_witness :
  Posix.isAbsolute "/blog/post/" = true /\ Source.falsy_url (Url "/blog/post/") = false.
Proof.
  apply (getUrl_absolute (fun _ _ => Ok VUndefined) (fun _ => "")
           Sample.post_page true "/blog/" "/blog/post/").
  - reflexivity.
  - vm_compute. reflexivity.
Defined.

Lemma getUrl_function_result_witness :
  exists msg,
    PageUrl.getUrl (fun _ _ => Ok (VBool false)) (fun _ => "")
      {| page_src := Sample.default_src; page_data := [("url", VFun 0)];
         page_layout := VUndefined |}
      true "/blog/"
    = Err (Exception msg
             {| page_src := Sample.default_src; page_data := [("url", VFun 0)];
                page_layout := VUndefined |}
             (VBool false)).
Proof.
  apply (proj2 (getUrl_function_result (fun _ _ => Ok (VBool false)) (fun _ => "")
                  {| page_src := Sample.default_src; page_data := [("url", VFun 0)];
                     page_layout := VUndefined |}
                  true "/blog/" 0 (VBool false) eq_refl eq_refl)).
  - discriminate.
  - discriminate.
Defined.

(** ** Static files *)

Section static_files.
Variable c : Source.Config.
Variable destFn : option (string -> string).

Abbreviation listed dir destPath := (Source.getStaticFiles c dir destPath destFn).

Lemma getStaticFiles_In (dir : Entry) (destPath : string) (sf : StaticFile) :
  In sf (listed dir destPath)
  <-> exists entry,
      In entry (entry_children dir)
      /\ ((copyable c entry
           /\ sf = {| sf_entry := entry;
                      sf_outputPath :=
                        Source.getOutputPath entry destPath
                          (match destFn with
                           | Some f => Some (Source.DestFunction f)
                           | None => None
                           end) |})
          \/ (is_directory entry = true
              /\ In sf (listed entry (Posix.join [destPath; entry_name entry])))).
Proof.
  destruct dir as [dname dpath dtype children]. cbn [Source.getStaticFiles entry_children].
  induction children as [|entry rest IH].
  - split; [intros [] | intros (entry & [] & _)].
  - rewrite in_app_iff, IH. clear IH. split.
    + intros [Hin | (entry' & Hin' & H')].
      * exists entry. split; [now left|].
        destruct entry as [name path [|] ch].
        -- left. unfold copyable. cbn [is_file entry_type].
           destruct (Source.reserved_name _) eqn:E1; [destruct Hin|].
           destruct (Source.is_ignored c _) eqn:E2; [destruct Hin|].
           destruct (Source.is_filtered c _) eqn:E3; [destruct Hin|].
           destruct Hin as [<-|[]]. auto.
        -- right. split; [reflexivity | exact Hin].
      * exists entry'. split; [now right | exact H'].
    + intros (entry' & [<-|Hin'] & H'); [|right; eauto].
      left. destruct entry as [name path [|] ch].
      * destruct H' as [[(_ & E1 & E2 & E3) ->] | [Hdir _]]; [|discriminate Hdir].
        rewrite E1, E2, E3. now left.
      * destruct H' as [[(Hfile & _) _] | [_ Hin]]; [discriminate Hfile | exact Hin].
Qed.

(** X20.  The static files listed for a directory are the files of its
    tree that have no reserved name, are not ignored and pass the ignore
    filters.  The directories on the way are not tested: a file in a
    directory with a reserved name, or in an ignored one, is listed as
    well. *)
Theorem getStaticFiles_lists (dir : Entry) (destPath : string) (e : Entry) :
  (exists outputPath,
      In {| sf_entry := e; sf_outputPath := outputPath |} (listed dir destPath))
  <-> below dir e /\ copyable c e.
Proof.
  revert destPath. induction dir as [name path type children IH] using Entry_tree_ind.
  intros destPath. rewrite List.Forall_forall in IH. split.
  - intros (out & Hin). apply getStaticFiles_In in Hin as (entry & Hentry & H).
    destruct H as [[Hcopy [= <- _]] | [Hdir Hin]].
    + split; [now apply below_child | exact Hcopy].
    + destruct (proj1 (IH entry Hentry _) (ex_intro _ out Hin)) as [Hbelow Hcopy].
      split; [|exact Hcopy]. now apply (below_deeper _ entry).
  - intros [Hbelow Hcopy]. inversion Hbelow as [? ? Hchild | ? d ? Hd Hdir Hdeeper]; subst.
    + eexists. apply getStaticFiles_In. exists e. split; [exact Hchild|]. left. eauto.
    + destruct (proj2 (IH d Hd (Posix.join [destPath; entry_name d]))
                  (conj Hdeeper Hcopy)) as (out & Hin).
      exists out. apply getStaticFiles_In. exists d. split; [exact Hd|]. right. eauto.
Qed.

End static_files.

Example getStaticFiles_sample :
  Source.getStaticFiles (Sample.config "comp") Site.static "/static" None
  = [{| sf_entry := Site.logo; sf_outputPath := "/static/logo.png" |};
     {| sf_entry := Site.notes; sf_outputPath := "/static/_private/notes.txt" |}].
Proof. vm_compute. reflexivity. Qed.

Lemma getStaticFiles_files (c : Source.Config) (destFn : option (string -> string))
  (dir : Entry) :
  forall destPath,
    Forall (fun sf => is_file (sf_entry sf) = true)
           (Source.getStaticFiles c dir destPath destFn).
Proof.
  induction dir as [name path type children IH] using Entry_tree_ind.
  intros destPath. rewrite List.Forall_forall in IH. apply List.Forall_forall.
  intros sf Hin. apply getStaticFiles_In in Hin as (entry & Hentry & H).
  destruct H as [[(Hfile & _) ->] | [_ Hin]]; [exact Hfile|].
  pose proof (IH entry Hentry (Posix.join [destPath; entry_name entry])) as Hall.
  rewrite List.Forall_forall in Hall. now apply Hall.
Qed.

(** ** The walk: what it collects *)

Section continues_facts.
Variables (P P' : Page -> Prop) (Q Q' : StaticFile -> Prop).

Lemma continues_refl w : continues P Q w w.
Proof.
  exists [], []. rewrite !app_nil_r. repeat split; auto.
Qed.

Lemma continues_trans w1 w2 w3 :
  continues P Q w1 w2 -> continues P Q w2 w3 -> continues P Q w1 w3.
Proof.
  intros (ps & sfs & Hp & Hs & HP & HQ & Hd) (ps' & sfs' & Hp' & Hs' & HP' & HQ' & Hd').
  exists (ps ++ ps'), (sfs ++ sfs'). rewrite Hp', Hs', Hp, Hs, !app_assoc.
  repeat split; auto; apply Forall_app; auto.
Qed.

Lemma continues_impl w w' :
  (forall p, P p -> P' p) -> (forall sf, Q sf -> Q' sf) ->
  continues P Q w w' -> continues P' Q' w w'.
Proof.
  intros HP HQ (ps & sfs & Hp & Hs & Hps & Hsfs & Hd).
  exists ps, sfs. repeat split; auto; eapply Forall_impl; eauto.
Qed.

Lemma continues_push_page w p : P p -> continues P Q w (Source.push_page w p).
Proof. intros Hp. exists [p], []. simpl. rewrite app_nil_r. repeat split; auto. Qed.

Lemma continues_push_static w l : Forall Q l -> continues P Q w (Source.push_static w l).
Proof. intros Hl. exists [], l. simpl. rewrite app_nil_r. repeat split; auto. Qed.

End continues_facts.

Section walk_facts.
Variable Loader : Type.
Variable dataLoader_load : Entry -> Result Data.
Variable componentLoader_load : Entry -> Data -> Result Components.
Variable formats_search : string -> option (Source.Format Loader).
Variable getContent : Entry -> Loader -> Result Data.
Variable mergeData : list Data -> Result Data.
Variable parseDateFromFilename : string -> string * option JSDate.Date.
Variable getPageUrl : Page -> bool -> string -> Result UrlResult.
Variable getPageDate : Page -> Result JSDate.Date.
Variable now : JSDate.Date.
Variable default_src : Src.
Variable c : Source.Config.
Variable buildFilters : list Source.BuildFilter.

Abbreviation directory_context :=
  (Source.directory_context dataLoader_load componentLoader_load mergeData
     parseDateFromFilename c).
Abbreviation file_page :=
  (Source.file_page Loader getContent mergeData parseDateFromFilename getPageUrl
     getPageDate c).
Abbreviation scoped_page :=
  (Source.scoped_page mergeData getPageUrl getPageDate now default_src c).
Abbreviation scoped_pages :=
  (Source.scoped_pages mergeData getPageUrl getPageDate now default_src c).
Abbreviation build_entry :=
  (Source.build_entry Loader formats_search getContent mergeData parseDateFromFilename
     getPageUrl getPageDate c).
Abbreviation build_ :=
  (Source.build_ Loader dataLoader_load componentLoader_load formats_search getContent
     mergeData parseDateFromFilename getPageUrl getPageDate now default_src c).
Abbreviation build :=
  (Source.build Loader dataLoader_load componentLoader_load formats_search getContent
     mergeData parseDateFromFilename getPageUrl getPageDate now default_src c).

Abbreviation origin := (page_origin c buildFilters default_src).
Abbreviation a_file := (fun sf : StaticFile => is_file (sf_entry sf) = true).

Lemma finish_page_src page u page' :
  Source.finish_page getPageDate page u = Ok page' -> page_src page' = page_src page.
Proof.
  unfold Source.finish_page. intros H.
  apply bind_Ok in H as (d & _ & H). now injection H as <-.
Qed.

Lemma directory_context_continues dir path pc pd w path' comps dirData w' :
  directory_context dir path pc pd w = Ok (path', comps, dirData, w') ->
  continues origin a_file w w'.
Proof.
  intros H. pose proof (directory_context_collections _ _ _ _ _ _ _ _ _ _ _ _ _ _ H)
    as [Hp Hs].
  exists [], []. rewrite !app_nil_r. repeat split; auto.
  unfold Source.directory_context in H.
  destruct (parseDateFromFilename (entry_name dir)) as [name date].
  apply bind_Ok in H as (currentData & _ & H).
  apply bind_Ok in H as (dd & _ & H).
  apply bind_Ok in H as (p & _ & H).
  apply bind_Ok in H as (loaded & _ & H).
  apply bind_Ok in H as ([[pc' dd'] st] & _ & H).
  injection H as <- <- <- <-. simpl. intros key Hkey.
  destruct (decide (p = key)) as [->|Hne].
  - rewrite lookup_insert_eq. eauto.
  - now rewrite lookup_insert_ne.
Qed.

Lemma scoped_page_continues path dirData w record w' :
  scoped_page path dirData w record = Ok w' -> continues origin a_file w w'.
Proof.
  unfold Source.scoped_page. intros H.
  apply bind_Ok in H as (merged & _ & H).
  apply bind_Ok in H as (url & _ & H).
  destruct url as [|u]; [injection H as <-; apply continues_refl|].
  destruct (Source.falsy_url (Url u)); [injection H as <-; apply continues_refl|].
  apply bind_Ok in H as (page & Hpage & H). injection H as <-.
  apply continues_push_page. left. now apply finish_page_src in Hpage.
Qed.

Lemma scoped_pages_continues dir path dirData w w' :
  scoped_pages dir path dirData w = Ok w' -> continues origin a_file w w'.
Proof.
  unfold Source.scoped_pages.
  destruct (Source.scopedPages c !! entry_path dir) as [records|];
    [|intros [= <-]; apply continues_refl].
  revert w. induction records as [|r records IH]; simpl; intros w H.
  - injection H as <-. apply continues_refl.
  - apply bind_Ok in H as (w1 & H1 & H2).
    eapply continues_trans; [eapply scoped_page_continues; eassumption | now apply IH].
Qed.

Lemma file_page_continues entry path dirData format type w w' :
  file_page buildFilters entry path dirData format type w = Ok w' ->
  continues (fun p => src_entry (page_src p) = Some entry
                      /\ Source.rejected buildFilters entry (Some p) = false)
            a_file w w'.
Proof.
  unfold Source.file_page. intros H.
  destruct (if match type with
               | Source.asset_type => true
               | Source.page_type => false
               end
            then Source.assetLoader format else Source.loader format) as [ld|];
    [|discriminate].
  destruct (parseDateFromFilename (entry_name entry)) as [slug date].
  apply bind_Ok in H as (pageData & _ & H).
  apply bind_Ok in H as (merged & _ & H).
  apply bind_Ok in H as (url & _ & H).
  destruct url as [|u]; [injection H as <-; apply continues_refl|].
  destruct (Source.falsy_url (Url u)); [injection H as <-; apply continues_refl|].
  apply bind_Ok in H as (page & Hpage & H).
  match type of H with
  | (if ?b then _ else _) = _ => destruct b eqn:Hfilter
  end; injection H as <-; [apply continues_refl|].
  apply continues_push_page. split; [|exact Hfilter].
  simpl. now rewrite (finish_page_src _ _ _ Hpage).
Qed.

Lemma build_entry_continues entry path dirData w w' :
  build_entry buildFilters entry path dirData w = Ok (Source.Done w') ->
  continues origin a_file w w'.
Proof.
  unfold Source.build_entry. intros H.
  destruct (Source.rejected buildFilters entry None) eqn:Hfilter;
    [injection H as <-; apply continues_refl|].
  destruct (Source.staticPaths c !! entry_path entry) as [[dest dirOnly]|] eqn:Hstatic.
  { destruct (entry_type entry) eqn:Htype.
    - destruct dirOnly; injection H as <-; [apply continues_refl|].
      apply continues_push_static. repeat constructor. simpl. unfold is_file.
      now rewrite Htype.
    - injection H as <-. apply continues_push_static, getStaticFiles_files. }
  destruct (Source.reserved_name entry) eqn:Hname;
    [injection H as <-; apply continues_refl|].
  destruct (Source.is_ignored c entry) eqn:Hignored;
    [injection H as <-; apply continues_refl|].
  destruct (Source.is_filtered c entry) eqn:Hfiltered;
    [injection H as <-; apply continues_refl|].
  destruct (entry_type entry) eqn:Htype; [|discriminate].
  assert (Hfile : is_file entry = true) by (unfold is_file; now rewrite Htype).
  destruct (formats_search (entry_path entry)) as [format|].
  - destruct (Source.truthy_copy (Source.copy format)).
    + injection H as <-. apply continues_push_static. now repeat constructor.
    + destruct (Source.pageType format) as [type|];
        [|injection H as <-; apply continues_refl].
      apply bind_Ok in H as (w1 & H1 & H). injection H as <-.
      apply file_page_continues in H1.
      eapply continues_impl; [| |exact H1]; [|auto].
      intros p [Hsrc Hpage]. right. exists entry. unfold copyable. auto 10.
  - destruct (Source.copyRemainingFiles c) as [remaining|];
      [|injection H as <-; apply continues_refl].
    destruct (remaining (entry_path entry)) as [s|[|]].
    + destruct (truthy_string s); injection H as <-; [|apply continues_refl].
      apply continues_push_static. now repeat constructor.
    + injection H as <-. apply continues_push_static. now repeat constructor.
    + injection H as <-. apply continues_refl.
Qed.

(** X21.  The walk of a directory only appends.  The pages and the static
    files collected before are kept in their places and no path leaves the
    index of the directory data.  Every page appended is a page assigned to
    a path or the page of a file that has no reserved name, is not ignored,
    passes the ignore filters, has no static mapping and is accepted by
    every build filter, alone and with its page; every static file appended
    is a file, never a directory. *)
Theorem walk_continues (dir : Entry) (path : string) (parentComponents : Components)
  (parentData : Data) (w w' : Source.Walk) :
  build_ buildFilters dir path parentComponents parentData w = Ok w' ->
  continues (page_origin c buildFilters default_src)
            (fun sf => is_file (sf_entry sf) = true) w w'.
Proof.
  revert path parentComponents parentData w w'.
  induction dir as [name epath type children IH] using Entry_tree_ind.
  intros path pc pd w w' H. simpl in H.
  destruct (Source.rejected buildFilters (MkEntry name epath type children) None);
    [injection H as <-; apply continues_refl|].
  destruct (Source.directory_context _ _ _ _ _ _ _ _ _ _) as [[[[path1 comps] dirData] w1]|]
    eqn:Hctx; [|discriminate].
  apply directory_context_continues in Hctx.
  destruct (Source.scoped_pages _ _ _ _ _ _ _ _ _ _) as [w2|] eqn:Hsp; [|discriminate].
  apply scoped_pages_continues in Hsp.
  apply (continues_trans _ _ _ w1); [exact Hctx|].
  apply (continues_trans _ _ _ w2); [exact Hsp|].
  clear Hctx Hsp. revert w2 H.
  induction IH as [|entry rest Hentry _ IHrest]; intros w2 H.
  - injection H as <-. apply continues_refl.
  - destruct (Source.build_entry _ _ _ _ _ _ _ _ _ _ _ _ _) as [[w3|]|] eqn:Hstep;
      [| |discriminate].
    + apply (continues_trans _ _ _ w3); [|now apply IHrest].
      eapply build_entry_continues; eassumption.
    + match type of H with
      | match ?b with _ => _ end = _ => destruct b as [w3|] eqn:Hrec; [|discriminate]
      end.
      apply (continues_trans _ _ _ w3); [|now apply IHrest].
      eapply Hentry; eassumption.
Qed.

End walk_facts.

Lemma walk_continues_witness :
  exists w',
    Site.build_ (Sample.config "comp") [] Sample.root "/" [] [] Sample.empty_walk = Ok w'
    /\ continues (page_origin (Sample.config "comp") [] Sample.default_src)
                 (fun sf => is_file (sf_entry sf) = true) Sample.empty_walk w'.
Proof.
  assert (H : exists w', Site.build_ (Sample.config "comp") [] Sample.root "/" [] []
                           Sample.empty_walk = Ok w')
    by (vm_compute; eexists; reflexivity).
  destruct H as [w' H]. exists w'. split; [exact H|].
  exact (walk_continues unit Sample.dataLoader_load Sample.componentLoader_load
           Sample.formats_search Sample.getContent Sample.mergeData DateName.parseDate
           Sample.getUrl Sample.getPageDate (JSDate.Instant 0) Sample.default_src
           (Sample.config "comp") [] Sample.root "/" [] [] Sample.empty_walk w' H).
Defined.

(** ** The walk: static mappings and ignored paths *)

Section exclusion_facts.
Variable normalizePath : string -> string.
Variable Loader : Type.
Variable formats_search : string -> option (Source.Format Loader).
Variable getContent : Entry -> Loader -> Result Data.
Variable mergeData : list Data -> Result Data.
Variable parseDateFromFilename : string -> string * option JSDate.Date.
Variable getPageUrl : Page -> bool -> string -> Result UrlResult.
Variable getPageDate : Page -> Result JSDate.Date.

Abbreviation build_entry :=
  (Source.build_entry Loader formats_search getContent mergeData parseDateFromFilename
     getPageUrl getPageDate).

(** X22.  A file named by a static mapping without a final slash, which
    the build filters accept, is copied whatever else holds of it: a
    reserved name, an ignored path, an ignore filter or a known format make
    no difference.  It goes to the normalized
    destination when that is a string, to what the destination function
    answers for the path of the file below the directory, and to that path
    itself when no destination was given. *)
Theorem static_mapping_copies_file (c : Source.Config) (from : string)
  (to : option Source.Dest) (buildFilters : list Source.BuildFilter) (entry : Entry)
  (path : string) (dirData : Data) (w : Source.Walk) :
  Str.endsWith from "/" = false ->
  entry_path entry = normalizePath from ->
  is_file entry = true ->
  Source.rejected buildFilters entry None = false ->
  build_entry (Source.addStaticPath normalizePath c from to) buildFilters entry path
    dirData w
  = Ok (Source.Done
          (Source.push_static w
             [{| sf_entry := entry;
                 sf_outputPath :=
                   match to with
                   | Some (Source.DestString s) => normalizePath s
                   | Some (Source.DestFunction f) => f (Posix.join [path; entry_name entry])
                   | None => Posix.join [path; entry_name entry]
                   end |}])).
Proof.
  intros Hslash Hpath Hfile Hfilter. unfold Source.build_entry. rewrite Hfilter.
  unfold Source.addStaticPath, Source.strip_trailing_slash. cbn [Source.staticPaths].
  rewrite Hslash, Hpath, lookup_insert_eq.
  unfold is_file in Hfile. destruct (entry_type entry); [|discriminate].
  now destruct to as [[s|f]|].
Qed.

(** X23.  An entry without a static mapping whose path was given to
    [addIgnoredPath], or for whose path a filter given to [addIgnoreFilter]
    answers true, is passed over by the walk: it yields no page and no
    static file, and when it is a directory the walk does not enter it. *)
Theorem ignored_entry_skipped (c : Source.Config) (buildFilters : list Source.BuildFilter)
  (entry : Entry) (path : string) (dirData : Data) (w : Source.Walk) :
  Source.staticPaths c !! entry_path entry = None ->
  (forall ignoredPath,
      entry_path entry = normalizePath ignoredPath ->
      build_entry (Source.addIgnoredPath normalizePath c ignoredPath) buildFilters entry
        path dirData w = Ok (Source.Done w))
  /\ (forall filter,
         filter (entry_path entry) = true ->
         build_entry (Source.addIgnoreFilter c filter) buildFilters entry path dirData w
         = Ok (Source.Done w)).
Proof.
  intros Hstatic. split.
  - intros ignoredPath Hpath. unfold Source.build_entry.
    destruct (Source.rejected buildFilters entry None); [reflexivity|].
    cbn [Source.addIgnoredPath Source.staticPaths]. rewrite Hstatic.
    destruct (Source.reserved_name entry); [reflexivity|].
    unfold Source.is_ignored. cbn [Source.ignored]. rewrite Hpath.
    rewrite bool_decide_eq_true_2 by set_solver. reflexivity.
  - intros filter Hfilter. unfold Source.build_entry.
    destruct (Source.rejected buildFilters entry None); [reflexivity|].
    cbn [Source.addIgnoreFilter Source.staticPaths]. rewrite Hstatic.
    destruct (Source.reserved_name entry); [reflexivity|].
    destruct (Source.is_ignored _ entry); [reflexivity|].
    unfold Source.is_filtered, Source.addIgnoreFilter. cbn [Source.filters].
    rewrite existsb_app. cbn [existsb]. rewrite Hfilter, orb_true_r. reflexivity.
Qed.

End exclusion_facts.

Lemma static_mapping_copies_file_witness :
  Sample.build_entry
    (Source.addStaticPath Sample.normalizePath (Sample.config "comp") "_headers" None)
    [] Site.headers "/" [] Sample.empty_walk
  = Ok (Source.Done
          (Source.push_static Sample.empty_walk
             [{| sf_entry := Site.headers;
                 sf_outputPath := Posix.join ["/"; entry_name Site.headers] |}])).
Proof.
  apply (static_mapping_copies_file Sample.normalizePath unit Sample.formats_search
           Sample.getContent Sample.mergeData DateName.parseDate Sample.getUrl
           Sample.getPageDate (Sample.config "comp") "_headers" None []
           Site.headers "/" [] Sample.empty_walk); reflexivity.
Defined.

Lemma ignored_entry_skipped_witness :
  Sample.build_entry
    (Source.addIgnoredPath Sample.normalizePath (Sample.config "comp") "blog")
    [] Sample.blog "/" [] Sample.empty_walk
  = Ok (Source.Done Sample.empty_walk).
Proof.
  apply (proj1 (ignored_entry_skipped Sample.normalizePath unit Sample.formats_search
                  Sample.getContent Sample.mergeData DateName.parseDate Sample.getUrl
                  Sample.getPageDate (Sample.config "comp") [] Sample.blog "/" []
                  Sample.empty_walk eq_refl) "blog").
  reflexivity.
Defined.

(** ** The date prefix of a file name *)

(** X24.  A name that starts with a date, hours, minutes and seconds and a
    separator gets the instant of that date and time of day, and the
    remainder is what follows the separator, up to the first line
    terminator. *)
Theorem parseDate_reads_time (y m d h mi s : string) (sep : ascii) (rest : string) :
  digit_string 4 y -> digit_string 2 m -> digit_string 2 d ->
  digit_string 2 h -> digit_string 2 mi -> digit_string 2 s ->
  is_separator sep = true ->
  DateName.parseDate
    (y +:+ "-" +:+ m +:+ "-" +:+ d +:+ "-" +:+ h +:+ "-" +:+ mi +:+ "-" +:+ s
     +:+ String sep rest)
  = (DateName.dot_star rest,
     Some (JSDate.Instant (JSDate.MakeDate (day_of y m d) (time_of h mi s)))).
Proof.
  intros Hy Hm Hd Hh Hmi Hs Hsep.
  destruct (field_or_zero_digits h Hh) as (Fh & Rh).
  destruct (field_or_zero_digits mi Hmi) as (Fmi & Rmi).
  destruct (field_or_zero_digits s Hs) as (Fs & Rs).
  apply (parseDate_of_groups y m d _ (Some h) (Some mi) (Some s)); try assumption.
  unfold DateName.time_and_tail.
  rewrite (hour_minute_app h mi _ Hh Hmi), (second_app s _ Hs), (tail_separator _ _ Hsep).
  reflexivity.
Qed.

(** X25.  A name that starts with a date and a separator, and does not go
    on with two digits, gets the instant of that date at midnight (UTC),
    and the remainder is what follows the separator, up to the first line
    terminator. *)
Theorem parseDate_midnight (y m d : string) (sep : ascii) (rest : string) :
  digit_string 4 y -> digit_string 2 m -> digit_string 2 d ->
  is_separator sep = true ->
  DateName.digits 2 rest = None ->
  DateName.parseDate (y +:+ "-" +:+ m +:+ "-" +:+ d +:+ String sep rest)
  = (DateName.dot_star rest,
     Some (JSDate.Instant (JSDate.MakeDate (day_of y m d) 0))).
Proof.
  intros Hy Hm Hd Hsep Hrest.
  change (JSDate.MakeDate (day_of y m d) 0)
    with (JSDate.MakeDate (day_of y m d) (JSDate.MakeTime 0 0 0 0)).
  apply (parseDate_of_groups y m d _ None None None); try assumption;
    try reflexivity; try lia.
  unfold DateName.time_and_tail. rewrite (tail_separator _ _ Hsep).
  assert (Hhm : DateName.hour_minute (String sep rest) = None).
  { unfold DateName.hour_minute, DateName.hyphen.
    destruct (Ascii.eqb sep "-"); [now rewrite Hrest | reflexivity]. }
  now rewrite Hhm.
Qed.

Lemma time_and_tail_starts (s : string) groups :
  DateName.time_and_tail s = Some groups ->
  exists sep rest, s = String sep rest /\ is_separator sep = true.
Proof.
  unfold DateName.time_and_tail. intros H.
  destruct (DateName.hour_minute s) as [[[h mi] r]|] eqn:Hhm.
  - apply hour_minute_inv in Hhm as (-> & _). now exists "-"%char, (h +:+ "-" +:+ mi +:+ r).
  - destruct (DateName.tail s) as [sl|] eqn:Ht; [|discriminate].
    apply tail_inv in Ht as (sep & rest & -> & Hsep & _). now exists sep, rest.
Qed.

Lemma exec_groups_dated (name : string) g :
  DateName.exec_groups name = Some g -> exists y m d sep rest, dated name y m d sep rest.
Proof.
  unfold DateName.exec_groups. intros H.
  destruct (DateName.digits 4 name) as [[y s1]|] eqn:Hy; [|discriminate].
  destruct (DateName.hyphen s1) as [s2|] eqn:H1; [|discriminate].
  destruct (DateName.digits 2 s2) as [[m s3]|] eqn:Hm; [|discriminate].
  destruct (DateName.hyphen s3) as [s4|] eqn:H2; [|discriminate].
  destruct (DateName.digits 2 s4) as [[d s5]|] eqn:Hd; [|discriminate].
  destruct (DateName.time_and_tail s5) as [groups|] eqn:Htt; [|discriminate].
  apply digits_inv in Hy as (-> & Hy). apply hyphen_inv in H1 as ->.
  apply digits_inv in Hm as (-> & Hm). apply hyphen_inv in H2 as ->.
  apply digits_inv in Hd as (-> & Hd).
  apply time_and_tail_starts in Htt as (sep & rest & -> & Hsep).
  exists y, m, d, sep, rest. unfold dated. auto.
Qed.

Lemma parseDate_dated (name y m d : string) (sep : ascii) (rest : string) :
  dated name y m d sep rest ->
  exists slug ms, DateName.parseDate name = (slug, Some (JSDate.Instant ms)).
Proof.
  intros (Hy & Hm & Hd & Hsep & ->).
  destruct (time_and_tail_total sep rest Hsep)
    as (gh & gmi & gs & sl & Htt & Hgh & Hgmi & Hgs).
  destruct (field_or_zero_range gh Hgh) as (h & Hh & Hhr).
  destruct (field_or_zero_range gmi Hgmi) as (mi & Hmi & Hmir).
  destruct (field_or_zero_range gs Hgs) as (s & Hs & Hsr).
  eexists _, _.
  exact (parseDate_of_groups y m d _ gh gmi gs sl h mi s Hy Hm Hd Htt Hh Hhr Hmi Hmir Hs Hsr).
Qed.

(** X26.  A name gets a date exactly when it starts with four digits, a
    hyphen, two digits, a hyphen, two digits and a separator ([_] or [-]).
    The date is then an instant, never an invalid date; a name without
    date is returned as it is. *)
Theorem parseDate_finds_date (name : string) :
  ((exists date, snd (DateName.parseDate name) = Some date)
   <-> exists y m d sep rest, dated name y m d sep rest)
  /\ (forall date, snd (DateName.parseDate name) = Some date ->
                   exists ms, date = JSDate.Instant ms)
  /\ (snd (DateName.parseDate name) = None -> fst (DateName.parseDate name) = name).
Proof.
  assert (Hdated : forall date, snd (DateName.parseDate name) = Some date ->
                                exists y m d sep rest, dated name y m d sep rest).
  { unfold DateName.parseDate. intros date H.
    destruct (DateName.exec_groups name) as [g|] eqn:Hg; [|discriminate].
    now apply exec_groups_dated in Hg. }
  split; [split|split].
  - intros (date & H). now apply (Hdated date).
  - intros (y & m & d & sep & rest & H).
    destruct (parseDate_dated _ _ _ _ _ _ H) as (slug & ms & ->). eauto.
  - intros date H. destruct (Hdated date H) as (y & m & d & sep & rest & Hd).
    destruct (parseDate_dated _ _ _ _ _ _ Hd) as (slug & ms & Hp).
    rewrite Hp in H. injection H as <-. eauto.
  - unfold DateName.parseDate.
    destruct (DateName.exec_groups name); [discriminate | reflexivity].
Qed.

Lemma parseDate_reads_time_witness :
  DateName.parseDate
    ("2024" +:+ "-" +:+ "03" +:+ "-" +:+ "05" +:+ "-" +:+ "10" +:+ "-" +:+ "30" +:+ "-"
     +:+ "15" +:+ String "_" "talk")
  = (DateName.dot_star "talk",
     Some (JSDate.Instant (JSDate.MakeDate (day_of "2024" "03" "05")
                             (time_of "10" "30" "15")))).
Proof.
  apply (parseDate_reads_time "2024" "03" "05" "10" "30" "15" "_" "talk");
    first [split; reflexivity | reflexivity].
Defined.

Lemma parseDate_midnight_witness :
  DateName.parseDate ("2024" +:+ "-" +:+ "03" +:+ "-" +:+ "05" +:+ String "-" "hello")
  = (DateName.dot_star "hello",
     Some (JSDate.Instant (JSDate.MakeDate (day_of "2024" "03" "05") 0))).
Proof.
  apply (parseDate_midnight "2024" "03" "05" "-" "hello");
    first [split; reflexivity | reflexivity].
Defined.

Example parseDate_time_sample :
  DateName.parseDate "2024-03-05-10-30-15_talk"
  = ("talk", Some (JSDate.Instant 1709634615000)).
Proof. vm_compute. reflexivity. Qed.

(** ** The date of a page *)

Example parseInt_samples :
  PageDate.parseInt ("1700000000" +:+ Sample.LF) = Some 1700000000
  /\ PageDate.parseInt "  -42px" = Some (-42)
  /\ PageDate.parseInt "0x1F" = Some 31
  /\ PageDate.parseInt "" = None
  /\ PageDate.parseInt "fatal: not a git repository" = None.
Proof. repeat split; reflexivity. Qed.

Section date_facts.
Variable run_git : list string -> Result (Z * string).
Variable parseISO : string -> JSDate.Date.
Variable now : JSDate.Date.

Abbreviation getGitDate := (PageDate.getGitDate run_git).
Abbreviation getDate := (PageDate.getDate run_git parseISO now).

(** X27.  The keyword [Git Last Modified], in any case of its letters, on
    an entry with file information: when [git] exits with an error, prints
    no number or prints the second 0, the date is the modification time of
    the file, and the current instant when the file has none. *)
Theorem getDate_git_fallback (text : string) (entry : PageDate.FileEntry)
  (info : PageDate.Info) (code : Z) (out : string) :
  PageDate.getInfo entry = Some info ->
  Str.toLowerCase text = "git last modified" ->
  run_git ["log"; "-1"; "--format=%at"; "--"; PageDate.src entry] = Ok (code, out) ->
  code <> 0 \/ PageDate.parseInt out = None \/ PageDate.parseInt out = Some 0 ->
  getDate (VStr text) (Some entry)
  = Ok (match PageDate.mtime info with
        | Some d => d
        | None => now
        end).
Proof.
  intros Hinfo Hkey Hrun Hgit. unfold PageDate.getDate. rewrite Hinfo, Hkey.
  change (String.eqb "git last modified" "git last modified") with true. cbv iota.
  unfold PageDate.getGitDate. rewrite Hrun. cbn [bind].
  assert (Hnone : (if negb (code =? 0) then Ok None
                   else match PageDate.parseInt out with
                        | Some n => if n * 1000 =? 0 then Ok None
                                    else Ok (Some (JSDate.new_Date
                                                     (JSDate.TimeClip (n * 1000))))
                        | None => Ok None
                        end) = Ok (@None JSDate.Date)).
  { destruct Hgit as [Hcode | [Hnan | Hzero]].
    - apply Z.eqb_neq in Hcode. now rewrite Hcode.
    - rewrite Hnan. now destruct (negb (code =? 0)).
    - rewrite Hzero. now destruct (negb (code =? 0)). }
  rewrite Hnone. reflexivity.
Qed.

(** X28.  [getDate] fails in two cases only: [git] could not be run for a
    keyword, and the failure is passed on; or the value is a string that
    [parseISO] does not read, and the error quotes the string and the
    source of the entry, or [undefined] when there is no entry. *)
Theorem getDate_failure (date : Value) (entry : option PageDate.FileEntry) (e : Error) :
  getDate date entry = Err e ->
  (exists args, run_git args = Err e)
  \/ exists text,
      date = VStr text
      /\ parseISO text = JSDate.InvalidDate
      /\ e = PlainError ("Invalid date: " +:+ text +:+ " ("
                         +:+ match entry with
                             | Some f => PageDate.src f
                             | None => "undefined"
                             end +:+ ")").
Proof.
  unfold PageDate.getDate. intros H.
  destruct date; try discriminate.
  assert (Hgit : forall type file (k : option JSDate.Date -> Result JSDate.Date),
             (forall g, k g <> Err e) ->
             bind (getGitDate type file) k = Err e -> exists args, run_git args = Err e).
  { intros type file k Hk Hbind. unfold PageDate.getGitDate in Hbind.
    destruct (run_git _) as [[code out]|e'] eqn:Hrun.
    - exfalso. cbn [bind] in Hbind.
      destruct (negb (code =? 0)); [now apply (Hk None)|].
      destruct (PageDate.parseInt out) as [n|]; [|now apply (Hk None)].
      destruct (n * 1000 =? 0); [now apply (Hk None) | eapply Hk; exact Hbind].
    - cbn [bind] in Hbind. injection Hbind as ->. eauto. }
  assert (Hparse : match parseISO s with
                   | JSDate.Instant ms => Ok (JSDate.Instant ms)
                   | JSDate.InvalidDate =>
                       Err (PlainError ("Invalid date: " +:+ s +:+ " ("
                                        +:+ match entry with
                                            | Some f => PageDate.src f
                                            | None => "undefined"
                                            end +:+ ")"))
                   end = Err e ->
                   exists text,
                     VStr s = VStr text
                     /\ parseISO text = JSDate.InvalidDate
                     /\ e = PlainError ("Invalid date: " +:+ text +:+ " ("
                                        +:+ match entry with
                                            | Some f => PageDate.src f
                                            | None => "undefined"
                                            end +:+ ")")).
  { intros Hp. exists s. destruct (parseISO s); [discriminate|].
    injection Hp as <-. auto. }
  destruct entry as [f|]; [|right; now apply Hparse].
  destruct (PageDate.getInfo f) as [i|]; [|right; now apply Hparse].
  destruct (String.eqb (Str.toLowerCase s) "git last modified").
  { left. eapply Hgit; [|exact H]. discriminate. }
  destruct (String.eqb (Str.toLowerCase s) "git created").
  { left. eapply Hgit; [|exact H]. discriminate. }
  right. now apply Hparse.
Qed.

End date_facts.

Lemma getDate_git_fallback_witness :
  PageDate.getDate (fun _ => Ok (128, "")) (fun _ => JSDate.InvalidDate) (JSDate.Instant 5)
    (VStr "Git Last Modified")
    (Some {| PageDate.src := "/site/post.md";
             PageDate.getInfo := Some {| PageDate.mtime := Some (JSDate.Instant 7);
                                         PageDate.birthtime := None |} |})
  = Ok (JSDate.Instant 7).
Proof.
  apply (getDate_git_fallback (fun _ => Ok (128, "")) (fun _ => JSDate.InvalidDate)
           (JSDate.Instant 5) "Git Last Modified"
           {| PageDate.src := "/site/post.md";
              PageDate.getInfo := Some {| PageDate.mtime := Some (JSDate.Instant 7);
                                          PageDate.birthtime := None |} |}
           {| PageDate.mtime := Some (JSDate.Instant 7); PageDate.birthtime := None |}
           128 "").
  - reflexivity.
  - reflexivity.
  - reflexivity.
  - left. discriminate.
Defined.

Lemma getDate_failure_witness :
  (exists args, (fun _ : list string => @Ok (Z * string) (0, "")) args
                = Err (PlainError "Invalid date: soon (undefined)"))
  \/ exists text,
      VStr "soon" = VStr text
      /\ (fun _ : string => JSDate.InvalidDate) text = JSDate.InvalidDate
      /\ PlainError "Invalid date: soon (undefined)"
         = PlainError ("Invalid date: " +:+ text +:+ " (" +:+ "undefined" +:+ ")").
Proof.
  apply (getDate_failure (fun _ => Ok (0, "")) (fun _ => JSDate.InvalidDate)
           (JSDate.Instant 0) (VStr "soon") None).
  reflexivity.
Defined.

(** ** The bundler plugin *)

Example fixExtensions_sample :
  Bundler.fixExtensions "import a from './a.ts'; import b from './b.TSX'; c.tsv"
  = "import a from './a.js'; import b from './b.js'; c.tsv".
Proof. vm_compute. reflexivity. Qed.

Lemma slice_from_app (key rest : string) :
  Bundler.slice_from (String.length key) (key +:+ rest) = rest.
Proof. induction key as [|c key IH]; [now destruct rest | exact IH]. Qed.

(** X29.  [getFileSpecifier] rewrites a specifier with the first entry of
    the import map whose key is a prefix of it: the prefix is replaced by
    the target of the entry.  Entries further down are not looked at, a
    longer key among them included; when no key is a prefix, the function
    throws. *)
Theorem getFileSpecifier_first_prefix (imports : list (string * string)) (file : string) :
  (forall r,
      Bundler.getFileSpecifier imports file = Ok r
      <-> exists before key target after rest,
          imports = before ++ (key, target) :: after
          /\ Forall (fun entry => Str.startsWith file (fst entry) = false) before
          /\ file = key +:+ rest
          /\ r = target +:+ rest)
  /\ ((exists e, Bundler.getFileSpecifier imports file = Err e)
      <-> Forall (fun entry => Str.startsWith file (fst entry) = false) imports).
Proof.
  induction imports as [|[key target] imports [IHok IHerr]]; split.
  - intros r. split; [discriminate|].
    intros (before & k & t & after & rest & H & _). now destruct before.
  - split; [constructor | intros _; eexists; reflexivity].
  - intros r. cbn [Bundler.getFileSpecifier].
    destruct (Str.startsWith file key) eqn:E; split.
    + intros [= <-]. destruct (startsWith_inv _ _ E) as (rest & ->).
      exists [], key, target, imports, rest. rewrite slice_from_app. auto.
    + intros (before & k & t & after & rest & H & Hbefore & -> & ->).
      destruct before as [|first before].
      * injection H as <- <- _. now rewrite slice_from_app.
      * injection H as <- _. inversion Hbefore as [|? ? Hfirst _]; subst.
        simpl in Hfirst. congruence.
    + intros H. apply IHok in H as (before & k & t & after & rest & -> & Hb & -> & ->).
      exists ((key, target) :: before), k, t, after, rest. repeat split; auto.
    + intros (before & k & t & after & rest & H & Hbefore & -> & ->).
      destruct before as [|first before].
      * injection H as <- <- _. now rewrite startsWith_app in E.
      * injection H as _ ->. inversion Hbefore; subst.
        apply IHok. exists before, k, t, after, rest. auto.
  - cbn [Bundler.getFileSpecifier]. destruct (Str.startsWith file key) eqn:E; split.
    + intros (e & H). discriminate.
    + intros H. inversion H as [|? ? Hfirst _]; subst. simpl in Hfirst. congruence.
    + intros H. constructor; [exact E | now apply IHerr].
    + intros H. inversion H; subst. now apply IHerr.
Qed.









